(** * Order placement screen (app/place-order.tsx): delivery location,
      cart and submission gate

    A shallow embedding of the logic of [PlaceOrderScreen]: the coordinate
    validator, the handlers that reconcile GPS fixes, map taps and manual
    text input, the reverse-geocoding fallback, the cart updaters and the
    order submission gate.

    Modelling conventions.
    - A JavaScript number that holds a coordinate or a price is an
      IEEE-754 binary64 value, represented by [spec_float] with precision
      53 and maximal exponent 1024; comparisons, sums, products, decimal
      literals, [parseFloat], [toString] and [toFixed] are written out on
      that representation.
    - Quantities and stock levels are counts: the code compares them and
      moves them by one, which is exact on whole numbers, so they are
      integers of [Z]; where a quantity is multiplied by a price it is
      converted to the binary64 that holds it.
    - A JavaScript string is a [string] whose characters are the code units
      0..255.
    - React state is a record; a handler reads the state variables of the
      render that created it (its snapshot) and writes to the live store, so
      every handler takes the snapshot as an argument and is a computation
      over the live store that also emits alerts, log lines and calls to the
      collaborators.  Each [await] splits a handler into the part that runs
      before it and the part that resumes with the outcome.
    - The rendered screen is a machine whose events are the controls of the
      JSX, with their [disabled] and [editable] conditions, and the settling
      of the awaited calls; the scenarios of Part II are runs of it.

    Part I also embeds the password reset screen (app/forgot-password.tsx)
    and the email verification screen (app/email-verification.tsx), with
    the regular expressions they test their input with, and what the
    earlier version of the order screen does differently; Part III states
    what holds of all three screens along every run. *)

From Stdlib Require Import ZArith QArith Qabs List String Ascii Bool Lia.
From Stdlib Require Import Floats.SpecFloat.
Import ListNotations.

Open Scope Z_scope.

(* ================================================================== *)
(** * Part I: the embedding *)
(* ================================================================== *)

(** ** JavaScript numbers *)

Module JSNumber.

Definition prec : Z := 53.
Definition emax : Z := 1024.

Definition number : Type := spec_float.

(** The values a binary64 can hold. *)
Definition valid_number (x : number) : Prop := valid_binary prec emax x = true.

Definition is_finite (x : number) : bool :=
  match x with
  | S754_zero _ | S754_finite _ _ _ => true
  | _ => false
  end.

(** Global [isNaN] applied to a number. *)
Definition isNaN (x : number) : bool :=
  match x with
  | S754_nan => true
  | _ => false
  end.

(** The abstract operation IsLessThan: [None] is "undefined", the answer
    when an operand is NaN. *)
Definition IsLessThan (x y : number) : option bool :=
  match SFcompare x y with
  | None => None
  | Some Lt => Some true
  | Some _ => Some false
  end.

(** [x < y], [x > y], [x <= y], [x >= y]. *)
Definition js_lt (x y : number) : bool :=
  match IsLessThan x y with Some true => true | _ => false end.
Definition js_gt (x y : number) : bool :=
  match IsLessThan y x with Some true => true | _ => false end.
Definition js_le (x y : number) : bool :=
  match IsLessThan y x with Some false => true | _ => false end.
Definition js_ge (x y : number) : bool :=
  match IsLessThan x y with Some false => true | _ => false end.

(** Unary minus. *)
Definition js_neg (x : number) : number := SFopp x.

(** [x + y] and [x * y], rounded to nearest, ties to even. *)
Definition js_add (x y : number) : number := SFadd prec emax x y.
Definition js_mul (x y : number) : number := SFmul prec emax x y.

(** The binary64 nearest to a whole number. *)
Definition number_of_Z (n : Z) : number := binary_normalize prec emax n 0 false.

(** The binary64 nearest to [n / d] (ties to even), with the given sign. *)
Definition of_ratio (negative : bool) (n : Z) (d : positive) : number :=
  match n with
  | Zpos p => SFdiv prec emax (S754_finite negative p 0) (S754_finite false d 0)
  | _ => S754_zero negative
  end.

(** The value [n * 10 ^ e], rounded. *)
Definition of_decimal (negative : bool) (n : Z) (e : Z) : number :=
  match e with
  | Zneg p => of_ratio negative n (10 ^ p)
  | _ => of_ratio negative (n * 10 ^ e) 1
  end.

(** A source literal such as [0.3476]: its digits and the number of digits
    after the point. *)
Definition literal (digits : Z) (fraction_digits : nat) : number :=
  of_decimal false digits (- Z.of_nat fraction_digits).

(** The real value of a finite number, as a fraction. *)
Definition SF2Q (x : number) : Q :=
  match x with
  | S754_finite s m e =>
      match e with
      | Z0 => inject_Z (cond_Zopp s (Zpos m))
      | Zpos p => inject_Z (cond_Zopp s (Zpos m * 2 ^ Zpos p))
      | Zneg p => Qmake (cond_Zopp s (Zpos m)) (2 ^ p)
      end
  | _ => 0%Q
  end.

(** Numerator and denominator of the magnitude of a finite number. *)
Definition magnitude (m : positive) (e : Z) : Z * Z :=
  match e with
  | Zneg p => (Zpos m, 2 ^ Zpos p)
  | _ => (Zpos m * 2 ^ e, 1)
  end.

(** A finite number scaled by [2 ^ 1074], the inverse of the least positive
    binary64: an integer for every valid number. *)
Definition scaled (x : number) : Z :=
  match x with
  | S754_finite s m e => cond_Zopp s (Zpos m * 2 ^ (e + 1074))
  | _ => 0
  end.

End JSNumber.

Import JSNumber.

(** ** JavaScript strings *)

Module JSString.

Open Scope string_scope.

(** WhiteSpace and LineTerminator code units below 256: TAB, LF, VT, FF, CR,
    SP and NBSP. *)
Definition is_whitespace (c : ascii) : bool :=
  let n := nat_of_ascii c in
  ((9 <=? n)%nat && (n <=? 13)%nat) || (n =? 32)%nat || (n =? 160)%nat.

Fixpoint trimStart (s : string) : string :=
  match s with
  | EmptyString => EmptyString
  | String c rest => if is_whitespace c then trimStart rest else s
  end.

Fixpoint trimEnd (s : string) : string :=
  match s with
  | EmptyString => EmptyString
  | String c rest =>
      match trimEnd rest with
      | EmptyString => if is_whitespace c then EmptyString else String c EmptyString
      | rest' => String c rest'
      end
  end.

(** [String.prototype.trim]. *)
Definition trim (s : string) : string := trimEnd (trimStart s).

(** [Array.prototype.join] on an array of strings. *)
Fixpoint join (sep : string) (parts : list string) : string :=
  match parts with
  | [] => ""
  | [p] => p
  | p :: rest => p ++ sep ++ join sep rest
  end.

(** Truthiness of a string: every string but the empty one. *)
Definition truthy (s : string) : bool :=
  match s with
  | EmptyString => false
  | _ => true
  end.

(** [String.prototype.includes]. *)
Fixpoint includes (s needle : string) : bool :=
  if prefix needle s then true
  else match s with
       | EmptyString => false
       | String _ rest => includes rest needle
       end.

Fixpoint repeat_char (c : ascii) (n : nat) : string :=
  match n with
  | O => ""
  | S k => String c (repeat_char c k)
  end.

Definition digit_char (d : Z) : ascii := ascii_of_nat (48 + Z.to_nat d).

Fixpoint digits_fuel (fuel : nat) (n : Z) (acc : string) : string :=
  match fuel with
  | O => acc
  | S k =>
      let acc' := String (digit_char (n mod 10)) acc in
      if (n <? 10)%Z then acc' else digits_fuel k (n / 10) acc'
  end.

(** The decimal digits of a non-negative integer, most significant first. *)
Definition decimal_digits (n : Z) : string :=
  digits_fuel (S (Z.to_nat (Z.log2 n))) n "".

(** Template-literal rendering of an integer-valued number. *)
Definition string_of_Z (n : Z) : string :=
  if (n <? 0)%Z then "-" ++ decimal_digits (- n) else decimal_digits n.

(** First [n] characters, and the rest. *)
Definition take (n : nat) (s : string) : string := substring 0 n s.
Definition drop (n : nat) (s : string) : string := substring n (length s - n) s.

End JSString.

Import JSString.

(** ** Conversions between numbers and strings *)

Module JSConvert.

Open Scope string_scope.

Definition number_eqb (x y : number) : bool :=
  match x, y with
  | S754_zero a, S754_zero b => Bool.eqb a b
  | S754_infinity a, S754_infinity b => Bool.eqb a b
  | S754_nan, S754_nan => true
  | S754_finite a m e, S754_finite b m' e' =>
      Bool.eqb a b && (m =? m')%positive && (e =? e')%Z
  | _, _ => false
  end.

(** The integer [n] with [10 ^ (n - 1) <= num / den < 10 ^ n], for a positive
    fraction. *)
Definition decimal_exponent (num den : Z) : Z :=
  if (den <=? num)%Z then Z.of_nat (length (decimal_digits (num / den)))
  else 1 - Z.of_nat (length (decimal_digits ((den + num - 1) / num - 1))).

Definition scale10 (num den p : Z) : Z * Z :=
  if (0 <=? p)%Z then (num * 10 ^ p, den) else (num, den * 10 ^ (- p)).

(** Does the decimal [s * 10 ^ (n - k)] denote the number [x]? *)
Definition round_trips (x : number) (s n k : Z) : bool :=
  number_eqb (of_decimal false s (n - k)) x.

(** The [k]-digit decimals next to [num / den], below and above: the one
    that denotes [x], the nearer one when both do, the even one on a tie. *)
Definition digits_at (x : number) (num den n0 k : Z) : option (Z * Z) :=
  let '(tn, td) := scale10 num den (k - n0) in
  let lo := tn / td in
  let hi := lo + 1 in
  let '(hs, hn) := if (hi =? 10 ^ k)%Z then (10 ^ (k - 1), n0 + 1) else (hi, n0) in
  match round_trips x lo n0 k, round_trips x hs hn k with
  | true, true =>
      match (2 * tn ?= (2 * lo + 1) * td)%Z with
      | Lt => Some (lo, n0)
      | Gt => Some (hs, hn)
      | Eq => if Z.even lo then Some (lo, n0) else Some (hs, hn)
      end
  | true, false => Some (lo, n0)
  | false, true => Some (hs, hn)
  | false, false => None
  end.

(** The least [k] with a [k]-digit decimal denoting [x]; 17 digits always
    suffice for a binary64. *)
Fixpoint shortest_digits (fuel : nat) (x : number) (num den n0 k : Z) : Z * Z * Z :=
  match digits_at x num den n0 k with
  | Some (s, n) => (s, n, k)
  | None =>
      match fuel with
      | O => (fst (scale10 num den (k - n0)) / snd (scale10 num den (k - n0)), n0, k)
      | S fuel' => shortest_digits fuel' x num den n0 (k + 1)
      end
  end.

(** The notation chosen by Number::toString for the digits [s] ([k] of them)
    and the decimal exponent [n]. *)
Definition notation (s n k : Z) : string :=
  let digits := decimal_digits s in
  if ((-5 <=? n) && (n <=? 21))%Z then
    if (k <=? n)%Z then digits ++ repeat_char "0" (Z.to_nat (n - k))
    else if (0 <? n)%Z then
      take (Z.to_nat n) digits ++ "." ++ drop (Z.to_nat n) digits
    else "0." ++ repeat_char "0" (Z.to_nat (- n)) ++ digits
  else
    let c := n - 1 in
    let exponent := (if (c <? 0)%Z then "-" else "+") ++ decimal_digits (Z.abs c) in
    if (k =? 1)%Z then digits ++ "e" ++ exponent
    else take 1 digits ++ "." ++ drop 1 digits ++ "e" ++ exponent.

(** [Number.prototype.toString] in radix 10. *)
Definition toString (x : number) : string :=
  match x with
  | S754_nan => "NaN"
  | S754_zero _ => "0"
  | S754_infinity s => if s then "-Infinity" else "Infinity"
  | S754_finite sign m e =>
      let '(num, den) := magnitude m e in
      let n0 := decimal_exponent num den in
      let '(s, n, k) := shortest_digits 16 (S754_finite false m e) num den n0 1 in
      (if sign then "-" else "") ++ notation s n k
  end.

(** The integer nearest to [num / den], the larger one on a tie. *)
Definition round_half_up (num den : Z) : Z := (2 * num + den) / (2 * den).

(** The digits of [n] with a point before the last [f] of them. *)
Definition fixed_notation (n : Z) (f : nat) : string :=
  let m := decimal_digits n in
  if (f =? 0)%nat then m
  else
    let m' := if (length m <=? f)%nat
              then repeat_char "0" (f + 1 - length m) ++ m else m in
    take (length m' - f) m' ++ "." ++ drop (length m' - f) m'.

(** [Number.prototype.toFixed]. *)
Definition toFixed (x : number) (f : nat) : string :=
  match x with
  | S754_nan => "NaN"
  | S754_infinity s => if s then "-Infinity" else "Infinity"
  | S754_zero _ => fixed_notation 0 f
  | S754_finite sign m e =>
      let '(num, den) := magnitude m e in
      if (10 ^ 21 * den <=? num)%Z then toString x
      else (if sign then "-" else "")
           ++ fixed_notation (round_half_up (num * 10 ^ Z.of_nat f) den) f
  end.

Definition is_digit (c : ascii) : bool :=
  let n := nat_of_ascii c in (48 <=? n)%nat && (n <=? 57)%nat.

(** The longest prefix of decimal digits, and what follows it. *)
Fixpoint span_digits (s : string) : string * string :=
  match s with
  | EmptyString => ("", "")
  | String c rest =>
      if is_digit c then
        let '(ds, tl) := span_digits rest in (String c ds, tl)
      else ("", s)
  end.

Fixpoint digits_value (acc : Z) (ds : string) : Z :=
  match ds with
  | EmptyString => acc
  | String c rest => digits_value (10 * acc + (Z.of_nat (nat_of_ascii c) - 48)) rest
  end.

(** The value of an ExponentPart at the head of [s]; 0 when there is none. *)
Definition parse_exponent (s : string) : Z :=
  match s with
  | String c rest =>
      if (Ascii.eqb c "e" || Ascii.eqb c "E")%bool then
        let '(negative, rest') :=
          match rest with
          | String "-" r => (true, r)
          | String "+" r => (false, r)
          | _ => (false, rest)
          end in
        match fst (span_digits rest') with
        | EmptyString => 0
        | ds => if negative then - digits_value 0 ds else digits_value 0 ds
        end
      else 0
  | EmptyString => 0
  end.

(** The longest prefix that is a StrUnsignedDecimalLiteral, as a number. *)
Definition parse_unsigned (negative : bool) (s : string) : number :=
  if prefix "Infinity" s then S754_infinity negative
  else
    let '(int_part, rest) := span_digits s in
    let '(frac_part, rest') :=
      match rest with
      | String "." r => span_digits r
      | _ => ("", rest)
      end in
    match int_part, frac_part with
    | EmptyString, EmptyString => S754_nan
    | _, _ =>
        of_decimal negative (digits_value 0 (int_part ++ frac_part))
          (parse_exponent rest' - Z.of_nat (length frac_part))
    end.

(** Global [parseFloat]. *)
Definition parseFloat (s : string) : number :=
  match trimStart s with
  | String "-" r => parse_unsigned true r
  | String "+" r => parse_unsigned false r
  | t => parse_unsigned false t
  end.

End JSConvert.

Import JSConvert.

(** Conversions and literals are computed by [vm_compute] on closed terms
    and left folded otherwise. *)
Arguments of_ratio : simpl never.
Arguments of_decimal : simpl never.
Arguments literal : simpl never.
Arguments toString : simpl never.
Arguments toFixed : simpl never.
Arguments parseFloat : simpl never.

(** ** Data of the screen *)

Open Scope string_scope.

(** The signed-in user of the auth context, as far as the screen reads it. *)
Record User := {
  user_id : string;
  user_address : option string;
  user_latitude : option number;
  user_longitude : option number
}.

(** A product of the inventory API, as far as the screen reads it. *)
Record GasCylinder := {
  id : string;
  name : string;
  price : number;
  stockQuantity : Z;
  isAvailable : bool
}.

(** [interface CartItem extends GasCylinder { quantity }]. *)
Record CartItem := {
  cylinder : GasCylinder;
  quantity : Z
}.

Record LatLng := {
  latitude : number;
  longitude : number
}.

Record MapRegion := {
  region_latitude : number;
  region_longitude : number;
  latitudeDelta : number;
  longitudeDelta : number
}.

(** One entry of the reverse geocoder's answer; every part may be null. *)
Record GeocodedAddress := {
  geo_name : option string;
  geo_street : option string;
  geo_city : option string;
  geo_region : option string;
  geo_postalCode : option string;
  geo_country : option string
}.

Record OrderItem := {
  cylinderId : string;
  item_quantity : Z
}.

Record CreateOrderPayload := {
  customerId : string;
  items : list OrderItem;
  payload_deliveryAddress : string;
  deliveryLatitude : number;
  deliveryLongitude : number;
  specialInstructions : option string
}.

Record OrderResponse := {
  orderNumber : string;
  totalAmount : Z
}.

(** The [useState] cells of [PlaceOrderScreen]. *)
Record State := {
  cylinders : list GasCylinder;
  cart : list CartItem;
  deliveryAddress : string;
  deliveryLat : string;
  deliveryLng : string;
  instructions : string;
  loading : bool;
  error : string;
  showMap : bool;
  mapRegion : MapRegion;
  selectedLocation : LatLng;
  locationPermission : bool;
  mapError : bool;
  mapReady : bool
}.

(** What a button of an alert does when pressed. *)
Inductive AlertAction :=
| Dismiss
| ViewOrders
| NewOrder.

Record AlertButton := {
  text : string;
  onPress : AlertAction
}.

(** What a handler does besides writing state. *)
Inductive effect :=
| Alert (title message : string) (buttons : list AlertButton)
| ConsoleLog (message : string)
| ConsoleWarn (message : string)
| ConsoleError (message : string)
| RouterPush (path : string)
| RequestForegroundPermissions
| GetCurrentPosition
| ReverseGeocode (latitude longitude : number)
| GetAllGasCylinders (token : string)
| CreateOrder (orderData : CreateOrderPayload) (token : string).

(** Outcomes of the awaited calls. *)
Inductive PermissionOutcome :=
| PermissionStatus (status : string)
| PermissionThrows.

Inductive PositionOutcome :=
| PositionFix (latitude longitude : number)
| PositionThrows.

Inductive GeocodeOutcome :=
| GeocodeResults (results : option (list GeocodedAddress))
| GeocodeThrows.

Inductive CylindersOutcome :=
| CylindersLoaded (data : list GasCylinder)
| CylindersThrows (message : option string).

Inductive OrderOutcome :=
| OrderCreated (response : OrderResponse)
| OrderThrows (message : option string).

(** ** Handlers as computations over the live store *)

Definition Handler (A : Type) : Type := State -> A * State * list effect.

Definition ret {A : Type} (a : A) : Handler A := fun s => (a, s, []).

Definition bind {A B : Type} (m : Handler A) (k : A -> Handler B) : Handler B :=
  fun s =>
    let '(a, s1, out1) := m s in
    let '(b, s2, out2) := k a s1 in
    (b, s2, (out1 ++ out2)%list).

Definition emit (e : effect) : Handler unit := fun s => (tt, s, [e]).

Definition modify (f : State -> State) : Handler unit := fun s => (tt, f s, []).

Notation "x <- m ;; k" := (bind m (fun x => k))
  (at level 61, m at next level, right associativity).
Notation "m ;; k" := (bind m (fun _ => k))
  (at level 61, right associativity).

Definition state_after {A : Type} (m : Handler A) (s : State) : State := snd (fst (m s)).
Definition effects_of {A : Type} (m : Handler A) (s : State) : list effect := snd (m s).

(** The state setters. *)
Definition setCylinders (v : list GasCylinder) : Handler unit :=
  modify (fun '(Build_State _ b c d e f g h i j k l m n) => Build_State v b c d e f g h i j k l m n).
Definition setCart (v : list CartItem) : Handler unit :=
  modify (fun '(Build_State a _ c d e f g h i j k l m n) => Build_State a v c d e f g h i j k l m n).
Definition setDeliveryAddress (v : string) : Handler unit :=
  modify (fun '(Build_State a b _ d e f g h i j k l m n) => Build_State a b v d e f g h i j k l m n).
Definition setDeliveryLat (v : string) : Handler unit :=
  modify (fun '(Build_State a b c _ e f g h i j k l m n) => Build_State a b c v e f g h i j k l m n).
Definition setDeliveryLng (v : string) : Handler unit :=
  modify (fun '(Build_State a b c d _ f g h i j k l m n) => Build_State a b c d v f g h i j k l m n).
Definition setInstructions (v : string) : Handler unit :=
  modify (fun '(Build_State a b c d e _ g h i j k l m n) => Build_State a b c d e v g h i j k l m n).
Definition setLoading (v : bool) : Handler unit :=
  modify (fun '(Build_State a b c d e f _ h i j k l m n) => Build_State a b c d e f v h i j k l m n).
Definition setError (v : string) : Handler unit :=
  modify (fun '(Build_State a b c d e f g _ i j k l m n) => Build_State a b c d e f g v i j k l m n).
Definition setShowMap (v : bool) : Handler unit :=
  modify (fun '(Build_State a b c d e f g h _ j k l m n) => Build_State a b c d e f g h v j k l m n).
Definition setMapRegion (v : MapRegion) : Handler unit :=
  modify (fun '(Build_State a b c d e f g h i _ k l m n) => Build_State a b c d e f g h i v k l m n).
Definition setSelectedLocation (v : LatLng) : Handler unit :=
  modify (fun '(Build_State a b c d e f g h i j _ l m n) => Build_State a b c d e f g h i j v l m n).
Definition setLocationPermission (v : bool) : Handler unit :=
  modify (fun '(Build_State a b c d e f g h i j k _ m n) => Build_State a b c d e f g h i j k v m n).
Definition setMapError (v : bool) : Handler unit :=
  modify (fun '(Build_State a b c d e f g h i j k l _ n) => Build_State a b c d e f g h i j k l v n).
Definition setMapReady (v : bool) : Handler unit :=
  modify (fun '(Build_State a b c d e f g h i j k l m _) => Build_State a b c d e f g h i j k l m v).

(** ** Coordinates *)

(** Truthiness of a number: every number but 0, -0 and NaN. *)
Definition number_truthy (x : number) : bool :=
  match x with
  | S754_zero _ | S754_nan => false
  | _ => true
  end.

(** [(lat && !isNaN(lat))] on a possibly undefined number. *)
Definition usable_coordinate (c : option number) : option number :=
  match c with
  | Some x => if number_truthy x && negb (isNaN x) then Some x else None
  | None => None
  end.

Definition validateCoordinates (lat lng : number) : bool :=
  negb (isNaN lat) &&
  negb (isNaN lng) &&
  js_ge lat (js_neg (literal 90 0)) &&
  js_le lat (literal 90 0) &&
  js_ge lng (js_neg (literal 180 0)) &&
  js_le lng (literal 180 0).

(** The Kampala fallback and the fixed zoom spans. *)
Definition kampala_latitude : number := literal 3476 4.
Definition kampala_longitude : number := literal 325825 4.
Definition default_latitudeDelta : number := literal 922 4.
Definition default_longitudeDelta : number := literal 421 4.

Definition kampala : LatLng :=
  {| latitude := kampala_latitude; longitude := kampala_longitude |}.

Definition kampala_region : MapRegion :=
  {| region_latitude := kampala_latitude;
     region_longitude := kampala_longitude;
     latitudeDelta := default_latitudeDelta;
     longitudeDelta := default_longitudeDelta |}.

(** The state of the first render. *)
Definition initialState (user : option User) : State :=
  let lat := usable_coordinate (match user with Some u => user_latitude u | None => None end) in
  let lng := usable_coordinate (match user with Some u => user_longitude u | None => None end) in
  {| cylinders := [];
     cart := [];
     deliveryAddress :=
       match user with
       | Some u => match user_address u with Some a => a | None => "" end
       | None => ""
       end;
     deliveryLat := match lat with Some x => toString x | None => "" end;
     deliveryLng := match lng with Some x => toString x | None => "" end;
     instructions := "";
     loading := false;
     error := "";
     showMap := false;
     mapRegion :=
       {| region_latitude := match lat with Some x => x | None => kampala_latitude end;
          region_longitude := match lng with Some x => x | None => kampala_longitude end;
          latitudeDelta := default_latitudeDelta;
          longitudeDelta := default_longitudeDelta |};
     selectedLocation :=
       {| latitude := match lat with Some x => x | None => kampala_latitude end;
          longitude := match lng with Some x => x | None => kampala_longitude end |};
     locationPermission := false;
     mapError := false;
     mapReady := false |}.

Definition updateMapRegion (latitude longitude : number) : Handler unit :=
  if validateCoordinates latitude longitude then
    setMapRegion {| region_latitude := latitude;
                    region_longitude := longitude;
                    latitudeDelta := default_latitudeDelta;
                    longitudeDelta := default_longitudeDelta |} ;;
    setSelectedLocation {| latitude := latitude; longitude := longitude |}
  else
    emit (ConsoleWarn "Invalid coordinates provided to updateMapRegion:") ;;
    setMapRegion kampala_region ;;
    setSelectedLocation kampala.

(** ** Location permission and the GPS fix at mount *)

(** [requestLocationPermission] up to its first [await]. *)
Definition requestLocationPermission : Handler unit :=
  emit RequestForegroundPermissions.

(** ... resumed with the answer to the permission request. *)
Definition requestLocationPermission_permission (o : PermissionOutcome) : Handler unit :=
  match o with
  | PermissionStatus status =>
      setLocationPermission (String.eqb status "granted") ;;
      if String.eqb status "granted" then emit GetCurrentPosition else ret tt
  | PermissionThrows =>
      emit (ConsoleLog "Location permission error:") ;;
      setLocationPermission false
  end.

(** ... resumed with the position.  [snapshot] is the state of the render
    whose closure is running: [deliveryLat] and [deliveryLng] are read from
    it, the setters write to the live store. *)
Definition requestLocationPermission_position (snapshot : State) (o : PositionOutcome)
  : Handler unit :=
  match o with
  | PositionFix latitude longitude =>
      if validateCoordinates latitude longitude then
        updateMapRegion latitude longitude ;;
        if negb (truthy (deliveryLat snapshot)) || negb (truthy (deliveryLng snapshot)) then
          setDeliveryLat (toString latitude) ;;
          setDeliveryLng (toString longitude)
        else ret tt
      else
        emit (ConsoleWarn "Invalid coordinates from getCurrentPositionAsync:")
  | PositionThrows =>
      emit (ConsoleLog "Failed to get current location:")
  end.

(** Typing into the latitude and longitude fields ([onChangeText]). *)
Definition typeDeliveryLat (input : string) : Handler unit := setDeliveryLat input.
Definition typeDeliveryLng (input : string) : Handler unit := setDeliveryLng input.

(** ** Reverse geocoding *)

Definition coordinate_label (latitude longitude : number) : string :=
  "Lat: " ++ toFixed latitude 4 ++ ", Lng: " ++ toFixed longitude 4.

(** [.filter(Boolean)] on the parts of an address: null and empty parts go. *)
Fixpoint filter_Boolean (parts : list (option string)) : list string :=
  match parts with
  | [] => []
  | Some p :: rest => if truthy p then p :: filter_Boolean rest else filter_Boolean rest
  | None :: rest => filter_Boolean rest
  end.

Definition address_parts (result : GeocodedAddress) : list (option string) :=
  [geo_name result; geo_street result; geo_city result;
   geo_region result; geo_postalCode result; geo_country result].

(** [handleReverseGeocode] up to its [await]. *)
Definition handleReverseGeocode (latitude longitude : number) : Handler unit :=
  emit (ReverseGeocode latitude longitude).

(** ... resumed with the geocoder's answer. *)
Definition handleReverseGeocode_resolved (latitude longitude : number) (o : GeocodeOutcome)
  : Handler unit :=
  match o with
  | GeocodeResults (Some (result :: _)) =>
      let addressParts := filter_Boolean (address_parts result) in
      let address := trim (join ", " addressParts) in
      if truthy address && (0 <? length address)%nat then
        setDeliveryAddress address
      else
        setDeliveryAddress (coordinate_label latitude longitude)
  | GeocodeResults _ =>
      setDeliveryAddress (coordinate_label latitude longitude)
  | GeocodeThrows =>
      emit (ConsoleLog "Reverse geocoding failed:") ;;
      setDeliveryAddress (coordinate_label latitude longitude)
  end.

(** ** The map picker *)

(** [getCurrentLocation] up to its first [await]. *)
Definition getCurrentLocation (snapshot : State) : Handler unit :=
  if negb (locationPermission snapshot) then
    emit (Alert "Permission Required"
            "Location permission is required to get your current location" [])
  else emit GetCurrentPosition.

(** ... resumed with the position. *)
Definition getCurrentLocation_position (o : PositionOutcome) : Handler unit :=
  match o with
  | PositionFix latitude longitude =>
      if validateCoordinates latitude longitude then
        updateMapRegion latitude longitude ;;
        setDeliveryLat (toString latitude) ;;
        setDeliveryLng (toString longitude) ;;
        handleReverseGeocode latitude longitude
      else
        emit (Alert "Error"
                "Invalid coordinates obtained from current location. Please try again." [])
  | PositionThrows =>
      emit (Alert "Error" "Failed to get current location. Please ensure GPS is enabled." []) ;;
      emit (ConsoleError "getCurrentLocation error:")
  end.

(** [onMapPress] up to its [await]; [coordinate] is
    [event.nativeEvent.coordinate], which may be missing. *)
Definition onMapPress (coordinate : option LatLng) : Handler unit :=
  match coordinate with
  | Some c =>
      if validateCoordinates (latitude c) (longitude c) then
        setSelectedLocation c ;;
        setDeliveryLat (toString (latitude c)) ;;
        setDeliveryLng (toString (longitude c)) ;;
        handleReverseGeocode (latitude c) (longitude c)
      else
        emit (ConsoleWarn "Invalid map press coordinates") ;;
        emit (Alert "Invalid Selection" "Please tap on a valid location on the map." [])
  | None =>
      emit (ConsoleWarn "Invalid map press coordinates") ;;
      emit (Alert "Invalid Selection" "Please tap on a valid location on the map." [])
  end.

Definition confirmLocation (snapshot : State) : Handler unit :=
  setShowMap false ;;
  emit (Alert "Location Selected"
          ("Coordinates: " ++ toFixed (latitude (selectedLocation snapshot)) 6
           ++ ", " ++ toFixed (longitude (selectedLocation snapshot)) 6)
          [{| text := "OK"; onPress := Dismiss |}]).

(** Opening the picker, the map's ready callback and the 30 s timeout. *)
Definition openMapPicker : Handler unit :=
  setShowMap true ;; setMapReady false ;; setMapError false.

Definition onMapReady : Handler unit :=
  emit (ConsoleLog "Map ready") ;; setMapReady true ;; setMapError false.

Definition mapLoadingTimeout : Handler unit :=
  emit (ConsoleLog "Map loading timeout") ;; setMapError true.

(** ** Inventory *)

(** [!token]: a missing or empty token. *)
Definition usable_token (token : option string) : option string :=
  match token with
  | Some t => if truthy t then Some t else None
  | None => None
  end.

(** [loadCylinders] up to its [await]. *)
Definition loadCylinders (token : option string) : Handler unit :=
  match usable_token token with
  | None => ret tt
  | Some t => setLoading true ;; emit (GetAllGasCylinders t)
  end.

(** ... resumed with the inventory. *)
Definition loadCylinders_resolved (o : CylindersOutcome) : Handler unit :=
  match o with
  | CylindersLoaded data =>
      setCylinders (filter (fun c => isAvailable c && (stockQuantity c >? 0)%Z) data) ;;
      setError "" ;;
      setLoading false
  | CylindersThrows message =>
      setError (match message with
                | Some m => if truthy m then m else "Failed to load gas cylinders"
                | None => "Failed to load gas cylinders"
                end) ;;
      setLoading false
  end.

(** ** Cart *)

Definition with_quantity (item : CartItem) (q : Z) : CartItem :=
  {| cylinder := cylinder item; quantity := q |}.

Definition same_id (i : string) (item : CartItem) : bool :=
  String.eqb (id (cylinder item)) i.

Definition stock_limit_alert (stock : Z) : effect :=
  Alert "Stock Limit" ("Only " ++ string_of_Z stock ++ " available") [].

(** The updater passed to [setCart] by [addToCart]: the next cart and the
    alerts raised on the way. *)
Definition addToCart_update (c : GasCylinder) (prev : list CartItem)
  : list CartItem * list effect :=
  match find (same_id (id c)) prev with
  | Some existing =>
      if (quantity existing >=? stockQuantity c)%Z then
        (prev, [stock_limit_alert (stockQuantity c)])
      else
        (map (fun item =>
                if same_id (id c) item
                then with_quantity item (quantity item + 1)
                else item) prev,
         [])
  | None => ((prev ++ [{| cylinder := c; quantity := 1 |}])%list, [])
  end.

Definition addToCart (c : GasCylinder) : Handler unit :=
  fun s =>
    let '(next, alerts) := addToCart_update c (cart s) in
    (tt, state_after (setCart next) s, alerts).

(** What the [map] callback of [updateQuantity] returns for one line:
    [None] is the [null] that the following [filter(Boolean)] drops. *)
Definition updateQuantity_line (i : string) (change : Z) (item : CartItem)
  : option CartItem * list effect :=
  if same_id i item then
    let newQuantity := (quantity item + change)%Z in
    if (newQuantity <=? 0)%Z then (None, [])
    else if (newQuantity >? stockQuantity (cylinder item))%Z then
      (Some item, [stock_limit_alert (stockQuantity (cylinder item))])
    else (Some (with_quantity item newQuantity), [])
  else (Some item, []).

Fixpoint updateQuantity_update (i : string) (change : Z) (prev : list CartItem)
  : list CartItem * list effect :=
  match prev with
  | [] => ([], [])
  | item :: rest =>
      let '(line, alerts) := updateQuantity_line i change item in
      let '(rest', alerts') := updateQuantity_update i change rest in
      (match line with Some l => l :: rest' | None => rest' end,
       (alerts ++ alerts')%list)
  end.

Definition updateQuantity (i : string) (change : Z) : Handler unit :=
  fun s =>
    let '(next, alerts) := updateQuantity_update i change (cart s) in
    (tt, state_after (setCart next) s, alerts).

(** ** Totals *)

(** [cart.reduce((sum, item) => sum + (item.price * item.quantity), 0)]. *)
Definition subtotal (c : list CartItem) : number :=
  fold_left
    (fun sum item =>
       js_add sum (js_mul (price (cylinder item)) (number_of_Z (quantity item))))
    c (S754_zero false).

Definition total (c : list CartItem) : number := subtotal c.

(** ** The submission gate *)

(** The values the [&&] chain of [canPlaceOrder] can produce. *)
Inductive jsval :=
| JSBool (b : bool)
| JSString (s : string).

Definition ToBoolean (v : jsval) : bool :=
  match v with
  | JSBool b => b
  | JSString s => truthy s
  end.

(** [a && b]. *)
Definition js_and (a b : jsval) : jsval := if ToBoolean a then b else a.

Definition canPlaceOrder (snapshot : State) : jsval :=
  let lat := parseFloat (deliveryLat snapshot) in
  let lng := parseFloat (deliveryLng snapshot) in
  js_and
    (js_and
       (js_and (JSBool (0 <? List.length (cart snapshot))%nat)
               (JSString (trim (deliveryAddress snapshot))))
       (JSBool (validateCoordinates lat lng)))
    (JSBool (negb (loading snapshot))).

(** ** Placing the order *)

Definition order_payload (u : User) (snapshot : State) : CreateOrderPayload :=
  {| customerId := user_id u;
     items := map (fun item => {| cylinderId := id (cylinder item);
                                  item_quantity := quantity item |}) (cart snapshot);
     payload_deliveryAddress := trim (deliveryAddress snapshot);
     deliveryLatitude := parseFloat (deliveryLat snapshot);
     deliveryLongitude := parseFloat (deliveryLng snapshot);
     specialInstructions :=
       if truthy (trim (instructions snapshot))
       then Some (trim (instructions snapshot)) else None |}.

(** [placeOrder] up to its [await]. *)
Definition placeOrder (user : option User) (token : option string) (snapshot : State)
  : Handler unit :=
  match user, usable_token token with
  | Some u, Some t =>
      if negb (ToBoolean (canPlaceOrder snapshot)) then
        emit (Alert "Incomplete Order" "Please fill all required fields and add items" [])
      else if negb (validateCoordinates (parseFloat (deliveryLat snapshot))
                                        (parseFloat (deliveryLng snapshot))) then
        emit (Alert "Invalid Coordinates" "Please enter valid latitude and longitude" [])
      else
        setLoading true ;;
        emit (CreateOrder (order_payload u snapshot) t)
  | _, _ => emit (Alert "Error" "Please log in first" [])
  end.

Section LocaleDependent.

(** [Number.prototype.toLocaleString] depends on the host's locale. *)
Variable toLocaleString : Z -> string.

Definition newline : string := String (ascii_of_nat 10) EmptyString.

Definition order_placed_alert (response : OrderResponse) : effect :=
  Alert "Order Placed!"
    ("Order #" ++ orderNumber response ++ " placed successfully!" ++ newline
     ++ "Total: UGX " ++ toLocaleString (totalAmount response))
    [{| text := "View Orders"; onPress := ViewOrders |};
     {| text := "New Order"; onPress := NewOrder |}].

(** ... resumed with the answer of [createOrder]; [setLoading(false)] is the
    [finally] block. *)
Definition placeOrder_resolved (token : option string) (o : OrderOutcome) : Handler unit :=
  match o with
  | OrderCreated response =>
      emit (order_placed_alert response) ;;
      setLoading false
  | OrderThrows message =>
      emit (ConsoleError "Order placement error:") ;;
      emit (Alert "Order Failed"
              (match message with
               | Some m => if truthy m then m else "Please try again"
               | None => "Please try again"
               end) []) ;;
      (match message with
       | Some m => if includes m "stock" then loadCylinders token else ret tt
       | None => ret tt
       end) ;;
      setLoading false
  end.

End LocaleDependent.

(** Pressing a button of an alert runs its [onPress]. *)
Definition pressAlertButton (token : option string) (a : AlertAction) : Handler unit :=
  match a with
  | Dismiss => ret tt
  | ViewOrders => emit (RouterPush "/orders")
  | NewOrder =>
      setCart [] ;;
      setInstructions "" ;;
      loadCylinders token
  end.

(** ** The screen as a machine

    The handlers above are wired to the events of the rendered screen: the
    effect of mount, the controls with their [disabled] and [editable]
    conditions, the map callbacks, the buttons of the alerts, and the
    settling of the awaited calls.  A handler started by an event closes
    over the store as it is rendered at that moment; what it awaits is kept
    with that snapshot until the call settles.  An alert is modal: while one
    is open the controls of the screen do not respond, and the calls that
    are awaited may still settle. *)

(** An awaited call and the continuation that resumes on it. *)
Inductive awaiting :=
| PermissionRequest (snapshot : State)
| MountPositionRequest (snapshot : State)
| PickerPositionRequest
| GeocodeRequest (latitude longitude : number)
| CylindersRequest
| OrderRequest.

Inductive outcome :=
| Permission (o : PermissionOutcome)
| Position (o : PositionOutcome)
| Geocode (o : GeocodeOutcome)
| Cylinders (o : CylindersOutcome)
| Order (o : OrderOutcome).

Record Screen := {
  screen_user : option User;
  screen_token : option string;
  store : State;
  awaited : list awaiting;
  open_alerts : list (list AlertButton);
  trace : list effect
}.

Inductive event :=
| ChangeLatitude (input : string)
| ChangeLongitude (input : string)
| ChangeAddress (input : string)
| ChangeInstructions (input : string)
| PressAdd (c : GasCylinder)
| PressMinus (i : string)
| PressPlus (i : string)
| PressPlaceOrder
| PressRetry
| PressSelectOnMap
| PressCloseMap
| PressLocate
| PressMap (coordinate : option LatLng)
| PressConfirmLocation
| MapReady
| MapTimeout
| PressAlert (a : AlertAction)
| Settle (n : nat) (o : outcome).

(** The continuation a handler leaves behind for a call it makes. *)
Definition continuation (snapshot : State) (at_mount : bool) (e : effect)
  : option awaiting :=
  match e with
  | RequestForegroundPermissions => Some (PermissionRequest snapshot)
  | GetCurrentPosition =>
      Some (if at_mount then MountPositionRequest snapshot else PickerPositionRequest)
  | ReverseGeocode lat lng => Some (GeocodeRequest lat lng)
  | GetAllGasCylinders _ => Some CylindersRequest
  | CreateOrder _ _ => Some OrderRequest
  | _ => None
  end.

Fixpoint continuations (k : effect -> option awaiting) (out : list effect) : list awaiting :=
  match out with
  | [] => []
  | e :: rest =>
      match k e with
      | Some a => a :: continuations k rest
      | None => continuations k rest
      end
  end.

(** The alerts among the effects, each with its buttons; an alert without
    buttons gets the default one, which only dismisses it. *)
Fixpoint alerts_of (out : list effect) : list (list AlertButton) :=
  match out with
  | [] => []
  | Alert _ _ [] :: rest => [{| text := "OK"; onPress := Dismiss |}] :: alerts_of rest
  | Alert _ _ buttons :: rest => buttons :: alerts_of rest
  | _ :: rest => alerts_of rest
  end.

(** Run a handler on the store of the screen. *)
Definition exec (k : effect -> option awaiting) (h : Handler unit) (sc : Screen) : Screen :=
  {| screen_user := screen_user sc;
     screen_token := screen_token sc;
     store := state_after h (store sc);
     awaited := (awaited sc ++ continuations k (effects_of h (store sc)))%list;
     open_alerts := (open_alerts sc ++ alerts_of (effects_of h (store sc)))%list;
     trace := (trace sc ++ effects_of h (store sc))%list |}.

Fixpoint remove_nth {A : Type} (n : nat) (l : list A) : list A :=
  match n, l with
  | _, [] => []
  | O, _ :: rest => rest
  | S k, x :: rest => x :: remove_nth k rest
  end.

Definition settled (n : nat) (sc : Screen) : Screen :=
  {| screen_user := screen_user sc;
     screen_token := screen_token sc;
     store := store sc;
     awaited := remove_nth n (awaited sc);
     open_alerts := open_alerts sc;
     trace := trace sc |}.

Definition close_alert (sc : Screen) : Screen :=
  {| screen_user := screen_user sc;
     screen_token := screen_token sc;
     store := store sc;
     awaited := awaited sc;
     open_alerts := tl (open_alerts sc);
     trace := trace sc |}.

(** The first render and the effect of mount:
    [loadCylinders(); requestLocationPermission();]. *)
Definition mount (user : option User) (token : option string) : Screen :=
  exec (continuation (initialState user) true)
       (loadCylinders token ;; requestLocationPermission)
       {| screen_user := user; screen_token := token;
          store := initialState user;
          awaited := []; open_alerts := []; trace := [] |}.

(** The form is rendered for a signed-in user, outside the map picker, and
    no alert covers it. *)
Definition form_visible (sc : Screen) : bool :=
  match screen_user sc, open_alerts sc with
  | Some _, [] => negb (showMap (store sc))
  | _, _ => false
  end.

Definition picker_visible (sc : Screen) : bool :=
  match screen_user sc, open_alerts sc with
  | Some _, [] => showMap (store sc)
  | _, _ => false
  end.

Definition action_eqb (a b : AlertAction) : bool :=
  match a, b with
  | Dismiss, Dismiss | ViewOrders, ViewOrders | NewOrder, NewOrder => true
  | _, _ => false
  end.

Definition gas_cylinder_eqb (a b : GasCylinder) : bool :=
  String.eqb (id a) (id b) && String.eqb (name a) (name b) &&
  number_eqb (price a) (price b) && (stockQuantity a =? stockQuantity b)%Z &&
  Bool.eqb (isAvailable a) (isAvailable b).

Section Machine.

Variable toLocaleString : Z -> string.

(** The continuation that resumes when the awaited call [a] settles with
    [o], and the snapshot it keeps for the calls it makes in turn. *)
Definition resume (sc : Screen) (a : awaiting) (o : outcome)
  : option ((effect -> option awaiting) * Handler unit) :=
  match a, o with
  | PermissionRequest snapshot, Permission po =>
      Some (continuation snapshot true, requestLocationPermission_permission po)
  | MountPositionRequest snapshot, Position po =>
      Some (continuation snapshot true, requestLocationPermission_position snapshot po)
  | PickerPositionRequest, Position po =>
      Some (continuation (store sc) false, getCurrentLocation_position po)
  | GeocodeRequest lat lng, Geocode go =>
      Some (continuation (store sc) false, handleReverseGeocode_resolved lat lng go)
  | CylindersRequest, Cylinders co =>
      Some (continuation (store sc) false, loadCylinders_resolved co)
  | OrderRequest, Order oo =>
      Some (continuation (store sc) false,
            placeOrder_resolved toLocaleString (screen_token sc) oo)
  | _, _ => None
  end.

(** The handler an event runs, when its control is rendered and enabled;
    a handler started by the user closes over the store as rendered. *)
Definition dispatch (sc : Screen) (ev : event)
  : option ((effect -> option awaiting) * Handler unit) :=
  let s := store sc in
  let when (enabled : bool) (h : Handler unit) :=
    if enabled then Some (continuation s false, h) else None in
  match ev with
  | ChangeLatitude input =>
      when (form_visible sc && negb (loading s)) (typeDeliveryLat input)
  | ChangeLongitude input =>
      when (form_visible sc && negb (loading s)) (typeDeliveryLng input)
  | ChangeAddress input =>
      when (form_visible sc && negb (loading s)) (setDeliveryAddress input)
  | ChangeInstructions input =>
      when (form_visible sc && negb (loading s)) (setInstructions input)
  | PressAdd c =>
      when (form_visible sc && negb (loading s) &&
            existsb (gas_cylinder_eqb c) (cylinders s))
           (addToCart c)
  | PressMinus i =>
      when (form_visible sc && negb (loading s) && existsb (same_id i) (cart s))
           (updateQuantity i (-1))
  | PressPlus i =>
      when (form_visible sc && negb (loading s) &&
            existsb (fun item => same_id i item &&
                                 negb (quantity item >=? stockQuantity (cylinder item))%Z)
                    (cart s))
           (updateQuantity i 1)
  | PressPlaceOrder =>
      when (form_visible sc && ToBoolean (canPlaceOrder s))
           (placeOrder (screen_user sc) (screen_token sc) s)
  | PressRetry =>
      when (form_visible sc && truthy (error s)) (loadCylinders (screen_token sc))
  | PressSelectOnMap => when (form_visible sc) openMapPicker
  | PressCloseMap => when (picker_visible sc) (setShowMap false)
  | PressLocate => when (picker_visible sc) (getCurrentLocation s)
  | PressMap coordinate =>
      when (picker_visible sc && negb (mapError s)) (onMapPress coordinate)
  | PressConfirmLocation => when (picker_visible sc) (confirmLocation s)
  | MapReady => when (showMap s && negb (mapError s)) onMapReady
  | MapTimeout =>
      when (showMap s && negb (mapError s) && negb (mapReady s)) mapLoadingTimeout
  | PressAlert a =>
      match open_alerts sc with
      | buttons :: _ =>
          when (existsb (fun b => action_eqb (onPress b) a) buttons)
               (pressAlertButton (screen_token sc) a)
      | [] => None
      end
  | Settle n o =>
      match nth_error (awaited sc) n with
      | Some a => resume sc a o
      | None => None
      end
  end.

(** What an event uses up: the alert it answers, the call it settles. *)
Definition consume (sc : Screen) (ev : event) : Screen :=
  match ev with
  | PressAlert _ => close_alert sc
  | Settle n _ => settled n sc
  | _ => sc
  end.

(** One event; an event whose control is absent or disabled changes
    nothing. *)
Definition step (sc : Screen) (ev : event) : Screen :=
  match dispatch sc ev with
  | Some (k, h) => exec k h (consume sc ev)
  | None => sc
  end.

Definition run (sc : Screen) (events : list event) : Screen :=
  fold_left step events sc.

End Machine.

(** A submission is in flight while a [createOrder] call is awaited; an
    inventory load while a [getAllGasCylinders] call is. *)
Definition submission_in_flight (sc : Screen) : bool :=
  existsb (fun a => match a with OrderRequest => true | _ => false end) (awaited sc).

Definition inventory_load_in_flight (sc : Screen) : bool :=
  existsb (fun a => match a with CylindersRequest => true | _ => false end) (awaited sc).

(** A signed-in customer without stored address or coordinates. *)
Definition customer : User :=
  {| user_id := "42"; user_address := None;
     user_latitude := None; user_longitude := None |}.

(** ** Vocabulary of the properties *)

(** A cart line within its stock. *)
Definition line_ok (item : CartItem) : Prop :=
  (1 <= quantity item <= stockQuantity (cylinder item))%Z.

Definition cart_ids (c : list CartItem) : list string :=
  map (fun item => id (cylinder item)) c.

(** Every line within its stock, and one line per product. *)
Definition cart_wf (c : list CartItem) : Prop :=
  NoDup (cart_ids c) /\ Forall line_ok c.

(** The whole number a binary64 holds, when it holds one that is not
    negative: the integer part of its value, provided the number is the
    binary64 of that integer. *)
Definition whole (x : number) : option Z :=
  let n := match x with
           | S754_zero _ => 0%Z
           | S754_finite false m e => Z.shiftl (Zpos m) e
           | _ => (-1)%Z
           end in
  if (0 <=? n)%Z && number_eqb (number_of_Z n) x then Some n else None.

(** The exact sum over the lines of price times quantity, for a cart whose
    prices are whole numbers and whose quantities are counts below
    [2 ^ 53]. *)
Fixpoint sum_of_line_amounts (c : list CartItem) : option Z :=
  match c with
  | [] => Some 0%Z
  | item :: rest =>
      match whole (price (cylinder item)), sum_of_line_amounts rest with
      | Some p, Some t =>
          if (0 <=? quantity item)%Z && (quantity item <? 2 ^ 53)%Z
          then Some (p * quantity item + t)%Z else None
      | _, _ => None
      end
  end.

(** The address as the parts joined, before any trimming. *)
Definition joined_parts (result : GeocodedAddress) : string :=
  join ", " (filter_Boolean (address_parts result)).

(** A handler keeps a state cell when running it never changes the cell. *)
Definition keeps {A B : Type} (get : State -> A) (h : Handler B) : Prop :=
  forall s, get (state_after h s) = get s.

(** One line per product. *)
Definition cart_unique (s : State) : Prop := NoDup (cart_ids (cart s)).

(** The marker and the region hold coordinates that pass the validator. *)
Definition location_valid (s : State) : Prop :=
  validateCoordinates (latitude (selectedLocation s)) (longitude (selectedLocation s)) = true /\
  validateCoordinates (region_latitude (mapRegion s)) (region_longitude (mapRegion s)) = true.

(** Strings that are not empty and neither start nor end with whitespace. *)
Fixpoint last_char (s : string) : option ascii :=
  match s with
  | EmptyString => None
  | String c EmptyString => Some c
  | String _ rest => last_char rest
  end.

Definition first_char (s : string) : option ascii :=
  match s with
  | EmptyString => None
  | String c _ => Some c
  end.

Definition no_outer_whitespace (s : string) : bool :=
  match first_char s, last_char s with
  | Some a, Some b => negb (is_whitespace a) && negb (is_whitespace b)
  | _, _ => false
  end.

(** Answers of the geocoder: a full address, one with missing and empty
    parts, and one whose only part starts with a space. *)
Definition address_full : GeocodedAddress :=
  {| geo_name := Some "Plot 5"; geo_street := Some "Kampala Road";
     geo_city := Some "Kampala"; geo_region := Some "Central Region";
     geo_postalCode := Some "256"; geo_country := Some "Uganda" |}.

Definition address_sparse : GeocodedAddress :=
  {| geo_name := None; geo_street := Some "Kampala Road";
     geo_city := Some ""; geo_region := None;
     geo_postalCode := None; geo_country := Some "Uganda" |}.

Definition address_leading_space : GeocodedAddress :=
  {| geo_name := Some " Plot 5"; geo_street := None;
     geo_city := None; geo_region := None;
     geo_postalCode := None; geo_country := None |}.

(** A product with three units in stock, and the same product after the
    inventory was reloaded with five. *)
Definition cylinder_6kg : GasCylinder :=
  {| id := "c1"; name := "6kg"; price := literal 85000 0; stockQuantity := 3;
     isAvailable := true |}.

Definition cylinder_6kg_restocked : GasCylinder :=
  {| id := "c1"; name := "6kg"; price := literal 85000 0; stockQuantity := 5;
     isAvailable := true |}.

(** A product that is out of stock. *)
Definition cylinder_sold_out : GasCylinder :=
  {| id := "c9"; name := "13kg"; price := literal 150000 0; stockQuantity := 0;
     isAvailable := true |}.

(** Scenarios, on a host whose [toLocaleString] prints plain digits. *)
Definition session_token : option string := Some "token".

Definition just_mounted : Screen := mount (Some customer) session_token.

(** The store after the customer opened the picker and tapped the map at
    (1, 2): the last accepted location. *)
Definition after_tap_at_1_2 : State :=
  store (run string_of_Z just_mounted
           [Settle 0 (Cylinders (CylindersLoaded [cylinder_6kg]));
            Settle 0 (Permission (PermissionStatus "denied"));
            PressSelectOnMap;
            MapReady;
            PressMap (Some {| latitude := literal 1 0; longitude := literal 2 0 |})]).

(** The inventory arrives, the permission is granted, and the user types
    both coordinates while the position is still awaited ... *)
Definition typing_before_fix : list event :=
  [Settle 0 (Cylinders (CylindersLoaded [cylinder_6kg]));
   Settle 0 (Permission (PermissionStatus "granted"));
   ChangeLatitude "1.0";
   ChangeLongitude "2.0"].

(** ... and then the fix (0.3, 32.6) arrives. *)
Definition fix_arrives : event :=
  Settle 0 (Position (PositionFix (literal 3 1) (literal 326 1))).

(** The inventory arrives, the permission is refused, the user adds a
    cylinder and fills the form. *)
Definition filling_the_form : list event :=
  [Settle 0 (Cylinders (CylindersLoaded [cylinder_6kg]));
   Settle 0 (Permission (PermissionStatus "denied"));
   PressAdd cylinder_6kg;
   ChangeAddress "Plot 5, Kampala Road";
   ChangeLatitude "0.3476";
   ChangeLongitude "32.5825"].

Definition form_filled : Screen := run string_of_Z just_mounted filling_the_form.

(** The order is refused for lack of stock, which starts a reload of the
    inventory; the user dismisses the notice. *)
Definition order_refused : list event :=
  [PressPlaceOrder;
   Settle 0 (Order (OrderThrows (Some "Insufficient stock")));
   PressAlert Dismiss].

(** The reload fails and the user presses Retry: an inventory load is
    awaited and no submission is. *)
Definition retrying_inventory : Screen :=
  run string_of_Z form_filled
    (order_refused ++
     [Settle 0 (Cylinders (CylindersThrows (Some "Network request failed")));
      PressRetry])%list.

(** The user submits again while the reload is awaited, and the reload
    arrives while that submission is awaited. *)
Definition reload_settles_during_submission : Screen :=
  run string_of_Z form_filled
    (order_refused ++
     [PressPlaceOrder;
      Settle 0 (Cylinders (CylindersLoaded [cylinder_6kg]))])%list.

Definition order_response : OrderResponse :=
  {| orderNumber := "A-1001"; totalAmount := 85000 |}.

(** The order is accepted ... *)
Definition order_accepted : Screen :=
  run string_of_Z form_filled
    [PressPlaceOrder; Settle 0 (Order (OrderCreated order_response))].

(** ... and the user chooses "View Orders". *)
Definition viewing_orders : Screen :=
  step string_of_Z order_accepted (PressAlert ViewOrders).

(** Three units in the cart, the order refused for lack of stock, and the
    reloaded inventory lists five units. *)
Definition restocked_after_refusal : Screen :=
  run string_of_Z just_mounted
    ([Settle 0 (Cylinders (CylindersLoaded [cylinder_6kg]));
      Settle 0 (Permission (PermissionStatus "denied"));
      PressAdd cylinder_6kg; PressAdd cylinder_6kg; PressAdd cylinder_6kg;
      ChangeAddress "Plot 5, Kampala Road";
      ChangeLatitude "0.3476";
      ChangeLongitude "32.5825"] ++
     order_refused ++
     [Settle 0 (Cylinders (CylindersLoaded [cylinder_6kg_restocked]))])%list.

(** ** Further vocabulary: orders, inventory and the map *)

(** An order as the backend expects it: validated coordinates, an address
    that is neither blank nor padded, and at least one item. *)
Definition order_complete (payload : CreateOrderPayload) : Prop :=
  validateCoordinates (deliveryLatitude payload) (deliveryLongitude payload) = true /\
  no_outer_whitespace (payload_deliveryAddress payload) = true /\
  items payload <> [] /\
  match specialInstructions payload with
  | Some text => no_outer_whitespace text = true
  | None => True
  end.

(** Every effect a handler can produce satisfies [P]. *)
Definition emits {B : Type} (P : effect -> Prop) (h : Handler B) : Prop :=
  forall s, Forall P (effects_of h s).

(** A call to the backend that the session allows: it carries the token of
    the session, and an order is complete and placed for the signed-in
    user. *)
Definition call_authorised (user : option User) (token : option string) (e : effect)
  : Prop :=
  match e with
  | GetAllGasCylinders t => usable_token token = Some t
  | CreateOrder payload t =>
      usable_token token = Some t /\
      order_complete payload /\
      exists u, user = Some u /\ customerId payload = user_id u
  | _ => True
  end.

Definition is_order (e : effect) : bool :=
  match e with
  | CreateOrder _ _ => true
  | _ => false
  end.

(** The orders among the effects, and the presses of "Place Order" among
    the events. *)
Definition orders_sent (out : list effect) : nat := List.length (filter is_order out).

Definition is_place_order_press (ev : event) : bool :=
  match ev with
  | PressPlaceOrder => true
  | _ => false
  end.

Definition place_order_presses (events : list event) : nat :=
  List.length (filter is_place_order_press events).

Definition orders_in_flight (sc : Screen) : nat :=
  List.length (filter (fun a => match a with OrderRequest => true | _ => false end)
                      (awaited sc)).

(** A product that can be sold. *)
Definition in_stock (c : GasCylinder) : Prop :=
  isAvailable c = true /\ (1 <= stockQuantity c)%Z.

(** The list shown and the lines of the cart hold only products that could
    be sold when they were loaded. *)
Definition inventory_ok (s : State) : Prop :=
  Forall in_stock (cylinders s) /\
  Forall (fun item => in_stock (cylinder item)) (cart s).

(** A map that reported ready has no error pending. *)
Definition map_consistent (s : State) : Prop :=
  mapReady s = true -> mapError s = false.

(** ** Regular expressions of the account screens

    The patterns of [forgot-password.tsx] and [email-verification.tsx] are
    anchored at both ends and built from character classes, sequence and
    repetition only; they have no captures, so [RegExp.prototype.test]
    answers whether the whole string belongs to the pattern's language.  The
    test is computed with derivatives. *)

Module JSRegExp.

Inductive regex :=
| Never
| Empty
| Class (p : ascii -> bool)
| Seq (r1 r2 : regex)
| Alt (r1 r2 : regex)
| Star (r : regex).

(** [r+] and [r{n}]. *)
Definition Plus (r : regex) : regex := Seq r (Star r).

Fixpoint Times (n : nat) (r : regex) : regex :=
  match n with
  | O => Empty
  | S k => Seq r (Times k r)
  end.

Fixpoint nullable (r : regex) : bool :=
  match r with
  | Never => false
  | Empty => true
  | Class _ => false
  | Seq r1 r2 => nullable r1 && nullable r2
  | Alt r1 r2 => nullable r1 || nullable r2
  | Star _ => true
  end.

Fixpoint derive (c : ascii) (r : regex) : regex :=
  match r with
  | Never => Never
  | Empty => Never
  | Class p => if p c then Empty else Never
  | Seq r1 r2 =>
      if nullable r1 then Alt (Seq (derive c r1) r2) (derive c r2)
      else Seq (derive c r1) r2
  | Alt r1 r2 => Alt (derive c r1) (derive c r2)
  | Star r1 => Seq (derive c r1) (Star r1)
  end.

(** [/^r$/.test(s)]. *)
Fixpoint test (r : regex) (s : string) : bool :=
  match s with
  | EmptyString => nullable r
  | String c rest => test (derive c r) rest
  end.

(** The language of a pattern. *)
Inductive Matches : regex -> string -> Prop :=
| MEmpty : Matches Empty ""
| MClass (p : ascii -> bool) (c : ascii) :
    p c = true -> Matches (Class p) (String c "")
| MSeq (r1 r2 : regex) (s1 s2 : string) :
    Matches r1 s1 -> Matches r2 s2 -> Matches (Seq r1 r2) (s1 ++ s2)
| MAltL (r1 r2 : regex) (s : string) : Matches r1 s -> Matches (Alt r1 r2) s
| MAltR (r1 r2 : regex) (s : string) : Matches r2 s -> Matches (Alt r1 r2) s
| MStarEmpty (r : regex) : Matches (Star r) ""
| MStarMore (r : regex) (s1 s2 : string) :
    Matches r s1 -> Matches (Star r) s2 -> Matches (Star r) (s1 ++ s2).

(** [\d], [[^\s@]] and a literal character. *)
Definition digit : regex := Class is_digit.

Definition not_space_or_at (c : ascii) : bool :=
  negb (is_whitespace c) && negb (Ascii.eqb c "@").

Definition literally (ch : ascii) : regex := Class (Ascii.eqb ch).

End JSRegExp.

(** Every character of a string satisfies [p]. *)
Fixpoint all_chars (p : ascii -> bool) (s : string) : bool :=
  match s with
  | EmptyString => true
  | String c rest => p c && all_chars p rest
  end.

(** [String.prototype.toLowerCase] on code units below 256: the letters A-Z
    and the Latin-1 capitals (U+00C0 to U+00DE without the multiplication
    sign) move up by 32. *)
Definition lower_char (c : ascii) : ascii :=
  let n := nat_of_ascii c in
  if ((65 <=? n)%nat && (n <=? 90)%nat) ||
     ((192 <=? n)%nat && (n <=? 222)%nat && negb (n =? 215)%nat)
  then ascii_of_nat (n + 32) else c.

Fixpoint toLowerCase (s : string) : string :=
  match s with
  | EmptyString => EmptyString
  | String c rest => String (lower_char c) (toLowerCase rest)
  end.

Definition is_upper (c : ascii) : bool :=
  let n := nat_of_ascii c in (65 <=? n)%nat && (n <=? 90)%nat.

(** ** Password reset screen (app/forgot-password.tsx) *)

Module ForgotPassword.

Import JSRegExp.

(** The [useState] cells of [ForgotPasswordScreen]. *)
Record State := {
  email : string;
  resetCode : string;
  newPassword : string;
  confirmPassword : string;
  isLoading : bool;
  showNewPassword : bool;
  showConfirmPassword : bool;
  step : Z
}.

Inductive AlertAction :=
| Dismiss
| ToStep2
| ReplaceWithLogin.

Record AlertButton := {
  text : string;
  onPress : AlertAction
}.

Inductive effect :=
| Alert (title message : string) (buttons : list AlertButton)
| ConsoleError (message : string)
| ForgotPasswordCall (address : string)
| ResetPasswordCall (token password : string)
| RouterReplace (path : string)
| RouterBack.

(** How an awaited call of the API service settles; a rejection carries
    [error.message], which may be missing. *)
Inductive ApiOutcome :=
| Resolved
| Rejected (message : option string).

Definition setEmail (v : string) (s : State) : State :=
  {| email := v; resetCode := resetCode s; newPassword := newPassword s;
     confirmPassword := confirmPassword s; isLoading := isLoading s;
     showNewPassword := showNewPassword s; showConfirmPassword := showConfirmPassword s;
     step := step s |}.
Definition setResetCode (v : string) (s : State) : State :=
  {| email := email s; resetCode := v; newPassword := newPassword s;
     confirmPassword := confirmPassword s; isLoading := isLoading s;
     showNewPassword := showNewPassword s; showConfirmPassword := showConfirmPassword s;
     step := step s |}.
Definition setNewPassword (v : string) (s : State) : State :=
  {| email := email s; resetCode := resetCode s; newPassword := v;
     confirmPassword := confirmPassword s; isLoading := isLoading s;
     showNewPassword := showNewPassword s; showConfirmPassword := showConfirmPassword s;
     step := step s |}.
Definition setConfirmPassword (v : string) (s : State) : State :=
  {| email := email s; resetCode := resetCode s; newPassword := newPassword s;
     confirmPassword := v; isLoading := isLoading s;
     showNewPassword := showNewPassword s; showConfirmPassword := showConfirmPassword s;
     step := step s |}.
Definition setIsLoading (v : bool) (s : State) : State :=
  {| email := email s; resetCode := resetCode s; newPassword := newPassword s;
     confirmPassword := confirmPassword s; isLoading := v;
     showNewPassword := showNewPassword s; showConfirmPassword := showConfirmPassword s;
     step := step s |}.
Definition setShowNewPassword (v : bool) (s : State) : State :=
  {| email := email s; resetCode := resetCode s; newPassword := newPassword s;
     confirmPassword := confirmPassword s; isLoading := isLoading s;
     showNewPassword := v; showConfirmPassword := showConfirmPassword s;
     step := step s |}.
Definition setShowConfirmPassword (v : bool) (s : State) : State :=
  {| email := email s; resetCode := resetCode s; newPassword := newPassword s;
     confirmPassword := confirmPassword s; isLoading := isLoading s;
     showNewPassword := showNewPassword s; showConfirmPassword := v;
     step := step s |}.
Definition setStep (v : Z) (s : State) : State :=
  {| email := email s; resetCode := resetCode s; newPassword := newPassword s;
     confirmPassword := confirmPassword s; isLoading := isLoading s;
     showNewPassword := showNewPassword s; showConfirmPassword := showConfirmPassword s;
     step := v |}.

Definition initialState : State :=
  {| email := ""; resetCode := ""; newPassword := ""; confirmPassword := "";
     isLoading := false; showNewPassword := false; showConfirmPassword := false;
     step := 1 |}.

(** [/^[^\s@]+@[^\s@]+\.[^\s@]+$/]. *)
Definition emailRegex : regex :=
  Seq (Plus (Class not_space_or_at))
      (Seq (literally "@")
           (Seq (Plus (Class not_space_or_at))
                (Seq (literally ".") (Plus (Class not_space_or_at))))).

Definition isValidEmail (address : string) : bool := test emailRegex address.

(** [/^\d{4}$/]. *)
Definition fourDigits : regex := Times 4 digit.

(** A handler reads the cells of the render it was created in ([snapshot])
    and writes to the live store; it returns the store and what it did
    besides. *)
Definition handleSendResetCode (snapshot s : State) : State * list effect :=
  if negb (truthy (trim (email snapshot))) then
    (s, [Alert "Error" "Please enter your email address" []])
  else if negb (isValidEmail (trim (email snapshot))) then
    (s, [Alert "Error" "Please enter a valid email address" []])
  else
    (setIsLoading true s, [ForgotPasswordCall (trim (toLowerCase (email snapshot)))]).

(** ... resumed when [forgotPassword] settles; [setIsLoading(false)] is the
    [finally] block. *)
Definition handleSendResetCode_resolved (o : ApiOutcome) (s : State)
  : State * list effect :=
  match o with
  | Resolved =>
      (setIsLoading false s,
       [Alert "Reset Code Sent"
          "If an account exists with this email, you will receive a 4-digit reset code. Please check your email."
          [{| text := "OK"; onPress := ToStep2 |}]])
  | Rejected message =>
      (setIsLoading false s,
       [ConsoleError "Forgot password error:";
        Alert "Error"
          (match message with
           | Some m => if truthy m then m
                       else "An error occurred while sending the reset code"
           | None => "An error occurred while sending the reset code"
           end) []])
  end.

Definition handleResetPassword (snapshot s : State) : State * list effect :=
  let code := trim (resetCode snapshot) in
  if negb (truthy code) then
    (s, [Alert "Error" "Please enter the 4-digit reset code" []])
  else if negb (length code =? 4)%nat || negb (test fourDigits code) then
    (s, [Alert "Error" "Reset code must be exactly 4 digits" []])
  else if negb (truthy (newPassword snapshot)) then
    (s, [Alert "Error" "Please enter a new password" []])
  else if (length (newPassword snapshot) <? 6)%nat then
    (s, [Alert "Error" "Password must be at least 6 characters long" []])
  else if negb (String.eqb (newPassword snapshot) (confirmPassword snapshot)) then
    (s, [Alert "Error" "Passwords do not match" []])
  else
    (setIsLoading true s, [ResetPasswordCall code (newPassword snapshot)]).

Definition resetErrorMessage (message : option string) : string :=
  match message with
  | Some m =>
      if truthy m then
        if includes m "Invalid or expired token" then
          "Invalid or expired reset code. Please request a new one."
        else if includes m "Token and new password required" then
          "Please fill in all required fields."
        else m
      else "An error occurred while resetting your password"
  | None => "An error occurred while resetting your password"
  end.

Definition handleResetPassword_resolved (o : ApiOutcome) (s : State)
  : State * list effect :=
  match o with
  | Resolved =>
      (setIsLoading false s,
       [Alert "Success"
          "Your password has been reset successfully. You can now login with your new password."
          [{| text := "OK"; onPress := ReplaceWithLogin |}]])
  | Rejected message =>
      (setIsLoading false s,
       [ConsoleError "Reset password error:";
        Alert "Error" (resetErrorMessage message) []])
  end.

Definition handleGoBack (snapshot s : State) : State * list effect :=
  if (step snapshot =? 2)%Z then
    (setConfirmPassword "" (setNewPassword "" (setResetCode "" (setStep 1 s))), [])
  else (s, [RouterBack]).

Definition toggleNewPasswordVisibility (snapshot s : State) : State * list effect :=
  (setShowNewPassword (negb (showNewPassword snapshot)) s, []).

Definition toggleConfirmPasswordVisibility (snapshot s : State) : State * list effect :=
  (setShowConfirmPassword (negb (showConfirmPassword snapshot)) s, []).

(** The "Request New Code" button: [() => setStep(1)]. *)
Definition requestNewCode (s : State) : State * list effect := (setStep 1 s, []).

Definition pressAlertButton (a : AlertAction) (s : State) : State * list effect :=
  match a with
  | Dismiss => (s, [])
  | ToStep2 => (setStep 2 s, [])
  | ReplaceWithLogin => (s, [RouterReplace "/"])
  end.

(** *** The screen as a machine *)

Inductive awaiting :=
| ForgotPasswordRequest
| ResetPasswordRequest.

Record Screen := {
  store : State;
  awaited : list awaiting;
  open_alerts : list (list AlertButton);
  trace : list effect
}.

Inductive event :=
| ChangeEmail (input : string)
| ChangeResetCode (input : string)
| ChangeNewPassword (input : string)
| ChangeConfirmPassword (input : string)
| PressSendResetCode
| PressResetPassword
| PressRequestNewCode
| PressBack
| PressShowNewPassword
| PressShowConfirmPassword
| PressAlert (a : AlertAction)
| Settle (n : nat) (o : ApiOutcome).

Definition continuation (e : effect) : option awaiting :=
  match e with
  | ForgotPasswordCall _ => Some ForgotPasswordRequest
  | ResetPasswordCall _ _ => Some ResetPasswordRequest
  | _ => None
  end.

Fixpoint continuations (out : list effect) : list awaiting :=
  match out with
  | [] => []
  | e :: rest =>
      match continuation e with
      | Some a => a :: continuations rest
      | None => continuations rest
      end
  end.

Fixpoint alerts_of (out : list effect) : list (list AlertButton) :=
  match out with
  | [] => []
  | Alert _ _ [] :: rest => [{| text := "OK"; onPress := Dismiss |}] :: alerts_of rest
  | Alert _ _ buttons :: rest => buttons :: alerts_of rest
  | _ :: rest => alerts_of rest
  end.

Definition exec (h : State -> State * list effect) (sc : Screen) : Screen :=
  let '(s', out) := h (store sc) in
  {| store := s';
     awaited := (awaited sc ++ continuations out)%list;
     open_alerts := (open_alerts sc ++ alerts_of out)%list;
     trace := (trace sc ++ out)%list |}.

Definition mount : Screen :=
  {| store := initialState; awaited := []; open_alerts := []; trace := [] |}.

Definition action_eqb (a b : AlertAction) : bool :=
  match a, b with
  | Dismiss, Dismiss | ToStep2, ToStep2 | ReplaceWithLogin, ReplaceWithLogin => true
  | _, _ => false
  end.

(** The controls respond when no alert covers the screen and no call is
    awaited ([disabled={isLoading}], [editable={!isLoading}]); the email
    form is rendered at step 1, the reset form otherwise. *)
Definition enabled (sc : Screen) : bool :=
  match open_alerts sc with
  | [] => negb (isLoading (store sc))
  | _ :: _ => false
  end.

Definition dispatch (sc : Screen) (ev : event) : option (State -> State * list effect) :=
  let s := store sc in
  let at_step_1 := (step s =? 1)%Z in
  let when (b : bool) (h : State -> State * list effect) :=
    if b then Some h else None in
  match ev with
  | ChangeEmail input =>
      when (enabled sc && at_step_1) (fun live => (setEmail input live, []))
  | ChangeResetCode input =>
      when (enabled sc && negb at_step_1) (fun live => (setResetCode input live, []))
  | ChangeNewPassword input =>
      when (enabled sc && negb at_step_1) (fun live => (setNewPassword input live, []))
  | ChangeConfirmPassword input =>
      when (enabled sc && negb at_step_1) (fun live => (setConfirmPassword input live, []))
  | PressSendResetCode => when (enabled sc && at_step_1) (handleSendResetCode s)
  | PressResetPassword => when (enabled sc && negb at_step_1) (handleResetPassword s)
  | PressRequestNewCode => when (enabled sc && negb at_step_1) requestNewCode
  | PressBack => when (enabled sc) (handleGoBack s)
  | PressShowNewPassword =>
      when (enabled sc && negb at_step_1) (toggleNewPasswordVisibility s)
  | PressShowConfirmPassword =>
      when (enabled sc && negb at_step_1) (toggleConfirmPasswordVisibility s)
  | PressAlert a =>
      match open_alerts sc with
      | buttons :: _ =>
          when (existsb (fun b => action_eqb (onPress b) a) buttons) (pressAlertButton a)
      | [] => None
      end
  | Settle n o =>
      match nth_error (awaited sc) n with
      | Some ForgotPasswordRequest => Some (handleSendResetCode_resolved o)
      | Some ResetPasswordRequest => Some (handleResetPassword_resolved o)
      | None => None
      end
  end.

Definition consume (sc : Screen) (ev : event) : Screen :=
  match ev with
  | PressAlert _ =>
      {| store := store sc; awaited := awaited sc;
         open_alerts := tl (open_alerts sc); trace := trace sc |}
  | Settle n _ =>
      {| store := store sc; awaited := remove_nth n (awaited sc);
         open_alerts := open_alerts sc; trace := trace sc |}
  | _ => sc
  end.

Definition transition (sc : Screen) (ev : event) : Screen :=
  match dispatch sc ev with
  | Some h => exec h (consume sc ev)
  | None => sc
  end.

Definition run (sc : Screen) (events : list event) : Screen :=
  fold_left transition events sc.

(** *** Vocabulary of the properties *)

(** An address of the form local@domain.tld: three non-empty parts without
    whitespace or further "@". *)
Definition well_formed_email (address : string) : Prop :=
  exists user_part domain tld,
    address = user_part ++ "@" ++ domain ++ "." ++ tld /\
    user_part <> "" /\ domain <> "" /\ tld <> "" /\
    all_chars not_space_or_at user_part = true /\
    all_chars not_space_or_at domain = true /\
    all_chars not_space_or_at tld = true.

Definition call_well_formed (e : effect) : Prop :=
  match e with
  | ForgotPasswordCall address =>
      isValidEmail address = true /\ all_chars (fun c => negb (is_upper c)) address = true
  | ResetPasswordCall token password =>
      length token = 4%nat /\ all_chars is_digit token = true /\
      (6 <= length password)%nat
  | _ => True
  end.

(** At most one call is awaited, and the busy flag is up exactly then. *)
Definition one_call_at_a_time (sc : Screen) : Prop :=
  (isLoading (store sc) = true /\ exists a, awaited sc = [a]) \/
  (isLoading (store sc) = false /\ awaited sc = []).

(** What holds of every screen that can be reached. *)
Definition screen_ok (sc : Screen) : Prop :=
  Forall call_well_formed (trace sc) /\
  one_call_at_a_time sc /\
  (step (store sc) = 1%Z \/ step (store sc) = 2%Z).

(** The reset form, filled in after a code was requested for a valid
    address. *)
Definition reset_form_filled : Screen :=
  run mount
    [ChangeEmail " Ada@Example.com ";
     PressSendResetCode;
     Settle 0 Resolved;
     PressAlert ToStep2;
     ChangeResetCode "1234";
     ChangeNewPassword "secret1";
     ChangeConfirmPassword "secret1"].

End ForgotPassword.

(** ** Email verification screen (app/email-verification.tsx) *)

Module EmailVerification.

Import JSRegExp.

(** The [useState] cells of [EmailVerificationScreen]. *)
Record State := {
  verificationCode : list string;
  isLoading : bool;
  isResending : bool
}.

Inductive AlertAction :=
| Dismiss
| PushLogin.

Record AlertButton := {
  text : string;
  onPress : AlertAction
}.

Inductive effect :=
| Alert (title message : string) (buttons : list AlertButton)
| ConsoleError (message : string)
| VerifyEmailCall (code : string)
| ResendVerificationCall (address : string)
| RouterPush (pathname : string) (params : list (string * string))
| RouterBack
| Focus (index : nat).

Inductive ApiOutcome :=
| Resolved
| Rejected (message : option string).

Definition setVerificationCode (v : list string) (s : State) : State :=
  {| verificationCode := v; isLoading := isLoading s; isResending := isResending s |}.
Definition setIsLoading (v : bool) (s : State) : State :=
  {| verificationCode := verificationCode s; isLoading := v; isResending := isResending s |}.
Definition setIsResending (v : bool) (s : State) : State :=
  {| verificationCode := verificationCode s; isLoading := isLoading s; isResending := v |}.

Definition blank_code : list string := [""; ""; ""; ""].

Definition initialState : State :=
  {| verificationCode := blank_code; isLoading := false; isResending := false |}.

(** [newCode[index] = value] on a copy of the array; past the end the
    array grows, and the cells skipped read as empty under [join]. *)
Fixpoint array_set (cells : list string) (index : nat) (value : string) : list string :=
  match cells, index with
  | [], O => [value]
  | [], S k => "" :: array_set [] k value
  | _ :: rest, O => value :: rest
  | cell :: rest, S k => cell :: array_set rest k value
  end.

(** [/^\d*$/]. *)
Definition digitsOnly : regex := Star digit.

Definition handleCodeChange (snapshot : State) (value : string) (index : nat) (s : State)
  : State * list effect :=
  if negb (test digitsOnly value) then (s, [])
  else
    (setVerificationCode (array_set (verificationCode snapshot) index value) s,
     if truthy value && (index <? 3)%nat then [Focus (index + 1)] else []).

Definition handleKeyPress (snapshot : State) (key : string) (index : nat) (s : State)
  : State * list effect :=
  if String.eqb key "Backspace"
     && negb (truthy (nth index (verificationCode snapshot) ""))
     && (0 <? index)%nat
  then (s, [Focus (index - 1)])
  else (s, []).

Definition handleVerify (snapshot s : State) : State * list effect :=
  let code := join "" (verificationCode snapshot) in
  if negb (length code =? 4)%nat then
    (s, [Alert "Invalid Code" "Please enter the complete 4-digit verification code." []])
  else
    (setIsLoading true s, [VerifyEmailCall code]).

Definition verifyErrorMessage (message : option string) : string :=
  match message with
  | Some m =>
      if truthy m then
        if includes m "Invalid token" then
          "The verification code is invalid. Please check the code and try again."
        else if includes m "Token expired" then
          "The verification code has expired. Please request a new one."
        else if includes m "Token required" then
          "Please enter the verification code."
        else m
      else "Verification failed. Please try again."
  | None => "Verification failed. Please try again."
  end.

(** ... resumed when [verifyEmail] settles. *)
Definition handleVerify_resolved (o : ApiOutcome) (s : State) : State * list effect :=
  match o with
  | Resolved =>
      (setIsLoading false s,
       [Alert "Email Verified!"
          "Your email has been successfully verified. You can now log in to your account."
          [{| text := "OK"; onPress := PushLogin |}]])
  | Rejected message =>
      (setIsLoading false (setVerificationCode blank_code s),
       [ConsoleError "Verification error:";
        Alert "Verification Failed" (verifyErrorMessage message) [];
        Focus 0])
  end.

Definition handleResendCode (address : string) (s : State) : State * list effect :=
  if negb (truthy address) then
    (s, [Alert "Error"
           "Email address is missing. Please go back and try signing up again." []])
  else
    (setIsResending true s, [ResendVerificationCall address]).

Definition resendErrorMessage (message : option string) : string :=
  match message with
  | Some m =>
      if truthy m then
        if includes m "User not found or already verified" then
          "This email is already verified or does not exist."
        else m
      else "Failed to resend verification code. Please try again."
  | None => "Failed to resend verification code. Please try again."
  end.

Definition handleResendCode_resolved (o : ApiOutcome) (s : State) : State * list effect :=
  match o with
  | Resolved =>
      (setIsResending false (setVerificationCode blank_code s),
       [Alert "Code Sent" "A new verification code has been sent to your email address." [];
        Focus 0])
  | Rejected message =>
      (setIsResending false s,
       [ConsoleError "Resend error:";
        Alert "Resend Failed" (resendErrorMessage message) []])
  end.

Definition handleGoBack (s : State) : State * list effect := (s, [RouterBack]).

Definition navigateToLogin (s : State) : State * list effect := (s, [RouterPush "/" []]).

Definition pressAlertButton (address : string) (a : AlertAction) (s : State)
  : State * list effect :=
  match a with
  | Dismiss => (s, [])
  | PushLogin => (s, [RouterPush "/" [("email", address); ("verified", "true")]])
  end.

(** *** The screen as a machine *)

Inductive awaiting :=
| VerifyRequest
| ResendRequest.

(** [route_email] is [params.email || '']. *)
Record Screen := {
  route_email : string;
  store : State;
  awaited : list awaiting;
  open_alerts : list (list AlertButton);
  trace : list effect
}.

Inductive event :=
| ChangeDigit (value : string) (index : nat)
| KeyPress (key : string) (index : nat)
| PressVerify
| PressResend
| PressBack
| PressLogin
| PressAlert (a : AlertAction)
| Settle (n : nat) (o : ApiOutcome).

Definition continuation (e : effect) : option awaiting :=
  match e with
  | VerifyEmailCall _ => Some VerifyRequest
  | ResendVerificationCall _ => Some ResendRequest
  | _ => None
  end.

Fixpoint continuations (out : list effect) : list awaiting :=
  match out with
  | [] => []
  | e :: rest =>
      match continuation e with
      | Some a => a :: continuations rest
      | None => continuations rest
      end
  end.

Fixpoint alerts_of (out : list effect) : list (list AlertButton) :=
  match out with
  | [] => []
  | Alert _ _ [] :: rest => [{| text := "OK"; onPress := Dismiss |}] :: alerts_of rest
  | Alert _ _ buttons :: rest => buttons :: alerts_of rest
  | _ :: rest => alerts_of rest
  end.

Definition exec (h : State -> State * list effect) (sc : Screen) : Screen :=
  let '(s', out) := h (store sc) in
  {| route_email := route_email sc;
     store := s';
     awaited := (awaited sc ++ continuations out)%list;
     open_alerts := (open_alerts sc ++ alerts_of out)%list;
     trace := (trace sc ++ out)%list |}.

Definition mount (address : string) : Screen :=
  {| route_email := address; store := initialState;
     awaited := []; open_alerts := []; trace := [] |}.

Definition action_eqb (a b : AlertAction) : bool :=
  match a, b with
  | Dismiss, Dismiss | PushLogin, PushLogin => true
  | _, _ => false
  end.

Definition uncovered (sc : Screen) : bool :=
  match open_alerts sc with
  | [] => true
  | _ :: _ => false
  end.

(** One input is rendered per cell of the code ([verificationCode.map]);
    the inputs are [editable={!isLoading}], the buttons
    [disabled={isLoading}], and "Resend" also while a resend is awaited. *)
Definition dispatch (sc : Screen) (ev : event) : option (State -> State * list effect) :=
  let s := store sc in
  let when (b : bool) (h : State -> State * list effect) :=
    if b then Some h else None in
  match ev with
  | ChangeDigit value index =>
      when (uncovered sc && negb (isLoading s)
            && (index <? List.length (verificationCode s))%nat)
           (handleCodeChange s value index)
  | KeyPress key index =>
      when (uncovered sc && negb (isLoading s)
            && (index <? List.length (verificationCode s))%nat)
           (handleKeyPress s key index)
  | PressVerify => when (uncovered sc && negb (isLoading s)) (handleVerify s)
  | PressResend =>
      when (uncovered sc && negb (isLoading s || isResending s))
           (handleResendCode (route_email sc))
  | PressBack => when (uncovered sc && negb (isLoading s)) handleGoBack
  | PressLogin => when (uncovered sc && negb (isLoading s)) navigateToLogin
  | PressAlert a =>
      match open_alerts sc with
      | buttons :: _ =>
          when (existsb (fun b => action_eqb (onPress b) a) buttons)
               (pressAlertButton (route_email sc) a)
      | [] => None
      end
  | Settle n o =>
      match nth_error (awaited sc) n with
      | Some VerifyRequest => Some (handleVerify_resolved o)
      | Some ResendRequest => Some (handleResendCode_resolved o)
      | None => None
      end
  end.

Definition consume (sc : Screen) (ev : event) : Screen :=
  match ev with
  | PressAlert _ =>
      {| route_email := route_email sc; store := store sc; awaited := awaited sc;
         open_alerts := tl (open_alerts sc); trace := trace sc |}
  | Settle n _ =>
      {| route_email := route_email sc; store := store sc;
         awaited := remove_nth n (awaited sc);
         open_alerts := open_alerts sc; trace := trace sc |}
  | _ => sc
  end.

Definition transition (sc : Screen) (ev : event) : Screen :=
  match dispatch sc ev with
  | Some h => exec h (consume sc ev)
  | None => sc
  end.

Definition run (sc : Screen) (events : list event) : Screen :=
  fold_left transition events sc.

(** *** Vocabulary of the properties *)

(** Four cells, each holding decimal digits only. *)
Definition cells_ok (s : State) : Prop :=
  List.length (verificationCode s) = 4%nat /\
  Forall (fun cell => all_chars is_digit cell = true) (verificationCode s).

Definition call_ok (address : string) (e : effect) : Prop :=
  match e with
  | VerifyEmailCall code => length code = 4%nat /\ all_chars is_digit code = true
  | ResendVerificationCall a => a = address /\ a <> ""
  | _ => True
  end.

Definition is_verify (a : awaiting) : bool :=
  match a with VerifyRequest => true | ResendRequest => false end.

Definition is_resend (a : awaiting) : bool :=
  match a with ResendRequest => true | VerifyRequest => false end.

(** One verification is awaited exactly while [isLoading] is up, one resend
    exactly while [isResending] is, and never more. *)
Definition flags_count_calls (sc : Screen) : Prop :=
  List.length (filter is_verify (awaited sc)) = (if isLoading (store sc) then 1 else 0)%nat /\
  List.length (filter is_resend (awaited sc)) = (if isResending (store sc) then 1 else 0)%nat.

Definition screen_ok (sc : Screen) : Prop :=
  cells_ok (store sc) /\
  Forall (call_ok (route_email sc)) (trace sc) /\
  flags_count_calls sc.

End EmailVerification.

(** ** The earlier version of the order screen (unnamed/part_000)

    It differs from [app/place-order.tsx] in the validator, which ends in
    [&& true], and in how the first render fills the two coordinate fields:
    [user?.latitude?.toString() || '']. *)

Module EarlierVersion.

Definition validateCoordinates (lat lng : number) : bool :=
  negb (isNaN lat) &&
  negb (isNaN lng) &&
  js_ge lat (js_neg (literal 90 0)) &&
  js_le lat (literal 90 0) &&
  js_ge lng (js_neg (literal 180 0)) &&
  js_le lng (literal 180 0) &&
  true.

(** [c?.toString() || '']. *)
Definition coordinate_text (c : option number) : string :=
  match c with
  | Some x => if truthy (toString x) then toString x else ""
  | None => ""
  end.

Definition initialState (user : option User) : State :=
  let stored_latitude := match user with Some u => user_latitude u | None => None end in
  let stored_longitude := match user with Some u => user_longitude u | None => None end in
  let lat := usable_coordinate stored_latitude in
  let lng := usable_coordinate stored_longitude in
  {| cylinders := [];
     cart := [];
     deliveryAddress :=
       match user with
       | Some u => match user_address u with Some a => a | None => "" end
       | None => ""
       end;
     deliveryLat := coordinate_text stored_latitude;
     deliveryLng := coordinate_text stored_longitude;
     instructions := "";
     loading := false;
     error := "";
     showMap := false;
     mapRegion :=
       {| region_latitude := match lat with Some x => x | None => kampala_latitude end;
          region_longitude := match lng with Some x => x | None => kampala_longitude end;
          latitudeDelta := default_latitudeDelta;
          longitudeDelta := default_longitudeDelta |};
     selectedLocation :=
       {| latitude := match lat with Some x => x | None => kampala_latitude end;
          longitude := match lng with Some x => x | None => kampala_longitude end |};
     locationPermission := false;
     mapError := false;
     mapReady := false |}.

End EarlierVersion.

(** A profile stored on the equator. *)
Definition customer_on_equator : User :=
  {| user_id := "7"; user_address := None;
     user_latitude := Some (S754_zero false); user_longitude := Some (literal 326 1) |}.

(** The 6 kg cylinder reloaded with a new price, and a second product. *)
Definition cylinder_6kg_repriced : GasCylinder :=
  {| id := "c1"; name := "6kg"; price := literal 90000 0; stockQuantity := 5;
     isAvailable := true |}.

Definition cylinder_13kg : GasCylinder :=
  {| id := "c2"; name := "13kg"; price := literal 150000 0; stockQuantity := 4;
     isAvailable := true |}.

(* ================================================================== *)
(** * Part II: properties *)
(* ================================================================== *)

Close Scope string_scope.

(** ** Comparison of binary64 values is comparison of their real values *)

Section NumberOrder.

Lemma digits2_pos_bounds (m : positive) :
  2 ^ (Zpos (digits2_pos m) - 1) <= Zpos m < 2 ^ Zpos (digits2_pos m).
Proof.
  induction m as [p IH | p IH |]; cbn [digits2_pos].
  - rewrite Pos2Z.inj_succ, (Pos2Z.inj_xI p).
    replace (Z.succ (Zpos (digits2_pos p)) - 1)
      with (Z.succ (Zpos (digits2_pos p) - 1)) by lia.
    rewrite !Z.pow_succ_r by lia. lia.
  - rewrite Pos2Z.inj_succ, (Pos2Z.inj_xO p).
    replace (Z.succ (Zpos (digits2_pos p)) - 1)
      with (Z.succ (Zpos (digits2_pos p) - 1)) by lia.
    rewrite !Z.pow_succ_r by lia. lia.
  - cbn. lia.
Qed.

(** A valid finite number has an exponent of at least -1074 and at most 53
    bits of mantissa, all 53 of them unless it is subnormal. *)
Lemma valid_finite_inv (s : bool) (m : positive) (e : Z) :
  valid_number (S754_finite s m e) ->
  -1074 <= e <= 971 /\ Zpos m < 2 ^ 53 /\ (-1074 < e -> 2 ^ 52 <= Zpos m).
Proof.
  unfold valid_number, valid_binary, bounded, canonical_mantissa, fexp,
    SpecFloat.emin, prec, emax.
  intros H. apply andb_true_iff in H. destruct H as [Hc He].
  apply Z.eqb_eq in Hc. apply Z.leb_le in He.
  pose proof (digits2_pos_bounds m) as [Hlo Hhi].
  set (d := Zpos (digits2_pos m)) in *.
  assert (Hd : d <= 53) by lia.
  repeat split; try lia.
  - eapply Z.lt_le_trans; [exact Hhi|]. apply Z.pow_le_mono_r; lia.
  - intros Hgt. assert (Hd53 : d = 53) by lia. rewrite Hd53 in Hlo. exact Hlo.
Qed.

Lemma scaled_mantissa_lt (m1 m2 : positive) (e1 e2 : Z) :
  valid_number (S754_finite false m1 e1) ->
  valid_number (S754_finite false m2 e2) ->
  e1 < e2 ->
  Zpos m1 * 2 ^ (e1 + 1074) < Zpos m2 * 2 ^ (e2 + 1074).
Proof.
  intros H1 H2 Hlt.
  apply valid_finite_inv in H1. apply valid_finite_inv in H2.
  destruct H1 as (He1 & Hm1 & _). destruct H2 as (He2 & _ & Hm2).
  specialize (Hm2 ltac:(lia)).
  assert (Hp1 : 0 < 2 ^ (e1 + 1074)) by (apply Z.pow_pos_nonneg; lia).
  apply Z.lt_le_trans with (2 ^ 53 * 2 ^ (e1 + 1074)).
  - apply Z.mul_lt_mono_pos_r; assumption.
  - apply Z.le_trans with (2 ^ 52 * 2 ^ (e2 + 1074)).
    + rewrite <- !Z.pow_add_r by lia. apply Z.pow_le_mono_r; lia.
    + apply Z.mul_le_mono_nonneg_r; [apply Z.pow_nonneg; lia | exact Hm2].
Qed.

(** Exponent first, mantissa second: the order of the scaled magnitudes. *)
Lemma compare_mantissas (m1 m2 : positive) (e1 e2 : Z) :
  valid_number (S754_finite false m1 e1) ->
  valid_number (S754_finite false m2 e2) ->
  match (e1 ?= e2) with
  | Lt => Lt
  | Gt => Gt
  | Eq => Pos.compare_cont Eq m1 m2
  end = (Zpos m1 * 2 ^ (e1 + 1074) ?= Zpos m2 * 2 ^ (e2 + 1074)).
Proof.
  intros H1 H2. destruct (Z.compare_spec e1 e2) as [Heq | Hlt | Hgt].
  - subst e2. apply valid_finite_inv in H1. destruct H1 as (He & _).
    assert (Hp : 0 < 2 ^ (e1 + 1074)) by (apply Z.pow_pos_nonneg; lia).
    change (Pos.compare_cont Eq m1 m2) with (Zpos m1 ?= Zpos m2).
    symmetry. destruct (Z.compare_spec (Zpos m1) (Zpos m2)) as [E | L | G].
    + rewrite E. apply Z.compare_refl.
    + apply Z.compare_lt_iff. apply Z.mul_lt_mono_pos_r; assumption.
    + apply Z.compare_gt_iff. apply Z.mul_lt_mono_pos_r; assumption.
  - symmetry. apply Z.compare_lt_iff. apply scaled_mantissa_lt; assumption.
  - symmetry. apply Z.compare_gt_iff. apply scaled_mantissa_lt; assumption.
Qed.

Lemma scaled_pos (m : positive) (e : Z) :
  valid_number (S754_finite false m e) -> 0 < Zpos m * 2 ^ (e + 1074).
Proof.
  intros H. apply valid_finite_inv in H. destruct H as (He & _).
  apply Z.mul_pos_pos; [lia | apply Z.pow_pos_nonneg; lia].
Qed.

Lemma SFcompare_scaled (x y : number) :
  valid_number x -> valid_number y ->
  is_finite x = true -> is_finite y = true ->
  SFcompare x y = Some (scaled x ?= scaled y).
Proof.
  intros Hx Hy Fx Fy.
  destruct x as [sx | sx | | sx mx ex]; try discriminate;
  destruct y as [sy | sy | | sy my ey]; try discriminate; cbn [SFcompare scaled].
  - reflexivity.
  - pose proof (scaled_pos my ey Hy). destruct sy; cbn [cond_Zopp]; f_equal; symmetry.
    + apply Z.compare_gt_iff. lia.
    + apply Z.compare_lt_iff. lia.
  - pose proof (scaled_pos mx ex Hx). destruct sx; cbn [cond_Zopp]; f_equal; symmetry.
    + apply Z.compare_lt_iff. lia.
    + apply Z.compare_gt_iff. lia.
  - pose proof (scaled_pos mx ex Hx). pose proof (scaled_pos my ey Hy).
    pose proof (compare_mantissas mx my ex ey Hx Hy) as Hc.
    destruct sx, sy; cbn [cond_Zopp]; f_equal.
    + rewrite Z.compare_opp, (Z.compare_antisym (Zpos mx * 2 ^ (ex + 1074))), <- Hc.
      destruct (ex ?= ey); reflexivity.
    + symmetry. apply Z.compare_lt_iff. lia.
    + symmetry. apply Z.compare_gt_iff. lia.
    + exact Hc.
Qed.

Lemma SF2Q_scaled (x : number) :
  valid_number x -> (SF2Q x == scaled x # 2 ^ 1074)%Q.
Proof.
  intros Hx. destruct x as [s | s | | s m e]; cbn [SF2Q scaled]; try reflexivity.
  apply valid_finite_inv in Hx. destruct Hx as (He & _).
  assert (Hden : Zpos (2 ^ 1074) = 2 ^ 1074) by apply Pos2Z.inj_pow.
  destruct e as [| p | p]; unfold Qeq; cbn [Qnum Qden inject_Z].
  - rewrite Hden. destruct s; cbn [cond_Zopp]; change (0 + 1074) with 1074; lia.
  - rewrite Hden. rewrite (Z.pow_add_r 2 (Zpos p) 1074) by lia.
    destruct s; cbn [cond_Zopp]; lia.
  - rewrite Hden. rewrite Pos2Z.inj_pow.
    replace (2 ^ 1074) with (2 ^ (Zneg p + 1074) * 2 ^ Zpos p).
    + destruct s; cbn [cond_Zopp]; lia.
    + rewrite <- Z.pow_add_r by lia. f_equal. lia.
Qed.

(** IEEE comparison of two valid finite numbers is the comparison of the
    fractions they stand for. *)
Lemma SFcompare_Q (x y : number) :
  valid_number x -> valid_number y ->
  is_finite x = true -> is_finite y = true ->
  SFcompare x y = Some (SF2Q x ?= SF2Q y)%Q.
Proof.
  intros Hx Hy Fx Fy. rewrite (SFcompare_scaled x y Hx Hy Fx Fy). f_equal.
  rewrite (Qcompare_comp _ _ (SF2Q_scaled x Hx) _ _ (SF2Q_scaled y Hy)).
  unfold Qcompare; cbn [Qnum Qden].
  rewrite !(Z.mul_comm _ (Zpos (2 ^ 1074))). symmetry. apply Zcompare_mult_compat.
Qed.

Lemma js_le_Q (x y : number) :
  valid_number x -> valid_number y ->
  is_finite x = true -> is_finite y = true ->
  (js_le x y = true <-> (SF2Q x <= SF2Q y)%Q).
Proof.
  intros Hx Hy Fx Fy. unfold js_le, IsLessThan.
  rewrite (SFcompare_Q y x Hy Hx Fy Fx).
  rewrite Qle_alt, <- (Qcompare_antisym (SF2Q y) (SF2Q x)).
  destruct (SF2Q y ?= SF2Q x)%Q; cbn; split; congruence.
Qed.

Lemma js_ge_Q (x y : number) :
  valid_number x -> valid_number y ->
  is_finite x = true -> is_finite y = true ->
  (js_ge x y = true <-> (SF2Q y <= SF2Q x)%Q).
Proof.
  intros Hx Hy Fx Fy. unfold js_ge, IsLessThan.
  rewrite (SFcompare_Q x y Hx Hy Fx Fy).
  rewrite Qle_alt, <- (Qcompare_antisym (SF2Q x) (SF2Q y)).
  destruct (SF2Q x ?= SF2Q y)%Q; cbn; split; congruence.
Qed.

End NumberOrder.

(** ** Literals and conversions on known values *)

(** The constants of the source are the binary64 values nearest to their
    decimals: each is within half a unit in the last place. *)
Lemma fallback_literals_are_nearest :
  (Qabs (SF2Q kampala_latitude - (3476 # 10000)) <= 1 # (2 ^ 55))%Q /\
  (Qabs (SF2Q kampala_longitude - (325825 # 10000)) <= 1 # (2 ^ 48))%Q /\
  (Qabs (SF2Q default_latitudeDelta - (922 # 10000)) <= 1 # (2 ^ 57))%Q /\
  (Qabs (SF2Q default_longitudeDelta - (421 # 10000)) <= 1 # (2 ^ 58))%Q /\
  valid_number kampala_latitude /\ valid_number kampala_longitude /\
  valid_number default_latitudeDelta /\ valid_number default_longitudeDelta.
Proof.
  repeat split; try reflexivity; vm_compute; intros E; discriminate E.
Qed.

(** [round_half_up] picks the nearest integer, the larger one on a tie:
    the choice [toFixed] makes for its last digit. *)
Lemma round_half_up_nearest (num den : Z) :
  0 <= num -> 0 < den ->
  2 * den * round_half_up num den - den <= 2 * num
  < 2 * den * round_half_up num den + den.
Proof.
  intros Hnum Hden. unfold round_half_up.
  pose proof (Z.div_mod (2 * num + den) (2 * den) ltac:(lia)) as Hdiv.
  pose proof (Z.mod_pos_bound (2 * num + den) (2 * den) ltac:(lia)) as Hmod.
  lia.
Qed.

Open Scope string_scope.

Lemma string_app_assoc (s1 s2 s3 : string) :
  (s1 ++ s2) ++ s3 = s1 ++ (s2 ++ s3).
Proof.
  induction s1 as [| c rest IH]; cbn; [reflexivity | rewrite IH; reflexivity].
Qed.

Lemma digits_fuel_app (fuel : nat) (n : Z) (acc : string) :
  digits_fuel fuel n acc = digits_fuel fuel n "" ++ acc.
Proof.
  revert n acc. induction fuel as [| k IH]; intros n acc; cbn [digits_fuel].
  - reflexivity.
  - destruct (n <? 10)%Z; [reflexivity |].
    rewrite (IH (n / 10)%Z (String _ acc)), (IH (n / 10)%Z (String _ "")).
    rewrite string_app_assoc. reflexivity.
Qed.

Lemma digits_value_app (a : Z) (s1 s2 : string) :
  digits_value a (s1 ++ s2) = digits_value (digits_value a s1) s2.
Proof.
  revert a. induction s1 as [| c rest IH]; intros a; cbn; [reflexivity | apply IH].
Qed.

Lemma digit_char_value (d : Z) :
  (0 <= d < 10)%Z -> (Z.of_nat (nat_of_ascii (digit_char d)) - 48 = d)%Z.
Proof.
  intros Hd. unfold digit_char. rewrite nat_ascii_embedding by lia. lia.
Qed.

Lemma digits_fuel_value (fuel : nat) (n : Z) :
  (0 <= n < 10 ^ Z.of_nat fuel)%Z ->
  digits_value 0 (digits_fuel fuel n "") = n.
Proof.
  revert n. induction fuel as [| k IH]; intros n Hn.
  - cbn in Hn. cbn. lia.
  - cbn [digits_fuel].
    assert (Hd : (0 <= n mod 10 < 10)%Z) by (apply Z.mod_pos_bound; lia).
    destruct (n <? 10)%Z eqn:Hlt.
    + apply Z.ltb_lt in Hlt. cbn [digits_value].
      rewrite (digit_char_value _ Hd). rewrite Z.mod_small by lia. lia.
    + apply Z.ltb_ge in Hlt.
      rewrite digits_fuel_app, digits_value_app.
      rewrite IH.
      * cbn [digits_value]. rewrite (digit_char_value _ Hd).
        pose proof (Z.div_mod n 10 ltac:(lia)). lia.
      * rewrite Nat2Z.inj_succ, Z.pow_succ_r in Hn by lia.
        split; [apply Z.div_pos; lia | apply Z.div_lt_upper_bound; lia].
Qed.

(** Reading the digits written for a non-negative integer gives it back. *)
Lemma decimal_digits_value (n : Z) :
  (0 <= n)%Z -> digits_value 0 (decimal_digits n) = n.
Proof.
  intros Hn. unfold decimal_digits. apply digits_fuel_value.
  split; [exact Hn |].
  destruct (Z.eq_dec n 0) as [-> | Hnz]; [cbn; lia |].
  pose proof (Z.log2_spec n ltac:(lia)) as [_ Hhi].
  rewrite Nat2Z.inj_succ, Z2Nat.id by apply Z.log2_nonneg.
  eapply Z.lt_le_trans; [exact Hhi |].
  apply Z.pow_le_mono_l. lia.
Qed.

Lemma toString_examples :
  toString (literal 3 1) = "0.3" /\
  toString (literal 326 1) = "32.6" /\
  toString (literal 100 0) = "100" /\
  toString (js_neg (literal 15 1)) = "-1.5" /\
  toString (of_ratio false 1 3) = "0.3333333333333333" /\
  toString (of_decimal false 1 21) = "1e+21" /\
  toString (of_decimal false 123456789 (-15)) = "1.23456789e-7" /\
  toString (of_decimal false 5 (-324)) = "5e-324" /\
  toString (S754_zero true) = "0" /\
  toString S754_nan = "NaN".
Proof. vm_compute. repeat split; reflexivity. Qed.

Lemma toFixed_examples :
  toFixed (literal 35 2) 4 = "0.3500" /\
  toFixed (literal 3258 2) 4 = "32.5800" /\
  toFixed (literal 1005 3) 2 = "1.00" /\
  toFixed (literal 25 1) 0 = "3" /\
  toFixed (js_neg (literal 12345 5)) 4 = "-0.1235" /\
  toFixed (S754_zero true) 4 = "0.0000" /\
  toFixed (literal 3476 4) 6 = "0.347600" /\
  toFixed (of_decimal false 1 22) 2 = "1e+22".
Proof. vm_compute. repeat split; reflexivity. Qed.

Lemma parseFloat_examples :
  parseFloat "0.3476" = literal 3476 4 /\
  parseFloat "  32.5825 E" = literal 325825 4 /\
  parseFloat "-90" = js_neg (literal 90 0) /\
  parseFloat "1e2" = literal 100 0 /\
  parseFloat ".5" = literal 5 1 /\
  parseFloat "12abc" = literal 12 0 /\
  parseFloat "-0" = S754_zero true /\
  parseFloat "Infinity" = S754_infinity false /\
  parseFloat "" = S754_nan /\
  parseFloat "abc" = S754_nan /\
  parseFloat "." = S754_nan.
Proof. vm_compute. repeat split; reflexivity. Qed.

Close Scope string_scope.

(** ** The coordinate validator *)

Section Validator.

(** One coordinate against a symmetric bound [c]: not NaN and between [-c]
    and [c] exactly when it is finite and its real value lies in the
    interval. *)
Lemma within_bound_iff (x c : number) (bound : Q) :
  valid_number x -> valid_number c -> is_finite c = true ->
  (SF2Q c == bound)%Q -> (SF2Q (js_neg c) == - bound)%Q ->
  (negb (isNaN x) && js_ge x (js_neg c) && js_le x c = true <->
   is_finite x = true /\ (- bound <= SF2Q x <= bound)%Q).
Proof.
  intros Hx Hc Fc Eb Enb.
  assert (Hnc : valid_number (js_neg c)) by (destruct c; try exact Hc; reflexivity).
  assert (Fnc : is_finite (js_neg c) = true) by (destruct c; try discriminate; reflexivity).
  destruct (is_finite x) eqn:Fx.
  - pose proof (js_ge_Q x (js_neg c) Hx Hnc Fx Fnc) as Hge.
    pose proof (js_le_Q x c Hx Hc Fx Fc) as Hle.
    rewrite Enb in Hge. rewrite Eb in Hle.
    assert (Hnan : isNaN x = false) by (destruct x; try discriminate; reflexivity).
    rewrite Hnan. cbn [negb andb]. rewrite andb_true_iff, Hge, Hle. tauto.
  - split; [| intros [F _]; discriminate].
    destruct x as [s | s | | s m e]; try discriminate Fx.
    + destruct c as [sc | sc | | sc mc ec]; try discriminate Fc;
        destruct s, sc; cbn; intros H; discriminate H.
    + cbn. intros H. discriminate H.
Qed.

Lemma valid_literal_90 : valid_number (literal 90 0).
Proof. reflexivity. Qed.

Lemma valid_literal_180 : valid_number (literal 180 0).
Proof. reflexivity. Qed.

Lemma validateCoordinates_split (lat lng : number) :
  validateCoordinates lat lng =
  (negb (isNaN lat) && js_ge lat (js_neg (literal 90 0)) && js_le lat (literal 90 0)) &&
  (negb (isNaN lng) && js_ge lng (js_neg (literal 180 0)) && js_le lng (literal 180 0)).
Proof.
  unfold validateCoordinates.
  destruct (negb (isNaN lat)), (negb (isNaN lng)),
    (js_ge lat (js_neg (literal 90 0))), (js_le lat (literal 90 0)),
    (js_ge lng (js_neg (literal 180 0))), (js_le lng (literal 180 0)); reflexivity.
Qed.

(** C3.  For every pair of binary64 values, [validateCoordinates] answers
    true exactly when both are finite (so neither NaN nor an infinity), the
    latitude lies in [-90, 90] and the longitude in [-180, 180], the bounds
    being compared as real numbers.  The corners (+-90, +-180) and the point
    (0, 0), with either sign of zero, are accepted: nothing excludes zero. *)
Theorem validateCoordinates_iff_in_range (lat lng : number)
  (Hlat : valid_number lat) (Hlng : valid_number lng) :
  (validateCoordinates lat lng = true <->
   is_finite lat = true /\ is_finite lng = true /\
   (-90 <= SF2Q lat <= 90)%Q /\ (-180 <= SF2Q lng <= 180)%Q)
  /\ validateCoordinates (literal 90 0) (literal 180 0) = true
  /\ validateCoordinates (js_neg (literal 90 0)) (js_neg (literal 180 0)) = true
  /\ validateCoordinates (literal 90 0) (js_neg (literal 180 0)) = true
  /\ validateCoordinates (js_neg (literal 90 0)) (literal 180 0) = true
  /\ validateCoordinates (literal 0 0) (literal 0 0) = true
  /\ validateCoordinates (js_neg (literal 0 0)) (js_neg (literal 0 0)) = true.
Proof.
  split; [| repeat split; reflexivity].
  rewrite validateCoordinates_split, andb_true_iff.
  rewrite (within_bound_iff lat (literal 90 0) 90 Hlat valid_literal_90
             eq_refl eq_refl eq_refl).
  rewrite (within_bound_iff lng (literal 180 0) 180 Hlng valid_literal_180
             eq_refl eq_refl eq_refl).
  tauto.
Qed.

Lemma validateCoordinates_iff_in_range_witness :
  valid_number (literal 3476 4) /\ valid_number (literal 325825 4) /\
  validateCoordinates (literal 3476 4) (literal 325825 4) = true /\
  (-90 <= SF2Q (literal 3476 4) <= 90)%Q.
Proof.
  split; [reflexivity |]. split; [reflexivity |]. split; [reflexivity |].
  apply (proj1 (validateCoordinates_iff_in_range (literal 3476 4) (literal 325825 4)
                  eq_refl eq_refl)).
  reflexivity.
Defined.

End Validator.

(** ** Invalid coordinates *)

Open Scope string_scope.

Section InvalidCoordinates.

Variables lat lng : number.
Hypothesis Hinvalid : validateCoordinates lat lng = false.

Lemma updateMapRegion_invalid (s : State) :
  updateMapRegion lat lng s =
  (tt,
   {| cylinders := cylinders s; cart := cart s;
      deliveryAddress := deliveryAddress s;
      deliveryLat := deliveryLat s; deliveryLng := deliveryLng s;
      instructions := instructions s; loading := loading s; error := error s;
      showMap := showMap s;
      mapRegion := kampala_region;
      selectedLocation := kampala;
      locationPermission := locationPermission s;
      mapError := mapError s; mapReady := mapReady s |},
   [ConsoleWarn "Invalid coordinates provided to updateMapRegion:"]).
Proof.
  unfold updateMapRegion. rewrite Hinvalid. destruct s. reflexivity.
Qed.

Lemma onMapPress_invalid (s : State) :
  onMapPress (Some {| latitude := lat; longitude := lng |}) s =
  (tt, s,
   [ConsoleWarn "Invalid map press coordinates";
    Alert "Invalid Selection" "Please tap on a valid location on the map." []]).
Proof.
  unfold onMapPress. cbn [latitude longitude]. rewrite Hinvalid. reflexivity.
Qed.

Lemma requestLocationPermission_position_invalid (snapshot s : State) :
  requestLocationPermission_position snapshot (PositionFix lat lng) s =
  (tt, s, [ConsoleWarn "Invalid coordinates from getCurrentPositionAsync:"]).
Proof.
  unfold requestLocationPermission_position. rewrite Hinvalid. reflexivity.
Qed.

Lemma getCurrentLocation_position_invalid (s : State) :
  getCurrentLocation_position (PositionFix lat lng) s =
  (tt, s,
   [Alert "Error"
      "Invalid coordinates obtained from current location. Please try again." []]).
Proof.
  unfold getCurrentLocation_position. rewrite Hinvalid. reflexivity.
Qed.

End InvalidCoordinates.

Lemma kampala_is_valid :
  validateCoordinates (latitude kampala) (longitude kampala) = true.
Proof. reflexivity. Qed.

(** The fallback constants are the binary64 values that print as the
    decimals of the source. *)
Lemma kampala_constants_print :
  toString kampala_latitude = "0.3476" /\
  toString kampala_longitude = "32.5825" /\
  toString default_latitudeDelta = "0.0922" /\
  toString default_longitudeDelta = "0.0421".
Proof. repeat split; vm_compute; reflexivity. Qed.

(** C5.  [updateMapRegion] called with coordinates that fail the validator
    never stores them: [selectedLocation] becomes the default (0.3476,
    32.5825) and [mapRegion] the default with spans 0.0922 and 0.0421,
    whatever they held before; the stored coordinate passes the validator,
    so it is not the rejected one; the coordinate text fields, the address
    and the cart keep their values. *)
Theorem updateMapRegion_invalid_resets_to_default
  (lat lng : number) (s : State)
  (Hinvalid : validateCoordinates lat lng = false) :
  let s' := state_after (updateMapRegion lat lng) s in
  selectedLocation s' =
    {| latitude := literal 3476 4; longitude := literal 325825 4 |} /\
  mapRegion s' =
    {| region_latitude := literal 3476 4; region_longitude := literal 325825 4;
       latitudeDelta := literal 922 4; longitudeDelta := literal 421 4 |} /\
  validateCoordinates (latitude (selectedLocation s'))
                      (longitude (selectedLocation s')) = true /\
  validateCoordinates (region_latitude (mapRegion s'))
                      (region_longitude (mapRegion s')) = true /\
  (latitude (selectedLocation s'), longitude (selectedLocation s')) <> (lat, lng) /\
  (region_latitude (mapRegion s'), region_longitude (mapRegion s')) <> (lat, lng) /\
  deliveryLat s' = deliveryLat s /\ deliveryLng s' = deliveryLng s /\
  deliveryAddress s' = deliveryAddress s /\ cart s' = cart s.
Proof.
  intros s'. subst s'. unfold state_after.
  rewrite (updateMapRegion_invalid lat lng Hinvalid s). cbn [fst snd].
  cbn [selectedLocation mapRegion deliveryLat deliveryLng deliveryAddress cart].
  assert (Hne : (kampala_latitude, kampala_longitude) <> (lat, lng)).
  { intros E. injection E as E1 E2. subst lat lng.
    pose proof kampala_is_valid as Hk. cbn [kampala latitude longitude] in Hk.
    rewrite Hk in Hinvalid. discriminate Hinvalid. }
  repeat split; try reflexivity; exact Hne.
Qed.

Lemma updateMapRegion_invalid_resets_to_default_witness :
  validateCoordinates S754_nan (literal 0 0) = false /\
  selectedLocation (state_after (updateMapRegion S754_nan (literal 0 0)) (initialState None)) =
    {| latitude := literal 3476 4; longitude := literal 325825 4 |}.
Proof.
  split; [reflexivity |].
  apply (updateMapRegion_invalid_resets_to_default
           S754_nan (literal 0 0) (initialState None) eq_refl).
Defined.

(** C4, as stated, fails: after a valid tap at (1, 2), an invalid argument to
    [updateMapRegion] does not leave [selectedLocation] at its last good
    value (1, 2) but moves it to the default, and rewrites [mapRegion]. *)
Lemma updateMapRegion_invalid_loses_last_good_location :
  validateCoordinates S754_nan (literal 0 0) = false /\
  selectedLocation after_tap_at_1_2 =
    {| latitude := literal 1 0; longitude := literal 2 0 |} /\
  selectedLocation (state_after (updateMapRegion S754_nan (literal 0 0)) after_tap_at_1_2)
    <> selectedLocation after_tap_at_1_2.
Proof.
  split; [reflexivity |]. split; [reflexivity |].
  vm_compute. intros E. discriminate E.
Qed.

(** C4, amended.  When a coordinate fails the validator, a map tap and a GPS
    fix (at mount or from the picker's locate button) change no state cell
    at all and only produce a notice or a log line; a tap without a
    coordinate behaves the same.  [updateMapRegion] logs a warning and
    returns the store with the fixed default in [selectedLocation] and
    [mapRegion], instead of their previous values, and every one of the
    other twelve cells as it was.  Before any location is accepted, the
    first render holds that same default. *)
Theorem invalid_coordinate_handling
  (lat lng : number) (snapshot s : State)
  (Hinvalid : validateCoordinates lat lng = false) :
  (state_after (onMapPress (Some {| latitude := lat; longitude := lng |})) s = s /\
   effects_of (onMapPress (Some {| latitude := lat; longitude := lng |})) s =
     [ConsoleWarn "Invalid map press coordinates";
      Alert "Invalid Selection" "Please tap on a valid location on the map." []]) /\
  state_after (onMapPress None) s = s /\
  (state_after (requestLocationPermission_position snapshot (PositionFix lat lng)) s = s /\
   effects_of (requestLocationPermission_position snapshot (PositionFix lat lng)) s =
     [ConsoleWarn "Invalid coordinates from getCurrentPositionAsync:"]) /\
  (state_after (getCurrentLocation_position (PositionFix lat lng)) s = s /\
   effects_of (getCurrentLocation_position (PositionFix lat lng)) s =
     [Alert "Error"
        "Invalid coordinates obtained from current location. Please try again." []]) /\
  (state_after (updateMapRegion lat lng) s =
     {| cylinders := cylinders s; cart := cart s;
        deliveryAddress := deliveryAddress s;
        deliveryLat := deliveryLat s; deliveryLng := deliveryLng s;
        instructions := instructions s; loading := loading s; error := error s;
        showMap := showMap s;
        mapRegion := kampala_region;
        selectedLocation := kampala;
        locationPermission := locationPermission s;
        mapError := mapError s; mapReady := mapReady s |} /\
   effects_of (updateMapRegion lat lng) s =
     [ConsoleWarn "Invalid coordinates provided to updateMapRegion:"]) /\
  selectedLocation (initialState None) = kampala /\
  mapRegion (initialState None) = kampala_region.
Proof.
  unfold state_after, effects_of.
  rewrite (onMapPress_invalid lat lng Hinvalid s).
  rewrite (requestLocationPermission_position_invalid lat lng Hinvalid snapshot s).
  rewrite (getCurrentLocation_position_invalid lat lng Hinvalid s).
  rewrite (updateMapRegion_invalid lat lng Hinvalid s).
  cbn. repeat split; reflexivity.
Qed.

Lemma invalid_coordinate_handling_witness :
  validateCoordinates (literal 91 0) (literal 0 0) = false /\
  state_after (onMapPress (Some {| latitude := literal 91 0; longitude := literal 0 0 |}))
              after_tap_at_1_2 = after_tap_at_1_2.
Proof.
  split; [reflexivity |].
  apply (invalid_coordinate_handling (literal 91 0) (literal 0 0)
           after_tap_at_1_2 after_tap_at_1_2 eq_refl).
Defined.

(** ** The GPS fix of mount against later typing *)

Section StaleSnapshot.

Variables latitude' longitude' : number.
Hypothesis Hvalid : validateCoordinates latitude' longitude' = true.

(** What a valid fix does, in terms of the snapshot the closure reads: the
    marker and region always move; the text fields are written exactly when
    a field of the snapshot is empty, whatever the live fields hold. *)
Lemma requestLocationPermission_position_valid (snapshot s : State) :
  let s' := state_after
              (requestLocationPermission_position snapshot
                 (PositionFix latitude' longitude')) s in
  selectedLocation s' = {| latitude := latitude'; longitude := longitude' |} /\
  mapRegion s' = {| region_latitude := latitude'; region_longitude := longitude';
                    latitudeDelta := default_latitudeDelta;
                    longitudeDelta := default_longitudeDelta |} /\
  (if truthy (deliveryLat snapshot) && truthy (deliveryLng snapshot)
   then deliveryLat s' = deliveryLat s /\ deliveryLng s' = deliveryLng s
   else deliveryLat s' = toString latitude' /\ deliveryLng s' = toString longitude').
Proof.
  unfold requestLocationPermission_position, updateMapRegion. rewrite Hvalid.
  destruct (truthy (deliveryLat snapshot)), (truthy (deliveryLng snapshot));
    destruct s; cbn; repeat split; reflexivity.
Qed.

End StaleSnapshot.

(** C1, on the code.  The screen mounts for a customer without stored
    coordinates, so both text fields of the mount render are empty; the
    inventory arrives and the permission is granted; the user types "1.0"
    and "2.0" into the two fields while the position is awaited; the fix
    (0.3, 32.6) then resolves in the closure of the mount render.  Both
    typed values are replaced by the fix: the emptiness test reads the
    fields of the mount render, not the live ones.  The marker and the
    region move to the fix. *)
Theorem gps_fix_of_mount_overwrites_typed_fields :
  let before := run string_of_Z just_mounted typing_before_fix in
  let after := step string_of_Z before fix_arrives in
  (deliveryLat (store just_mounted) = "" /\ deliveryLng (store just_mounted) = "") /\
  (deliveryLat (store before) = "1.0" /\ deliveryLng (store before) = "2.0") /\
  awaited before = [MountPositionRequest (initialState (Some customer))] /\
  (deliveryLat (store after) = "0.3" /\ deliveryLng (store after) = "32.6") /\
  selectedLocation (store after) =
    {| latitude := literal 3 1; longitude := literal 326 1 |} /\
  region_latitude (mapRegion (store after)) = literal 3 1 /\
  region_longitude (mapRegion (store after)) = literal 326 1.
Proof. vm_compute. repeat split; reflexivity. Qed.

(** ** The submission gate *)

Lemma truthy_true_iff (s : string) : truthy s = true <-> s <> "".
Proof. destruct s; cbn; split; congruence. Qed.

Lemma cart_nonempty_iff (c : list CartItem) :
  (0 <? List.length c)%nat = true <-> c <> [].
Proof. destruct c; cbn; split; congruence. Qed.

Lemma canPlaceOrder_cases (s : State) :
  (canPlaceOrder s = JSBool true <->
   cart s <> [] /\
   trim (deliveryAddress s) <> "" /\
   validateCoordinates (parseFloat (deliveryLat s)) (parseFloat (deliveryLng s)) = true /\
   loading s = false)
  /\
  (ToBoolean (canPlaceOrder s) = false <->
   cart s = [] \/
   trim (deliveryAddress s) = "" \/
   validateCoordinates (parseFloat (deliveryLat s)) (parseFloat (deliveryLng s)) = false \/
   loading s = true).
Proof.
  unfold canPlaceOrder, js_and.
  rewrite <- cart_nonempty_iff, <- truthy_true_iff.
  assert (Hc : cart s = [] <-> (0 <? List.length (cart s))%nat = false)
    by (destruct (cart s); cbn; split; congruence).
  assert (Ha : trim (deliveryAddress s) = "" <-> truthy (trim (deliveryAddress s)) = false)
    by (destruct (trim (deliveryAddress s)); cbn; split; congruence).
  rewrite Hc, Ha.
  destruct (0 <? List.length (cart s))%nat;
    destruct (trim (deliveryAddress s)) as [| ch rest];
    destruct (validateCoordinates (parseFloat (deliveryLat s)) (parseFloat (deliveryLng s)));
    destruct (loading s); cbn;
    (split; split; try tauto; try congruence; try (intros H; decompose [and or] H; congruence)).
Qed.

(** While a submission is in flight the gate is closed: the part of
    [placeOrder] that issues [createOrder] raises [loading] first. *)
Lemma placeOrder_in_flight_closes_gate
  (user : option User) (token : option string) (snapshot s : State)
  (payload : CreateOrderPayload) (t : string) :
  In (CreateOrder payload t) (effects_of (placeOrder user token snapshot) s) ->
  loading (state_after (placeOrder user token snapshot) s) = true /\
  ToBoolean (canPlaceOrder (state_after (placeOrder user token snapshot) s)) = false.
Proof.
  intros Hin.
  assert (Hl : loading (state_after (placeOrder user token snapshot) s) = true).
  { revert Hin. unfold placeOrder.
    destruct user as [u |]; [| cbn; intros [H | []]; discriminate H].
    destruct (usable_token token) as [t' |]; [| cbn; intros [H | []]; discriminate H].
    destruct (negb (ToBoolean (canPlaceOrder snapshot)));
      [cbn; intros [H | []]; discriminate H |].
    destruct (negb (validateCoordinates _ _));
      [cbn; intros [H | []]; discriminate H |].
    intros _. destruct s; reflexivity. }
  split; [exact Hl |].
  unfold canPlaceOrder, js_and. rewrite Hl.
  destruct (0 <? List.length (cart _))%nat; cbn; [| reflexivity].
  destruct (trim (deliveryAddress _)); cbn; [reflexivity |].
  destruct (validateCoordinates _ _); reflexivity.
Qed.

(** The flag of the gate is also raised by the inventory loads.  After a
    refused order the reload of the inventory fails and the customer presses
    Retry: the cart has a line, the address is filled, the coordinates are
    valid and no submission is in flight, and the gate is closed, because
    the inventory load holds the busy flag. *)
Lemma gate_closed_without_submission :
  let s := store retrying_inventory in
  cart s <> [] /\
  trim (deliveryAddress s) <> "" /\
  validateCoordinates (parseFloat (deliveryLat s)) (parseFloat (deliveryLng s)) = true /\
  submission_in_flight retrying_inventory = false /\
  inventory_load_in_flight retrying_inventory = true /\
  loading s = true /\
  canPlaceOrder s = JSBool false.
Proof.
  vm_compute. repeat split; try reflexivity; intros E; discriminate E.
Qed.

Lemma existsb_app_true {A : Type} (f : A -> bool) (l : list A) (x : A) :
  f x = true -> existsb f (l ++ [x]) = true.
Proof.
  intros Hx. rewrite existsb_app. cbn. rewrite Hx, orb_true_r. reflexivity.
Qed.

(** Pressing "Place Order" with the gate open starts a submission and
    raises the busy flag. *)
Lemma pressPlaceOrder_starts_submission
  (toLocaleString : Z -> string) (sc : Screen) (t : string) :
  form_visible sc = true ->
  ToBoolean (canPlaceOrder (store sc)) = true ->
  usable_token (screen_token sc) = Some t ->
  submission_in_flight (step toLocaleString sc PressPlaceOrder) = true /\
  loading (store (step toLocaleString sc PressPlaceOrder)) = true.
Proof.
  intros Hform Hgate Htoken. unfold step, dispatch. rewrite Hform, Hgate. cbn [andb consume].
  assert (Huser : exists u, screen_user sc = Some u).
  { unfold form_visible in Hform. destruct (screen_user sc) as [u |];
      [exists u; reflexivity | discriminate Hform]. }
  destruct Huser as [u Hu].
  assert (Hvalid : validateCoordinates (parseFloat (deliveryLat (store sc)))
                     (parseFloat (deliveryLng (store sc))) = true).
  { destruct (proj2 (canPlaceOrder_cases (store sc))) as [_ Hfalse].
    destruct (validateCoordinates _ _) eqn:E; [reflexivity |].
    rewrite Hfalse in Hgate by (right; right; left; reflexivity). discriminate Hgate. }
  assert (Hrun : placeOrder (screen_user sc) (screen_token sc) (store sc) =
                 (setLoading true ;;
                  emit (CreateOrder (order_payload u (store sc)) t))).
  { unfold placeOrder. rewrite Hu, Htoken, Hgate, Hvalid. reflexivity. }
  rewrite Hrun. unfold submission_in_flight, exec, state_after, effects_of.
  cbn [awaited store]. destruct (store sc). cbn. split; [| reflexivity].
  apply existsb_app_true. reflexivity.
Qed.

(** What the gate computes.  [canPlaceOrder] evaluates to [true] exactly
    when the cart has a line, the trimmed delivery address is not empty, the
    numbers parsed from the two text fields pass the validator, and the busy
    flag [loading] is down; whenever one of the four fails its value is
    falsy ([false], or the empty string when it is the address that is
    blank).  Pressing "Place Order" with the gate open starts a submission
    and raises the flag, which closes the gate at that moment. *)
Theorem canPlaceOrder_true_iff_all_four
  (toLocaleString : Z -> string) (sc : Screen) :
  (canPlaceOrder (store sc) = JSBool true <->
   cart (store sc) <> [] /\
   trim (deliveryAddress (store sc)) <> "" /\
   validateCoordinates (parseFloat (deliveryLat (store sc)))
                       (parseFloat (deliveryLng (store sc))) = true /\
   loading (store sc) = false)
  /\
  (ToBoolean (canPlaceOrder (store sc)) = false <->
   cart (store sc) = [] \/
   trim (deliveryAddress (store sc)) = "" \/
   validateCoordinates (parseFloat (deliveryLat (store sc)))
                       (parseFloat (deliveryLng (store sc))) = false \/
   loading (store sc) = true)
  /\
  (form_visible sc = true ->
   ToBoolean (canPlaceOrder (store sc)) = true ->
   usable_token (screen_token sc) <> None ->
   let sc' := step toLocaleString sc PressPlaceOrder in
   submission_in_flight sc' = true /\
   loading (store sc') = true /\
   ToBoolean (canPlaceOrder (store sc')) = false).
Proof.
  destruct (canPlaceOrder_cases (store sc)) as [Htrue Hfalse].
  split; [exact Htrue |]. split; [exact Hfalse |].
  intros Hform Hgate Htoken. cbn zeta.
  destruct (usable_token (screen_token sc)) as [t |] eqn:Ht; [| congruence].
  destruct (pressPlaceOrder_starts_submission toLocaleString sc t Hform Hgate Ht)
    as [Hflight Hloading].
  split; [exact Hflight |]. split; [exact Hloading |].
  apply (proj2 (canPlaceOrder_cases _)). right. right. right. exact Hloading.
Qed.

Lemma canPlaceOrder_true_iff_all_four_witness :
  form_visible form_filled = true /\
  ToBoolean (canPlaceOrder (store form_filled)) = true /\
  usable_token (screen_token form_filled) <> None /\
  submission_in_flight (step string_of_Z form_filled PressPlaceOrder) = true /\
  ToBoolean (canPlaceOrder (store (step string_of_Z form_filled PressPlaceOrder))) = false.
Proof.
  assert (Hform : form_visible form_filled = true) by (vm_compute; reflexivity).
  assert (Hgate : ToBoolean (canPlaceOrder (store form_filled)) = true)
    by (vm_compute; reflexivity).
  assert (Htoken : usable_token (screen_token form_filled) <> None)
    by (vm_compute; discriminate).
  split; [exact Hform |]. split; [exact Hgate |]. split; [exact Htoken |].
  destruct (proj2 (proj2 (canPlaceOrder_true_iff_all_four string_of_Z form_filled))
              Hform Hgate Htoken) as (H1 & _ & H3).
  split; [exact H1 | exact H3].
Defined.

(** The flag is shared with the inventory loads, and one of them can lower
    it during a submission: after a refused order the customer submits
    again while the reload is awaited; when the reload arrives the second
    submission is still in flight and the gate is open. *)
Lemma gate_open_during_submission :
  submission_in_flight reload_settles_during_submission = true /\
  loading (store reload_settles_during_submission) = false /\
  canPlaceOrder (store reload_settles_during_submission) = JSBool true.
Proof. vm_compute. repeat split; reflexivity. Qed.

(** C2.  The gate does not stay closed while a submission is in flight.
    [placeOrder] raises [loading] before it awaits [createOrder] and lowers
    it in its [finally] block, and the button is disabled by the gate; but
    [loadCylinders] lowers the same flag in its own [finally] block.  After
    an order refused for lack of stock the customer submits again while the
    reload of the inventory is awaited; when the reload arrives, the second
    order is still awaited, the cart, the address and the coordinates are as
    they were, and [canPlaceOrder] is [true].  The button responds: another
    press sends a further order while the earlier one is in flight. *)
Theorem gate_open_while_order_in_flight :
  let sc := reload_settles_during_submission in
  let s := store sc in
  cart s <> [] /\
  trim (deliveryAddress s) <> "" /\
  validateCoordinates (parseFloat (deliveryLat s)) (parseFloat (deliveryLng s)) = true /\
  submission_in_flight sc = true /\
  orders_in_flight sc = 1%nat /\
  loading s = false /\
  canPlaceOrder s = JSBool true /\
  form_visible sc = true /\
  let sc' := step string_of_Z sc PressPlaceOrder in
  orders_in_flight sc' = 2%nat /\
  orders_sent (trace sc') = S (orders_sent (trace sc)).
Proof.
  vm_compute. repeat split; try reflexivity; intros E; discriminate E.
Qed.

(** ** The cart *)

Section Cart.

Lemma same_id_true_iff (i : string) (item : CartItem) :
  same_id i item = true <-> id (cylinder item) = i.
Proof. unfold same_id. apply String.eqb_eq. Qed.

Lemma same_id_false_iff (i : string) (item : CartItem) :
  same_id i item = false <-> id (cylinder item) <> i.
Proof. unfold same_id. apply String.eqb_neq. Qed.

Lemma in_cart_ids (item : CartItem) (c : list CartItem) :
  In item c -> In (id (cylinder item)) (cart_ids c).
Proof. intros H. unfold cart_ids. apply in_map_iff. exists item. split; [reflexivity | exact H]. Qed.

(** With one line per product, a line is determined by its product. *)
Lemma line_unique (c : list CartItem) (a b : CartItem) :
  NoDup (cart_ids c) -> In a c -> In b c ->
  id (cylinder a) = id (cylinder b) -> a = b.
Proof.
  induction c as [| x rest IH]; intros Hnd Ha Hb Hid; [contradiction |].
  cbn in Hnd. inversion Hnd as [| ? ? Hnotin Hrest]; subst.
  destruct Ha as [Ha | Ha], Hb as [Hb | Hb].
  - congruence.
  - subst a. exfalso. apply Hnotin. rewrite Hid. apply in_cart_ids. exact Hb.
  - subst b. exfalso. apply Hnotin. rewrite <- Hid. apply in_cart_ids. exact Ha.
  - apply IH; assumption.
Qed.

Lemma find_same_id_none (i : string) (c : list CartItem) :
  find (same_id i) c = None <-> ~ In i (cart_ids c).
Proof.
  induction c as [| x rest IH]; cbn.
  - tauto.
  - destruct (same_id i x) eqn:E.
    + apply same_id_true_iff in E. split; [discriminate | intros H; exfalso; apply H; left; exact E].
    + apply same_id_false_iff in E. rewrite IH. tauto.
Qed.

Lemma find_same_id_some (i : string) (c : list CartItem) (existing : CartItem) :
  find (same_id i) c = Some existing -> In existing c /\ id (cylinder existing) = i.
Proof.
  intros H. apply find_some in H. destruct H as [Hin Hid].
  split; [exact Hin | apply same_id_true_iff; exact Hid].
Qed.

(** *** [updateQuantity] *)

Lemma updateQuantity_line_ok (i : string) (change : Z) (item : CartItem) :
  line_ok item ->
  match fst (updateQuantity_line i change item) with
  | Some l => line_ok l /\ cylinder l = cylinder item
  | None => True
  end.
Proof.
  intros Hok. unfold updateQuantity_line.
  destruct (same_id i item); [| cbn; tauto].
  cbn zeta.
  destruct (quantity item + change <=? 0)%Z eqn:Hle; [exact I |].
  destruct (quantity item + change >? stockQuantity (cylinder item))%Z eqn:Hgt;
    cbn; [tauto |].
  split; [| reflexivity]. unfold line_ok, with_quantity; cbn. lia.
Qed.

Lemma updateQuantity_line_cylinder (i : string) (change : Z) (item l : CartItem) :
  fst (updateQuantity_line i change item) = Some l -> cylinder l = cylinder item.
Proof.
  unfold updateQuantity_line.
  destruct (same_id i item); [| cbn; intros H; injection H as <-; reflexivity].
  cbn zeta.
  destruct (quantity item + change <=? 0)%Z; [discriminate |].
  destruct (quantity item + change >? stockQuantity (cylinder item))%Z;
    cbn; intros H; injection H as <-; reflexivity.
Qed.

Lemma updateQuantity_update_ids (i : string) (change : Z) (prev : list CartItem) (x : string) :
  In x (cart_ids (fst (updateQuantity_update i change prev))) -> In x (cart_ids prev).
Proof.
  induction prev as [| item rest IH]; cbn; [tauto |].
  pose proof (updateQuantity_line_cylinder i change item) as Hcyl.
  destruct (updateQuantity_line i change item) as [line alerts].
  destruct (updateQuantity_update i change rest) as [rest' alerts'].
  cbn in *. destruct line as [l |]; cbn.
  - rewrite (Hcyl l eq_refl). intros [H | H]; [left; exact H | right; apply IH; exact H].
  - intros H. right. apply IH. exact H.
Qed.

Lemma updateQuantity_update_wf (i : string) (change : Z) (prev : list CartItem) :
  cart_wf prev -> cart_wf (fst (updateQuantity_update i change prev)).
Proof.
  unfold cart_wf. induction prev as [| item rest IH]; cbn; [tauto |].
  intros [Hnd Hok].
  inversion Hnd as [| ? ? Hnotin Hnd']; subst.
  inversion Hok as [| ? ? Hitem Hok']; subst.
  specialize (IH (conj Hnd' Hok')). destruct IH as [IHnd IHok].
  pose proof (updateQuantity_line_ok i change item Hitem) as Hline.
  pose proof (updateQuantity_update_ids i change rest (id (cylinder item))) as Hids.
  destruct (updateQuantity_line i change item) as [line alerts].
  destruct (updateQuantity_update i change rest) as [rest' alerts'].
  cbn in *. destruct line as [l |]; cbn; [| tauto].
  destruct Hline as [Hl Hc]. split.
  - constructor; [| exact IHnd]. rewrite Hc. intros Hin. apply Hnotin, Hids, Hin.
  - constructor; assumption.
Qed.

(** Nothing happens when no line carries the product. *)
Lemma updateQuantity_update_absent (i : string) (change : Z) (prev : list CartItem) :
  ~ In i (cart_ids prev) -> updateQuantity_update i change prev = (prev, []).
Proof.
  induction prev as [| item rest IH]; cbn; [reflexivity |].
  intros Hnotin. unfold updateQuantity_line.
  destruct (same_id i item) eqn:E.
  - apply same_id_true_iff in E. exfalso. apply Hnotin. left. exact E.
  - rewrite IH by tauto. reflexivity.
Qed.

(** An increment past the stock of the line changes nothing and raises the
    notice. *)
Lemma updateQuantity_blocked (line : CartItem) (change : Z) (prev : list CartItem) :
  NoDup (cart_ids prev) -> In line prev ->
  (0 < quantity line + change)%Z ->
  (stockQuantity (cylinder line) < quantity line + change)%Z ->
  updateQuantity_update (id (cylinder line)) change prev =
  (prev, [stock_limit_alert (stockQuantity (cylinder line))]).
Proof.
  induction prev as [| item rest IH]; cbn; [tauto |].
  intros Hnd Hin Hpos Hover.
  inversion Hnd as [| ? ? Hnotin Hnd']; subst.
  destruct Hin as [Heq | Hin].
  - subst item. unfold updateQuantity_line.
    rewrite (proj2 (same_id_true_iff _ line) eq_refl). cbn zeta.
    rewrite (proj2 (Z.leb_gt _ _) Hpos).
    rewrite (proj2 (Z.gtb_lt _ _) Hover).
    rewrite (updateQuantity_update_absent _ change rest Hnotin). reflexivity.
  - unfold updateQuantity_line.
    destruct (same_id (id (cylinder line)) item) eqn:E.
    + apply same_id_true_iff in E. exfalso. apply Hnotin. rewrite E.
      apply in_cart_ids. exact Hin.
    + rewrite (IH Hnd' Hin Hpos Hover). reflexivity.
Qed.

(** A change that takes the quantity to zero or below drops the line. *)
Lemma updateQuantity_removes (line : CartItem) (change : Z) (prev : list CartItem) :
  NoDup (cart_ids prev) -> In line prev ->
  (quantity line + change <= 0)%Z ->
  updateQuantity_update (id (cylinder line)) change prev =
  (filter (fun l => negb (same_id (id (cylinder line)) l)) prev, []).
Proof.
  induction prev as [| item rest IH]; cbn; [tauto |].
  intros Hnd Hin Hle.
  inversion Hnd as [| ? ? Hnotin Hnd']; subst.
  destruct Hin as [Heq | Hin].
  - subst item. unfold updateQuantity_line.
    rewrite (proj2 (same_id_true_iff _ line) eq_refl). cbn zeta.
    rewrite (proj2 (Z.leb_le _ _) Hle). cbn.
    rewrite (updateQuantity_update_absent _ change rest Hnotin). cbn.
    f_equal. symmetry. apply forallb_filter_id.
    apply forallb_forall. intros l Hl.
    apply negb_true_iff, same_id_false_iff. intros E. apply Hnotin.
    rewrite <- E. apply in_cart_ids. exact Hl.
  - unfold updateQuantity_line.
    destruct (same_id (id (cylinder line)) item) eqn:E.
    + apply same_id_true_iff in E. exfalso. apply Hnotin. rewrite E.
      apply in_cart_ids. exact Hin.
    + rewrite (IH Hnd' Hin Hle). reflexivity.
Qed.

(** *** [addToCart] *)

Lemma cart_ids_map_with_quantity (f : CartItem -> Z) (p : CartItem -> bool)
  (c : list CartItem) :
  cart_ids (map (fun item => if p item then with_quantity item (f item) else item) c)
  = cart_ids c.
Proof.
  unfold cart_ids. rewrite map_map. apply map_ext.
  intros item. destruct (p item); reflexivity.
Qed.

Lemma NoDup_snoc (l : list string) (x : string) :
  NoDup l -> ~ In x l -> NoDup (l ++ [x]).
Proof.
  induction l as [| a rest IH]; cbn; intros Hnd Hx.
  - constructor; [tauto | constructor].
  - inversion Hnd as [| ? ? Ha Hrest]; subst.
    constructor.
    + rewrite in_app_iff. cbn. intros [H | [H | []]]; [tauto |].
      apply Hx. left. symmetry. exact H.
    + apply IH; tauto.
Qed.

Lemma addToCart_update_wf (c : GasCylinder) (prev : list CartItem) :
  cart_wf prev ->
  (1 <= stockQuantity c)%Z ->
  (forall line, In line prev -> id (cylinder line) = id c ->
                (stockQuantity c <= stockQuantity (cylinder line))%Z) ->
  cart_wf (fst (addToCart_update c prev)).
Proof.
  intros [Hnd Hok] Hstock Hline. unfold addToCart_update.
  destruct (find (same_id (id c)) prev) as [existing |] eqn:Hfind.
  - destruct (find_same_id_some _ _ _ Hfind) as [Hin Hid].
    destruct (quantity existing >=? stockQuantity c)%Z eqn:Hge; cbn [fst].
    + split; assumption.
    + split.
      * rewrite (cart_ids_map_with_quantity (fun item => (quantity item + 1)%Z)). exact Hnd.
      * apply Forall_forall. intros l Hl. apply in_map_iff in Hl.
        destruct Hl as [item [Hl Hitem]]. subst l.
        pose proof (proj1 (Forall_forall _ _) Hok item Hitem) as Hitem_ok.
        destruct (same_id (id c) item) eqn:E; [| exact Hitem_ok].
        apply same_id_true_iff in E.
        assert (item = existing) by (apply (line_unique prev); congruence).
        subst item. specialize (Hline existing Hin Hid).
        rewrite Z.geb_leb in Hge. apply Z.leb_gt in Hge.
        unfold line_ok in *. cbn. lia.
  - cbn [fst]. apply find_same_id_none in Hfind. split.
    + unfold cart_ids. rewrite map_app. cbn. apply NoDup_snoc; assumption.
    + apply Forall_app. split; [exact Hok |].
      constructor; [| constructor]. unfold line_ok. cbn. lia.
Qed.

Lemma addToCart_update_blocked (c : GasCylinder) (prev : list CartItem) (existing : CartItem) :
  find (same_id (id c)) prev = Some existing ->
  (stockQuantity c <= quantity existing)%Z ->
  addToCart_update c prev = (prev, [stock_limit_alert (stockQuantity c)]).
Proof.
  intros Hfind Hle. unfold addToCart_update. rewrite Hfind.
  rewrite Z.geb_leb, (proj2 (Z.leb_le _ _) Hle). reflexivity.
Qed.

Lemma addToCart_update_new (c : GasCylinder) (prev : list CartItem) :
  ~ In (id c) (cart_ids prev) ->
  addToCart_update c prev = ((prev ++ [{| cylinder := c; quantity := 1 |}])%list, []).
Proof.
  intros Hnew. unfold addToCart_update.
  rewrite (proj2 (find_same_id_none _ _) Hnew). reflexivity.
Qed.

(** The handlers write the updater's cart to the store and raise its
    alerts; no other cell changes. *)
Lemma addToCart_runs_update (c : GasCylinder) (s : State) :
  cart (state_after (addToCart c) s) = fst (addToCart_update c (cart s)) /\
  effects_of (addToCart c) s = snd (addToCart_update c (cart s)).
Proof.
  unfold addToCart, state_after, effects_of.
  destruct (addToCart_update c (cart s)) as [next alerts]. destruct s. split; reflexivity.
Qed.

Lemma updateQuantity_runs_update (i : string) (change : Z) (s : State) :
  cart (state_after (updateQuantity i change) s) = fst (updateQuantity_update i change (cart s)) /\
  effects_of (updateQuantity i change) s = snd (updateQuantity_update i change (cart s)).
Proof.
  unfold updateQuantity, state_after, effects_of.
  destruct (updateQuantity_update i change (cart s)) as [next alerts]. destruct s.
  split; reflexivity.
Qed.

End Cart.

(** C6, as stated, fails for [addToCart].  The cart holds the 6 kg cylinder
    at its stock of 3; the order is refused for lack of stock and the
    reloaded inventory lists 5 units of it.  Pressing "Add" compares the
    line's quantity with the new 5, raises the quantity to 4 and keeps the
    line's own [stockQuantity] of 3: the line exceeds its stock, the cart
    changed and no notice was raised. *)
Lemma addToCart_exceeds_stock_of_line :
  let after := step string_of_Z restocked_after_refusal (PressAdd cylinder_6kg_restocked) in
  cart (store restocked_after_refusal) = [{| cylinder := cylinder_6kg; quantity := 3 |}] /\
  Forall line_ok (cart (store restocked_after_refusal)) /\
  cylinders (store restocked_after_refusal) = [cylinder_6kg_restocked] /\
  cart (store after) = [{| cylinder := cylinder_6kg; quantity := 4 |}] /\
  open_alerts after = [] /\
  ~ Forall line_ok (cart (store after)).
Proof.
  cbn zeta.
  assert (Hbefore : cart (store restocked_after_refusal)
                    = [{| cylinder := cylinder_6kg; quantity := 3 |}])
    by (vm_compute; reflexivity).
  assert (Hafter : cart (store (step string_of_Z restocked_after_refusal
                                  (PressAdd cylinder_6kg_restocked)))
                   = [{| cylinder := cylinder_6kg; quantity := 4 |}])
    by (vm_compute; reflexivity).
  rewrite Hbefore, Hafter. split; [reflexivity |]. split; [| split; [| split; [| split]]].
  - constructor; [| constructor]. unfold line_ok. cbn. lia.
  - vm_compute. reflexivity.
  - reflexivity.
  - vm_compute. reflexivity.
  - intros H. inversion H as [| ? ? Hline _]; subst.
    unfold line_ok in Hline. cbn in Hline. lia.
Qed.

(** C6, amended.  From a cart with one line per product and every line
    within its stock: [updateQuantity] keeps that invariant for every id and
    every change; [addToCart] keeps it when the cylinder passed has a stock
    of at least 1 that does not exceed the stock recorded on its line, if it
    has one.  An add for a line already at the cylinder's stock, and an
    increment past the stock of the line, leave the cart as it is and raise
    the stock notice; a change that takes a quantity to 0 or below removes
    the line.  With a stock of 3, three adds give quantities 1, 2 and 3 and a
    fourth leaves 3 and raises the notice. *)
Theorem cart_operations_keep_lines_within_stock (s : State)
  (Hwf : cart_wf (cart s)) :
  (forall i change, cart_wf (cart (state_after (updateQuantity i change) s))) /\
  (forall c,
      (1 <= stockQuantity c)%Z ->
      (forall line, In line (cart s) -> id (cylinder line) = id c ->
                    (stockQuantity c <= stockQuantity (cylinder line))%Z) ->
      cart_wf (cart (state_after (addToCart c) s))) /\
  (forall c existing,
      find (same_id (id c)) (cart s) = Some existing ->
      (stockQuantity c <= quantity existing)%Z ->
      cart (state_after (addToCart c) s) = cart s /\
      effects_of (addToCart c) s = [stock_limit_alert (stockQuantity c)]) /\
  (forall line,
      In line (cart s) ->
      (stockQuantity (cylinder line) < quantity line + 1)%Z ->
      cart (state_after (updateQuantity (id (cylinder line)) 1) s) = cart s /\
      effects_of (updateQuantity (id (cylinder line)) 1) s =
        [stock_limit_alert (stockQuantity (cylinder line))]) /\
  (forall line change,
      In line (cart s) ->
      (quantity line + change <= 0)%Z ->
      cart (state_after (updateQuantity (id (cylinder line)) change) s) =
        filter (fun l => negb (same_id (id (cylinder line)) l)) (cart s) /\
      ~ In line (cart (state_after (updateQuantity (id (cylinder line)) change) s))) /\
  (let add := addToCart cylinder_6kg in
   let s0 := initialState None in
   map quantity (cart (state_after add s0)) = [1%Z] /\
   map quantity (cart (state_after (add ;; add) s0)) = [2%Z] /\
   map quantity (cart (state_after (add ;; add ;; add) s0)) = [3%Z] /\
   map quantity (cart (state_after (add ;; add ;; add ;; add) s0)) = [3%Z] /\
   effects_of (add ;; add ;; add ;; add) s0 = [stock_limit_alert 3]).
Proof.
  destruct Hwf as [Hnd Hok].
  split; [| split; [| split; [| split; [| split]]]].
  - intros i change.
    rewrite (proj1 (updateQuantity_runs_update i change s)).
    apply updateQuantity_update_wf. split; assumption.
  - intros c Hstock Hline.
    rewrite (proj1 (addToCart_runs_update c s)).
    apply addToCart_update_wf; [split |..]; assumption.
  - intros c existing Hfind Hle.
    destruct (addToCart_runs_update c s) as [-> ->].
    rewrite (addToCart_update_blocked c (cart s) existing Hfind Hle). split; reflexivity.
  - intros line Hin Hover.
    destruct (updateQuantity_runs_update (id (cylinder line)) 1 s) as [-> ->].
    pose proof (proj1 (Forall_forall _ _) Hok line Hin) as Hline. unfold line_ok in Hline.
    rewrite (updateQuantity_blocked line 1 (cart s) Hnd Hin ltac:(lia) Hover).
    split; reflexivity.
  - intros line change Hin Hle.
    rewrite (proj1 (updateQuantity_runs_update (id (cylinder line)) change s)).
    rewrite (updateQuantity_removes line change (cart s) Hnd Hin Hle). cbn [fst].
    split; [reflexivity |].
    intros H. apply filter_In in H. destruct H as [_ H].
    rewrite (proj2 (same_id_true_iff _ line) eq_refl) in H. discriminate H.
  - cbn zeta. repeat split; reflexivity.
Qed.

Lemma cart_operations_keep_lines_within_stock_witness :
  let s := state_after (setCart [{| cylinder := cylinder_6kg; quantity := 3 |}])
                       (initialState None) in
  cart_wf (cart s) /\
  cart_wf (cart (state_after (updateQuantity "c1" (-1)) s)) /\
  cart_wf (cart (state_after (addToCart cylinder_6kg) s)).
Proof.
  cbn zeta.
  assert (Hwf : cart_wf (cart (state_after
                   (setCart [{| cylinder := cylinder_6kg; quantity := 3 |}])
                   (initialState None)))).
  { split.
    - cbn. constructor; [intros [] | constructor].
    - cbn. constructor; [| constructor]. unfold line_ok. cbn. lia. }
  split; [exact Hwf |]. split.
  - apply (proj1 (cart_operations_keep_lines_within_stock _ Hwf)).
  - apply (proj1 (proj2 (cart_operations_keep_lines_within_stock _ Hwf))).
    + cbn. lia.
    + intros line [<- | []] _. cbn. lia.
Defined.

(** ** Whole numbers in binary64 *)

(** The number of bits of a positive integer is determined by its size. *)
Lemma digits2_pos_unique (m : positive) (d : Z) :
  2 ^ (d - 1) <= Zpos m < 2 ^ d -> Zpos (digits2_pos m) = d.
Proof.
  intros [Hlo Hhi]. pose proof (digits2_pos_bounds m) as [Blo Bhi].
  set (k := Zpos (digits2_pos m)) in *.
  assert (Hk : 0 < k) by (unfold k; lia).
  assert (Hd : 0 < d).
  { destruct (Z_lt_le_dec 0 d) as [H | H]; [exact H |].
    exfalso. assert (2 ^ d <= 1).
    { destruct (Z.eq_dec d 0) as [-> | Hn]; [cbn; lia |].
      rewrite Z.pow_neg_r by lia. lia. }
    lia. }
  assert (H1 : k - 1 < d).
  { apply (Z.pow_lt_mono_r_iff 2); lia. }
  assert (H2 : d - 1 < k).
  { apply (Z.pow_lt_mono_r_iff 2); lia. }
  lia.
Qed.

Lemma digits2_pos_shift (m M : positive) (k : Z) :
  0 <= k -> Zpos m = Zpos M * 2 ^ k ->
  Zpos (digits2_pos m) = Zpos (digits2_pos M) + k.
Proof.
  intros Hk Hm. apply digits2_pos_unique.
  pose proof (digits2_pos_bounds M) as [Blo Bhi].
  assert (Hp : 0 < 2 ^ k) by (apply Z.pow_pos_nonneg; lia).
  rewrite Hm.
  replace (Zpos (digits2_pos M) + k - 1) with ((Zpos (digits2_pos M) - 1) + k) by lia.
  rewrite !Z.pow_add_r by lia. split.
  - apply Z.mul_le_mono_nonneg_r; lia.
  - apply Z.mul_lt_mono_pos_r; lia.
Qed.

Lemma Pos_iter_xO (m d : positive) : Zpos (Pos.iter xO m d) = Zpos m * 2 ^ Zpos d.
Proof.
  induction d as [| d IH] using Pos.peano_ind.
  - cbn. lia.
  - rewrite Pos.iter_succ, Pos2Z.inj_succ, Z.pow_succ_r by lia.
    rewrite (Pos2Z.inj_xO (Pos.iter xO m d)), IH. lia.
Qed.

Lemma iter_shr_1_exact (k M : positive) :
  iter_pos shr_1 k {| shr_m := Zpos (Pos.iter xO M k); shr_r := false; shr_s := false |} =
  {| shr_m := Zpos M; shr_r := false; shr_s := false |}.
Proof.
  revert M. induction k as [k IH | k IH |]; intros M; cbn [iter_pos Pos.iter].
  - cbn [shr_1 orb]. rewrite (IH (Pos.iter xO M k)). apply IH.
  - rewrite (IH (Pos.iter xO M k)). apply IH.
  - reflexivity.
Qed.

Lemma shr_exact (m M : positive) (e k : Z) :
  0 <= k -> Zpos m = Zpos M * 2 ^ k ->
  shr {| shr_m := Zpos m; shr_r := false; shr_s := false |} e k =
  ({| shr_m := Zpos M; shr_r := false; shr_s := false |}, e + k).
Proof.
  intros Hk Hm. destruct k as [| k | k]; [| | lia].
  - cbn [shr]. rewrite Z.pow_0_r, Z.mul_1_r in Hm. injection Hm as ->.
    rewrite Z.add_0_r. reflexivity.
  - cbn [shr]. rewrite <- Pos_iter_xO in Hm. injection Hm as ->.
    rewrite iter_shr_1_exact. reflexivity.
Qed.

Lemma binary_round_aux_exact (s : bool) (m M : positive) (e E : Z) :
  E = fexp prec emax (Zpos (digits2_pos m) + e) ->
  e <= E -> E <= emax - prec ->
  Zpos m = Zpos M * 2 ^ (E - e) ->
  binary_round_aux prec emax s (Zpos m) e loc_Exact = S754_finite s M E.
Proof.
  intros HE Hle Hmax Hm.
  pose proof (digits2_pos_shift m M (E - e) ltac:(lia) Hm) as Hd.
  unfold binary_round_aux, shr_fexp. cbn [Zdigits2 shr_record_of_loc].
  rewrite <- HE. rewrite (shr_exact m M e (E - e) ltac:(lia) Hm).
  cbn [shr_m loc_of_shr_record round_nearest_even Zdigits2 shr_record_of_loc].
  replace (e + (E - e)) with E by lia.
  replace (Zpos (digits2_pos M) + E) with (Zpos (digits2_pos m) + e) by lia.
  rewrite <- HE, Z.sub_diag. cbn [shr shr_m].
  apply Z.leb_le in Hmax. rewrite Hmax. reflexivity.
Qed.

Lemma shl_align_value (m : positive) (e e' : Z) :
  let '(m', e'') := shl_align m e e' in
  e'' = Z.min e e' /\ Zpos m' = Zpos m * 2 ^ (e - e'').
Proof.
  unfold shl_align. destruct (e' - e) as [| d | d] eqn:Hd.
  - split; [lia |]. rewrite Z.sub_diag. cbn. lia.
  - split; [lia |]. rewrite Z.sub_diag. cbn. lia.
  - split; [lia |]. rewrite Pos_iter_xO. f_equal. f_equal. lia.
Qed.

(** Rounding a value that the format holds returns it. *)
Lemma binary_round_exact (s : bool) (m M : positive) (e E : Z) :
  E = fexp prec emax (Zpos (digits2_pos m) + e) ->
  E <= emax - prec ->
  Zpos m * 2 ^ (e - Z.min e E) = Zpos M * 2 ^ (E - Z.min e E) ->
  binary_round prec emax s m e = S754_finite s M E.
Proof.
  intros HE Hmax Hm. unfold binary_round. rewrite <- HE.
  pose proof (shl_align_value m e E) as Hs.
  destruct (shl_align m e E) as [m' e']. destruct Hs as [He' Hm'].
  assert (Hd : Zpos (digits2_pos m') + e' = Zpos (digits2_pos m) + e).
  { rewrite (digits2_pos_shift m' m (e - e') ltac:(lia) Hm'). lia. }
  apply binary_round_aux_exact; try lia.
  - rewrite Hd. exact HE.
  - rewrite Hm', He'. exact Hm.
Qed.

(** The binary64 that holds a positive whole number below [2 ^ 53]. *)
Lemma number_of_Z_pos (p : positive) :
  Zpos p < 2 ^ 53 ->
  exists M,
    number_of_Z (Zpos p) = S754_finite false M (Zpos (digits2_pos p) - 53) /\
    Zpos M = Zpos p * 2 ^ (53 - Zpos (digits2_pos p)).
Proof.
  intros Hp. pose proof (digits2_pos_bounds p) as [Blo Bhi].
  assert (Hd : Zpos (digits2_pos p) <= 53).
  { destruct (Z_le_gt_dec (Zpos (digits2_pos p)) 53) as [H | H]; [exact H |].
    exfalso. assert (2 ^ 53 <= 2 ^ (Zpos (digits2_pos p) - 1))
      by (apply Z.pow_le_mono_r; lia). lia. }
  set (d := Zpos (digits2_pos p)) in *.
  assert (Hpos : 0 < Zpos p * 2 ^ (53 - d)).
  { apply Z.mul_pos_pos; [lia | apply Z.pow_pos_nonneg; lia]. }
  exists (Z.to_pos (Zpos p * 2 ^ (53 - d))).
  rewrite Z2Pos.id by exact Hpos. split; [| reflexivity].
  unfold number_of_Z, binary_normalize.
  assert (HE : d - 53 = fexp prec emax (Zpos (digits2_pos p) + 0)).
  { unfold fexp, SpecFloat.emin, prec, emax. fold d. lia. }
  apply binary_round_exact; [exact HE | unfold emax, prec; lia |].
  rewrite Z2Pos.id by exact Hpos.
  replace (Z.min 0 (d - 53)) with (d - 53) by lia.
  rewrite Z.sub_diag. replace (0 - (d - 53)) with (53 - d) by lia. cbn. lia.
Qed.

Lemma digits2_pos_le_53 (p : positive) : Zpos p < 2 ^ 53 -> Zpos (digits2_pos p) <= 53.
Proof.
  intros Hp. pose proof (digits2_pos_bounds p) as [Blo Bhi].
  destruct (Z_le_gt_dec (Zpos (digits2_pos p)) 53) as [H | H]; [exact H |].
  exfalso. assert (2 ^ 53 <= 2 ^ (Zpos (digits2_pos p) - 1))
    by (apply Z.pow_le_mono_r; lia). lia.
Qed.

Lemma digits2_pos_mul (a b : positive) :
  Zpos (digits2_pos a) + Zpos (digits2_pos b) - 1 <= Zpos (digits2_pos (a * b)).
Proof.
  pose proof (digits2_pos_bounds a) as [Alo Ahi].
  pose proof (digits2_pos_bounds b) as [Blo Bhi].
  pose proof (digits2_pos_bounds (a * b)) as [Plo Phi].
  set (da := Zpos (digits2_pos a)) in *. set (db := Zpos (digits2_pos b)) in *.
  set (dp := Zpos (digits2_pos (a * b))) in *.
  assert (Hda : 0 < da) by (unfold da; lia). assert (Hdb : 0 < db) by (unfold db; lia).
  assert (Hdp : 0 < dp) by (unfold dp; lia).
  assert (H : 2 ^ (da - 1 + (db - 1)) < 2 ^ dp).
  { rewrite Z.pow_add_r by lia. rewrite Pos2Z.inj_mul in Phi.
    apply Z.le_lt_trans with (Zpos a * Zpos b); [| exact Phi].
    apply Z.mul_le_mono_nonneg; try lia; apply Z.pow_nonneg; lia. }
  apply Z.pow_lt_mono_r_iff in H; lia.
Qed.

Lemma pow2_split (x y : Z) : 0 <= x -> 0 <= y -> 2 ^ (x + y) = 2 ^ x * 2 ^ y.
Proof. intros. apply Z.pow_add_r; assumption. Qed.

(** Products and sums of whole numbers below [2 ^ 53] are computed
    exactly. *)
Lemma js_mul_whole (a b : Z) :
  0 <= a < 2 ^ 53 -> 0 <= b < 2 ^ 53 -> a * b < 2 ^ 53 ->
  js_mul (number_of_Z a) (number_of_Z b) = number_of_Z (a * b).
Proof.
  intros Ha Hb Hab.
  destruct a as [| a | a]; [| | lia].
  { destruct b as [| b | b]; [reflexivity | | lia].
    destruct (number_of_Z_pos b ltac:(lia)) as (Mb & -> & _). reflexivity. }
  destruct b as [| b | b]; [| | lia].
  { destruct (number_of_Z_pos a ltac:(lia)) as (Ma & -> & _). reflexivity. }
  destruct (number_of_Z_pos a ltac:(lia)) as (Ma & -> & HMa).
  destruct (number_of_Z_pos b ltac:(lia)) as (Mb & -> & HMb).
  change (Zpos a * Zpos b) with (Zpos (a * b)) in *.
  destruct (number_of_Z_pos (a * b) Hab) as (Mp & -> & HMp).
  pose proof (digits2_pos_le_53 a ltac:(lia)) as Da.
  pose proof (digits2_pos_le_53 b ltac:(lia)) as Db.
  pose proof (digits2_pos_le_53 (a * b) Hab) as Dp.
  pose proof (digits2_pos_mul a b) as Dmul.
  set (da := Zpos (digits2_pos a)) in *. set (db := Zpos (digits2_pos b)) in *.
  set (dp := Zpos (digits2_pos (a * b))) in *.
  assert (Hda : 0 < da) by (unfold da; lia). assert (Hdb : 0 < db) by (unfold db; lia).
  assert (Hdp : 0 < dp) by (unfold dp; lia).
  assert (Hprod : Zpos (Ma * Mb) = Zpos (a * b) * 2 ^ (106 - da - db)).
  { rewrite !Pos2Z.inj_mul, HMa, HMb.
    replace (106 - da - db) with ((53 - da) + (53 - db)) by lia.
    rewrite pow2_split by lia. ring. }
  unfold js_mul, SFmul. cbn [xorb].
  apply binary_round_aux_exact.
  - rewrite (digits2_pos_shift (Ma * Mb) (a * b) (106 - da - db) ltac:(lia) Hprod).
    fold dp. unfold fexp, SpecFloat.emin, prec, emax. lia.
  - lia.
  - unfold emax, prec. lia.
  - rewrite Hprod, HMp.
    replace (106 - da - db) with ((53 - dp) + (dp - 53 - (da - 53 + (db - 53)))) by lia.
    rewrite pow2_split by lia. ring.
Qed.

Lemma js_add_whole (a b : Z) :
  0 <= a -> 0 <= b -> a + b < 2 ^ 53 ->
  js_add (number_of_Z a) (number_of_Z b) = number_of_Z (a + b).
Proof.
  intros Ha Hb Hab.
  destruct a as [| a | a]; [| | lia].
  { destruct b as [| b | b]; [reflexivity | | lia].
    destruct (number_of_Z_pos b ltac:(lia)) as (Mb & E & _).
    cbn [Z.add]. rewrite E. reflexivity. }
  destruct b as [| b | b]; [| | lia].
  { destruct (number_of_Z_pos a ltac:(lia)) as (Ma & E & _).
    rewrite Z.add_0_r, E. reflexivity. }
  destruct (number_of_Z_pos a ltac:(lia)) as (Ma & -> & HMa).
  destruct (number_of_Z_pos b ltac:(lia)) as (Mb & -> & HMb).
  change (Zpos a + Zpos b) with (Zpos (a + b)) in *.
  destruct (number_of_Z_pos (a + b) Hab) as (Ms & -> & HMs).
  pose proof (digits2_pos_le_53 a ltac:(lia)) as Da.
  pose proof (digits2_pos_le_53 b ltac:(lia)) as Db.
  pose proof (digits2_pos_le_53 (a + b) Hab) as Ds.
  set (da := Zpos (digits2_pos a)) in *. set (db := Zpos (digits2_pos b)) in *.
  set (ds := Zpos (digits2_pos (a + b))) in *.
  assert (Hda : 0 < da) by (unfold da; lia). assert (Hdb : 0 < db) by (unfold db; lia).
  assert (Hds : 0 < ds) by (unfold ds; lia).
  unfold js_add, SFadd. cbn zeta. cbn [cond_Zopp].
  set (ez := Z.min (da - 53) (db - 53)).
  pose proof (shl_align_value Ma (da - 53) ez) as Sa.
  pose proof (shl_align_value Mb (db - 53) ez) as Sb.
  destruct (shl_align Ma (da - 53) ez) as [ma ea].
  destruct (shl_align Mb (db - 53) ez) as [mb eb].
  destruct Sa as [Hea Hma]. destruct Sb as [Heb Hmb]. cbn [fst].
  change (Zpos ma + Zpos mb) with (Zpos (ma + mb)). cbn [binary_normalize].
  assert (Hsum : Zpos (ma + mb) = Zpos (a + b) * 2 ^ (- ez)).
  { assert (Ha' : Zpos ma = Zpos a * 2 ^ (- ez)).
    { rewrite Hma, HMa. replace (- ez) with ((53 - da) + (da - 53 - ea)) by lia.
      rewrite pow2_split by lia. ring. }
    assert (Hb' : Zpos mb = Zpos b * 2 ^ (- ez)).
    { rewrite Hmb, HMb. replace (- ez) with ((53 - db) + (db - 53 - eb)) by lia.
      rewrite pow2_split by lia. ring. }
    rewrite !Pos2Z.inj_add, Ha', Hb'. ring. }
  apply binary_round_exact.
  - rewrite (digits2_pos_shift (ma + mb) (a + b) (- ez) ltac:(lia) Hsum).
    fold ds. unfold fexp, SpecFloat.emin, prec, emax. lia.
  - unfold emax, prec. lia.
  - rewrite Hsum, HMs.
    set (lo := Z.min ez (ds - 53)).
    rewrite <- !Z.mul_assoc, <- !pow2_split by lia.
    f_equal. f_equal. lia.
Qed.

Lemma number_eqb_eq (x y : number) : number_eqb x y = true -> x = y.
Proof.
  destruct x as [a | a | | a m e], y as [b | b | | b m' e']; cbn; try discriminate.
  - intros H. apply Bool.eqb_prop in H. congruence.
  - intros H. apply Bool.eqb_prop in H. congruence.
  - reflexivity.
  - intros H. apply andb_prop in H. destruct H as [H He].
    apply andb_prop in H. destruct H as [Hs Hm].
    apply Bool.eqb_prop in Hs. apply Pos.eqb_eq in Hm. apply Z.eqb_eq in He. congruence.
Qed.

(** [whole x = Some n]: [x] is the binary64 of the whole number [n], which
    is not negative; [x] is then [+0] or a positive finite number. *)
Lemma whole_spec (x : number) (n : Z) :
  whole x = Some n ->
  0 <= n /\ x = number_of_Z n /\
  (x = S754_zero false \/ exists m e, x = S754_finite false m e).
Proof.
  unfold whole. set (k := match x with
                          | S754_zero _ => 0
                          | S754_finite false m e => Z.shiftl (Zpos m) e
                          | _ => -1
                          end).
  destruct (0 <=? k)%Z eqn:Hk; [| discriminate].
  destruct (number_eqb (number_of_Z k) x) eqn:He; [| discriminate].
  cbn [andb]. intros H. injection H as <-.
  apply Z.leb_le in Hk. apply number_eqb_eq in He.
  split; [exact Hk |]. split; [symmetry; exact He |].
  destruct x as [s | s | | s m e]; cbn in k; try (unfold k in Hk; lia).
  - left. rewrite <- He. reflexivity.
  - destruct s; [unfold k in Hk; lia |]. right. exists m, e. reflexivity.
Qed.

(** Below [2 ^ 53] the binary64 of a whole number has exactly its value. *)
Lemma number_of_Z_value (n : Z) :
  0 <= n < 2 ^ 53 -> (SF2Q (number_of_Z n) == inject_Z n)%Q.
Proof.
  intros Hn. destruct n as [| p | p]; [reflexivity | | lia].
  destruct (number_of_Z_pos p ltac:(lia)) as (M & -> & HM).
  pose proof (digits2_pos_le_53 p ltac:(lia)) as Hd.
  cbn [SF2Q cond_Zopp].
  destruct (Zpos (digits2_pos p) - 53) as [| e | e] eqn:He; [| lia |].
  - replace (53 - Zpos (digits2_pos p)) with 0 in HM by lia.
    rewrite Z.pow_0_r, Z.mul_1_r in HM. rewrite HM. reflexivity.
  - unfold Qeq. cbn [Qnum Qden inject_Z]. rewrite Pos2Z.inj_pow, HM.
    replace (53 - Zpos (digits2_pos p)) with (Zpos e) by lia. lia.
Qed.

Lemma js_mul_whole_price (x : number) (p q : Z) :
  whole x = Some p -> 0 <= q < 2 ^ 53 -> p * q < 2 ^ 53 ->
  js_mul x (number_of_Z q) = number_of_Z (p * q).
Proof.
  intros Hx Hq Hpq. apply whole_spec in Hx. destruct Hx as (Hp & Hx & Hshape).
  destruct (Z.eq_dec q 0) as [-> | Hq0].
  - rewrite Z.mul_0_r. destruct Hshape as [-> | (m & e & ->)]; reflexivity.
  - rewrite Hx. apply js_mul_whole; [nia | exact Hq | exact Hpq].
Qed.

(** Outside the whole numbers sums and products round, to the values that
    JavaScript prints: 0.1 + 0.2, 0.1 * 3, 1.1 * 1.1, 2 ^ 53 + 1, and three
    units at 19.99. *)
Lemma js_arithmetic_examples :
  toString (js_add (literal 1 1) (literal 2 1)) = "0.30000000000000004" /\
  toString (js_mul (literal 1 1) (number_of_Z 3)) = "0.30000000000000004" /\
  toString (js_mul (literal 11 1) (literal 11 1)) = "1.2100000000000002" /\
  toString (js_add (number_of_Z (2 ^ 53)) (number_of_Z 1)) = "9007199254740992" /\
  toString (subtotal [{| cylinder := {| id := "c1"; name := "6kg";
                                        price := literal 1999 2;
                                        stockQuantity := 9; isAvailable := true |};
                         quantity := 3 |}]) = "59.97".
Proof. repeat split; vm_compute; reflexivity. Qed.

(** ** Totals *)

Lemma sum_of_line_amounts_cons (item : CartItem) (rest : list CartItem) (t : Z) :
  sum_of_line_amounts (item :: rest) = Some t ->
  exists p t0,
    whole (price (cylinder item)) = Some p /\
    sum_of_line_amounts rest = Some t0 /\
    0 <= quantity item < 2 ^ 53 /\
    t = p * quantity item + t0.
Proof.
  cbn [sum_of_line_amounts].
  destruct (whole (price (cylinder item))) as [p |]; [| discriminate].
  destruct (sum_of_line_amounts rest) as [t0 |]; [| discriminate].
  destruct (0 <=? quantity item)%Z eqn:H0; [| discriminate].
  destruct (quantity item <? 2 ^ 53)%Z eqn:H1; [| discriminate].
  cbn [andb]. intros H. injection H as <-.
  apply Z.leb_le in H0. apply Z.ltb_lt in H1.
  exists p, t0. repeat split; try reflexivity; assumption.
Qed.

Lemma sum_of_line_amounts_nonneg (c : list CartItem) (t : Z) :
  sum_of_line_amounts c = Some t -> 0 <= t.
Proof.
  revert t. induction c as [| item rest IH]; intros t H.
  - injection H as <-. lia.
  - apply sum_of_line_amounts_cons in H.
    destruct H as (p & t0 & Hp & Hrest & Hq & ->).
    apply whole_spec in Hp. specialize (IH t0 Hrest). nia.
Qed.

(** The reduce over a cart of whole amounts, started from a whole number,
    never rounds while the exact sum stays below [2 ^ 53]. *)
Lemma reduce_whole_amounts (c : list CartItem) (a t : Z) :
  0 <= a -> sum_of_line_amounts c = Some t -> a + t < 2 ^ 53 ->
  fold_left
    (fun sum item =>
       js_add sum (js_mul (price (cylinder item)) (number_of_Z (quantity item))))
    c (number_of_Z a)
  = number_of_Z (a + t).
Proof.
  revert a t. induction c as [| item rest IH]; intros a t Ha Hsum Hbound.
  - injection Hsum as <-. rewrite Z.add_0_r. reflexivity.
  - apply sum_of_line_amounts_cons in Hsum.
    destruct Hsum as (p & t0 & Hp & Hrest & Hq & ->).
    pose proof (sum_of_line_amounts_nonneg rest t0 Hrest) as Ht0.
    pose proof (proj1 (whole_spec _ _ Hp)) as Hp0.
    assert (Hpq : 0 <= p * quantity item) by nia.
    cbn [fold_left].
    rewrite (js_mul_whole_price _ p (quantity item) Hp Hq ltac:(lia)).
    rewrite (js_add_whole a (p * quantity item) Ha Hpq ltac:(lia)).
    rewrite (IH (a + p * quantity item) t0 ltac:(lia) Hrest ltac:(lia)).
    f_equal. lia.
Qed.

Lemma total_of_whole_amounts (c : list CartItem) (t : Z) :
  sum_of_line_amounts c = Some t -> t < 2 ^ 53 -> total c = number_of_Z t.
Proof.
  intros Hsum Hbound. unfold total, subtotal.
  change (S754_zero false) with (number_of_Z 0).
  apply (reduce_whole_amounts c 0 t ltac:(lia) Hsum). lia.
Qed.

(** C9.  For every cart the total on the summary and on the order button is
    the subtotal: nothing is added to it.  The subtotal is the sum of price
    times quantity taken line by line in binary64, as [reduce] computes it:
    the empty cart totals 0 and a further line adds its own amount.  For a
    cart whose prices are whole numbers, with the exact sum of price times
    quantity below [2 ^ 53], no step rounds and the total holds exactly that
    sum. *)
Theorem total_is_sum_of_line_amounts (c : list CartItem) :
  total c = subtotal c /\
  total [] = S754_zero false /\
  (forall item,
      total (c ++ [item]) =
      js_add (total c) (js_mul (price (cylinder item)) (number_of_Z (quantity item)))) /\
  (forall t,
      sum_of_line_amounts c = Some t -> t < 2 ^ 53 ->
      total c = number_of_Z t /\ (SF2Q (total c) == inject_Z t)%Q).
Proof.
  split; [reflexivity |]. split; [reflexivity |]. split.
  - intros item. unfold total, subtotal. rewrite fold_left_app. reflexivity.
  - intros t Hsum Hbound.
    pose proof (total_of_whole_amounts c t Hsum Hbound) as Htotal.
    split; [exact Htotal |]. rewrite Htotal.
    apply number_of_Z_value. split; [| exact Hbound].
    apply (sum_of_line_amounts_nonneg c t Hsum).
Qed.

Lemma total_is_sum_of_line_amounts_witness :
  let c := [{| cylinder := cylinder_6kg; quantity := 2 |};
            {| cylinder := cylinder_sold_out; quantity := 1 |}] in
  sum_of_line_amounts c = Some 320000 /\
  total c = number_of_Z 320000 /\
  (SF2Q (total c) == inject_Z 320000)%Q.
Proof.
  cbn zeta.
  assert (Hsum : sum_of_line_amounts
                   [{| cylinder := cylinder_6kg; quantity := 2 |};
                    {| cylinder := cylinder_sold_out; quantity := 1 |}] = Some 320000)
    by (vm_compute; reflexivity).
  split; [exact Hsum |].
  apply (proj2 (proj2 (proj2 (total_is_sum_of_line_amounts _))) 320000 Hsum).
  reflexivity.
Defined.

(** Beyond [2 ^ 53] the sum rounds: three units at a price of [2 ^ 53 - 1]
    total 27021597764222972, one less than the exact sum. *)
Lemma total_rounds_beyond_2_53 :
  let c := [{| cylinder := {| id := "c1"; name := "6kg";
                              price := number_of_Z (2 ^ 53 - 1);
                              stockQuantity := 3; isAvailable := true |};
               quantity := 3 |}] in
  sum_of_line_amounts c = Some 27021597764222973 /\
  total c = number_of_Z 27021597764222972 /\
  (SF2Q (total c) == inject_Z 27021597764222972)%Q.
Proof. vm_compute. repeat split; reflexivity. Qed.

(** ** A first add *)

(** C10.  When no line of the cart carries the cylinder's id, [addToCart]
    appends a line for it with quantity 1 and raises no notice, whatever its
    stock: the stock is only consulted for a cylinder that already has a
    line.  A cylinder with no stock at all enters the empty cart with
    quantity 1. *)
Theorem addToCart_new_line_ignores_stock (c : GasCylinder) (s : State)
  (Hnew : ~ In (id c) (cart_ids (cart s))) :
  cart (state_after (addToCart c) s) =
    (cart s ++ [{| cylinder := c; quantity := 1 |}])%list /\
  effects_of (addToCart c) s = [] /\
  (stockQuantity cylinder_sold_out = 0%Z /\
   cart (state_after (addToCart cylinder_sold_out) (initialState None)) =
     [{| cylinder := cylinder_sold_out; quantity := 1 |}]).
Proof.
  destruct (addToCart_runs_update c s) as [-> ->].
  rewrite (addToCart_update_new c (cart s) Hnew).
  repeat split; reflexivity.
Qed.

Lemma addToCart_new_line_ignores_stock_witness :
  ~ In (id cylinder_sold_out) (cart_ids (cart (initialState None))) /\
  cart (state_after (addToCart cylinder_sold_out) (initialState None)) =
    (cart (initialState None) ++ [{| cylinder := cylinder_sold_out; quantity := 1 |}])%list.
Proof.
  assert (Hnew : ~ In (id cylinder_sold_out) (cart_ids (cart (initialState None))))
    by (cbn; tauto).
  split; [exact Hnew |].
  apply (addToCart_new_line_ignores_stock cylinder_sold_out (initialState None) Hnew).
Defined.

(** ** After a successful order *)

(** C7, as stated, fails.  The customer fills the form with one cylinder in
    the cart and places the order; [createOrder] succeeds.  The
    acknowledgment is shown and the cart still holds the line; it still
    does after the customer chooses "View Orders". *)
Lemma successful_order_keeps_cart :
  cart (store form_filled) = [{| cylinder := cylinder_6kg; quantity := 1 |}] /\
  open_alerts order_accepted =
    [[{| text := "View Orders"; onPress := ViewOrders |};
      {| text := "New Order"; onPress := NewOrder |}]] /\
  submission_in_flight order_accepted = false /\
  cart (store order_accepted) = [{| cylinder := cylinder_6kg; quantity := 1 |}] /\
  cart (store order_accepted) <> [] /\
  open_alerts viewing_orders = [] /\
  cart (store viewing_orders) <> [].
Proof.
  vm_compute. repeat split; try reflexivity; intros E; discriminate E.
Qed.

(** C7, amended.  When [createOrder] succeeds, the acknowledgment "Order
    Placed!" is shown with the two choices "View Orders" and "New Order" and
    the busy flag is lowered; the cart and the instructions are left as they
    are.  Choosing "New Order" empties the cart, clears the instructions and
    starts a reload of the inventory with the token the order was placed
    with; the answer replaces the list by the available products in stock.
    Choosing "View Orders" navigates to the orders and changes no state. *)
Theorem successful_order_acknowledgment
  (toLocaleString : Z -> string) (token : option string) (t : string)
  (response : OrderResponse) (s : State)
  (Htoken : usable_token token = Some t) :
  let s' := state_after (placeOrder_resolved toLocaleString token (OrderCreated response)) s in
  (cart s' = cart s /\ instructions s' = instructions s /\ loading s' = false /\
   cylinders s' = cylinders s) /\
  (exists message,
     effects_of (placeOrder_resolved toLocaleString token (OrderCreated response)) s =
       [Alert "Order Placed!" message
          [{| text := "View Orders"; onPress := ViewOrders |};
           {| text := "New Order"; onPress := NewOrder |}]]) /\
  (let s'' := state_after (pressAlertButton token NewOrder) s' in
   cart s'' = [] /\ instructions s'' = "" /\ loading s'' = true /\
   effects_of (pressAlertButton token NewOrder) s' = [GetAllGasCylinders t] /\
   forall data,
     cylinders (state_after (loadCylinders_resolved (CylindersLoaded data)) s'') =
       filter (fun c => isAvailable c && (stockQuantity c >? 0)%Z) data /\
     cart (state_after (loadCylinders_resolved (CylindersLoaded data)) s'') = []) /\
  (state_after (pressAlertButton token ViewOrders) s' = s' /\
   effects_of (pressAlertButton token ViewOrders) s' = [RouterPush "/orders"]).
Proof.
  cbn zeta. destruct s. unfold pressAlertButton, loadCylinders. rewrite Htoken. cbn.
  repeat split; try reflexivity. eexists. reflexivity.
Qed.

Lemma successful_order_acknowledgment_witness :
  usable_token session_token = Some "token" /\
  cart (state_after (pressAlertButton session_token NewOrder) (store order_accepted)) = [] /\
  cart (store order_accepted) <> [].
Proof.
  split; [reflexivity |]. split.
  - pose proof (successful_order_acknowledgment string_of_Z session_token "token"
                  order_response (store (step string_of_Z form_filled PressPlaceOrder))
                  eq_refl) as H.
    cbn zeta in H. destruct H as (_ & _ & (Hcart & _) & _).
    exact Hcart.
  - vm_compute. intros E. discriminate E.
Defined.

(** ** Reverse geocoding *)

Lemma trimEnd_clean (s : string) (c : ascii) :
  last_char s = Some c -> is_whitespace c = false -> trimEnd s = s.
Proof.
  induction s as [| a rest IH]; [discriminate |].
  intros Hlast Hc. cbn [trimEnd].
  destruct rest as [| b rest'].
  - cbn in Hlast. injection Hlast as ->. cbn. rewrite Hc. reflexivity.
  - change (last_char (String a (String b rest'))) with (last_char (String b rest')) in Hlast.
    rewrite (IH Hlast Hc). reflexivity.
Qed.

(** [trim] leaves alone what has no whitespace at either end. *)
Lemma trim_clean (s : string) :
  no_outer_whitespace s = true -> trim s = s /\ truthy s = true.
Proof.
  unfold no_outer_whitespace, trim.
  destruct s as [| a rest]; [discriminate |]. cbn [first_char].
  destruct (last_char (String a rest)) as [b |] eqn:Hlast; [| discriminate].
  intros H. apply andb_true_iff in H. destruct H as [Ha Hb].
  apply negb_true_iff in Ha. apply negb_true_iff in Hb.
  split; [| reflexivity].
  cbn [trimStart]. rewrite Ha. apply (trimEnd_clean _ b); assumption.
Qed.

Lemma truthy_length (s : string) :
  truthy s && (0 <? length s)%nat = truthy s.
Proof. destruct s; reflexivity. Qed.

(** C8, as stated, fails: the geocoder's only non-empty part is the name
    " Plot 5"; joined, the parts read " Plot 5", and the address set is
    "Plot 5". *)
Lemma reverse_geocode_trims_joined_parts :
  let s' := state_after
              (handleReverseGeocode_resolved (literal 35 2) (literal 3258 2)
                 (GeocodeResults (Some [address_leading_space])))
              (initialState None) in
  joined_parts address_leading_space = " Plot 5" /\
  deliveryAddress s' = "Plot 5" /\
  deliveryAddress s' <> joined_parts address_leading_space.
Proof.
  cbn zeta. split; [reflexivity |]. split; [reflexivity |].
  vm_compute. intros E. discriminate E.
Qed.

(** C8, amended.  The handler only writes the delivery address.  From the
    first result it takes name, street, city, region, postal code and
    country in that order, drops the missing and empty ones, joins the rest
    with ", " and trims whitespace from both ends; when what remains is not
    empty it is the address (it is the joined parts themselves when they
    have no whitespace at either end).  When there is no result, when the
    trimmed text is empty, or when the geocoder throws, the address is
    "Lat: <lat to 4 decimals>, Lng: <lng to 4 decimals>"; no result for
    (0.35, 32.58) gives "Lat: 0.3500, Lng: 32.5800". *)
Theorem reverse_geocode_address
  (lat lng : number) (o : GeocodeOutcome) (s : State) :
  let s' := state_after (handleReverseGeocode_resolved lat lng o) s in
  let fallback := "Lat: " ++ toFixed lat 4 ++ ", Lng: " ++ toFixed lng 4 in
  deliveryAddress s' =
    match o with
    | GeocodeResults (Some (result :: _)) =>
        if truthy (trim (joined_parts result))
        then trim (joined_parts result) else fallback
    | _ => fallback
    end /\
  (forall result others,
      o = GeocodeResults (Some (result :: others)) ->
      no_outer_whitespace (joined_parts result) = true ->
      deliveryAddress s' = joined_parts result) /\
  (deliveryLat s' = deliveryLat s /\ deliveryLng s' = deliveryLng s /\
   selectedLocation s' = selectedLocation s /\ mapRegion s' = mapRegion s /\
   cart s' = cart s) /\
  (joined_parts address_full =
     "Plot 5, Kampala Road, Kampala, Central Region, 256, Uganda" /\
   joined_parts address_sparse = "Kampala Road, Uganda") /\
  deliveryAddress
    (state_after (handleReverseGeocode_resolved (literal 35 2) (literal 3258 2)
                    (GeocodeResults (Some []))) s)
  = "Lat: 0.3500, Lng: 32.5800".
Proof.
  cbn zeta.
  assert (Hmain :
    deliveryAddress (state_after (handleReverseGeocode_resolved lat lng o) s) =
    match o with
    | GeocodeResults (Some (result :: _)) =>
        if truthy (trim (joined_parts result))
        then trim (joined_parts result)
        else "Lat: " ++ toFixed lat 4 ++ ", Lng: " ++ toFixed lng 4
    | _ => "Lat: " ++ toFixed lat 4 ++ ", Lng: " ++ toFixed lng 4
    end).
  { unfold handleReverseGeocode_resolved, joined_parts, coordinate_label.
    destruct o as [[[| result others] |] |]; try (destruct s; reflexivity).
    rewrite truthy_length.
    destruct (truthy (trim (join ", " (filter_Boolean (address_parts result)))));
      destruct s; reflexivity. }
  split; [exact Hmain |]. split; [| split; [| split]].
  - intros result others -> Hclean. rewrite Hmain.
    destruct (trim_clean _ Hclean) as [-> ->]. reflexivity.
  - unfold handleReverseGeocode_resolved.
    destruct o as [[[| result others] |] |]; try (destruct s; repeat split; reflexivity).
    destruct (truthy _ && _); destruct s; repeat split; reflexivity.
  - split; reflexivity.
  - destruct s. vm_compute. reflexivity.
Qed.

Lemma reverse_geocode_address_witness :
  no_outer_whitespace (joined_parts address_full) = true /\
  deliveryAddress
    (state_after (handleReverseGeocode_resolved (literal 35 2) (literal 3258 2)
                    (GeocodeResults (Some [address_full]))) after_tap_at_1_2)
  = "Plot 5, Kampala Road, Kampala, Central Region, 256, Uganda".
Proof.
  split; [reflexivity |].
  apply (proj1 (proj2 (reverse_geocode_address (literal 35 2) (literal 3258 2)
                         (GeocodeResults (Some [address_full])) after_tap_at_1_2))
           address_full [] eq_refl eq_refl).
Defined.

(** ** Invariants of the reachable screens *)

Section Frames.

Context {A : Type} (get : State -> A).

Lemma keeps_ret {B : Type} (b : B) : keeps get (ret b).
Proof. intros s. reflexivity. Qed.

Lemma keeps_emit (e : effect) : keeps get (emit e).
Proof. intros s. reflexivity. Qed.

Lemma keeps_bind {B C : Type} (m : Handler B) (k : B -> Handler C) :
  keeps get m -> (forall b, keeps get (k b)) -> keeps get (bind m k).
Proof.
  intros Hm Hk s. unfold keeps, state_after, bind in *.
  specialize (Hm s). destruct (m s) as [[b s1] out1]. cbn in Hm.
  specialize (Hk b s1). destruct (k b s1) as [[c s2] out2]. cbn in *. congruence.
Qed.

End Frames.

Lemma keeps_addToCart {A : Type} (get : State -> A) (c : GasCylinder) :
  (forall next, keeps get (setCart next)) -> keeps get (addToCart c).
Proof.
  intros Hset s. unfold addToCart, state_after at 1.
  destruct (addToCart_update c (cart s)) as [next alerts]. cbn. apply Hset.
Qed.

Lemma keeps_updateQuantity {A : Type} (get : State -> A) (i : string) (change : Z) :
  (forall next, keeps get (setCart next)) -> keeps get (updateQuantity i change).
Proof.
  intros Hset s. unfold updateQuantity, state_after at 1.
  destruct (updateQuantity_update i change (cart s)) as [next alerts]. cbn. apply Hset.
Qed.

Ltac handler_head h :=
  match h with
  | ?f _ => handler_head f
  | _ => h
  end.

Ltac frame :=
  repeat match goal with
  | |- keeps _ (bind _ _) => apply keeps_bind; [| intros ?]
  | |- keeps _ (ret _) => apply keeps_ret
  | |- keeps _ (emit _) => apply keeps_emit
  | |- keeps _ (modify _) => let s := fresh "s" in intros s; destruct s; reflexivity
  | |- keeps _ (addToCart _) => apply keeps_addToCart; intros ?
  | |- keeps _ (updateQuantity _ _) => apply keeps_updateQuantity; intros ?
  | |- keeps _ (if ?b then _ else _) => destruct b
  | |- keeps _ (match ?x with _ => _ end) => destruct x
  | |- keeps _ ?h => let f := handler_head h in progress unfold f
  end.

Lemma updateQuantity_update_nodup (i : string) (change : Z) (prev : list CartItem) :
  NoDup (cart_ids prev) -> NoDup (cart_ids (fst (updateQuantity_update i change prev))).
Proof.
  induction prev as [| item rest IH]; cbn; [tauto |].
  intros Hnd. inversion Hnd as [| ? ? Hnotin Hnd']; subst.
  specialize (IH Hnd').
  pose proof (updateQuantity_line_cylinder i change item) as Hcyl.
  pose proof (updateQuantity_update_ids i change rest (id (cylinder item))) as Hids.
  destruct (updateQuantity_line i change item) as [line alerts].
  destruct (updateQuantity_update i change rest) as [rest' alerts'].
  cbn in *. destruct line as [l |]; cbn; [| exact IH].
  constructor; [| exact IH]. rewrite (Hcyl l eq_refl). intros Hin. apply Hnotin, Hids, Hin.
Qed.

Lemma addToCart_update_nodup (c : GasCylinder) (prev : list CartItem) :
  NoDup (cart_ids prev) -> NoDup (cart_ids (fst (addToCart_update c prev))).
Proof.
  intros Hnd. unfold addToCart_update.
  destruct (find (same_id (id c)) prev) as [existing |] eqn:Hfind.
  - destruct (quantity existing >=? stockQuantity c)%Z; cbn [fst]; [exact Hnd |].
    rewrite (cart_ids_map_with_quantity (fun item => (quantity item + 1)%Z)). exact Hnd.
  - cbn [fst]. apply find_same_id_none in Hfind.
    unfold cart_ids. rewrite map_app. cbn. apply NoDup_snoc; assumption.
Qed.


Section Invariants.

Variable toLocaleString : Z -> string.

Lemma store_step (sc : Screen) (ev : event) :
  store (step toLocaleString sc ev) =
  match dispatch toLocaleString sc ev with
  | Some (_, h) => state_after h (store sc)
  | None => store sc
  end.
Proof.
  unfold step. destruct (dispatch toLocaleString sc ev) as [[k h] |]; [| reflexivity].
  destruct ev; reflexivity.
Qed.

(** A property of the store that every event keeps holds along every run. *)
Lemma run_invariant (P : State -> Prop) :
  (forall sc ev, P (store sc) -> P (store (step toLocaleString sc ev))) ->
  forall events sc, P (store sc) -> P (store (run toLocaleString sc events)).
Proof.
  intros Hstep events. induction events as [| ev rest IH]; intros sc H; [exact H |].
  cbn. apply IH. apply Hstep. exact H.
Qed.

Lemma keeps_invariant {A : Type} (get : State -> A) (P : A -> Prop)
  (h : Handler unit) (s : State) :
  keeps get h -> P (get s) -> P (get (state_after h s)).
Proof. intros Hk H. rewrite Hk. exact H. Qed.

(** *** Properties of the cart *)

(** A property of carts that holds of the empty cart and is kept by the two
    updaters is kept by every event. *)
Lemma step_cart_property (P : list CartItem -> Prop) :
  P [] ->
  (forall c prev, P prev -> P (fst (addToCart_update c prev))) ->
  (forall i change prev, P prev -> P (fst (updateQuantity_update i change prev))) ->
  forall sc ev,
    P (cart (store sc)) -> P (cart (store (step toLocaleString sc ev))).
Proof.
  intros Hempty Hadd Hupdate sc ev H. rewrite store_step.
  destruct (dispatch toLocaleString sc ev) as [[k h] |] eqn:Hd; [| exact H].
  destruct ev; unfold dispatch, resume in Hd;
    repeat match type of Hd with
           | context [if ?b then _ else _] => destruct b
           | context [match ?x with _ => _ end] => destruct x
           end;
    try discriminate Hd; injection Hd as <- <-;
    lazymatch goal with
    | |- P (cart (state_after (addToCart ?c) _)) =>
        rewrite (proj1 (addToCart_runs_update c (store sc))); apply Hadd; exact H
    | |- P (cart (state_after (updateQuantity ?i ?change) _)) =>
        rewrite (proj1 (updateQuantity_runs_update i change (store sc)));
        apply Hupdate; exact H
    | |- P (cart (state_after (pressAlertButton _ ?a) _)) =>
        destruct a;
        [ exact H | exact H
        | unfold pressAlertButton, loadCylinders;
          destruct (usable_token (screen_token sc)); destruct (store sc); exact Hempty ]
    | |- _ => apply (keeps_invariant cart P); [frame | exact H]
    end.
Qed.

Lemma updateQuantity_update_positive (i : string) (change : Z) (prev : list CartItem) :
  Forall (fun item => (1 <= quantity item)%Z) prev ->
  Forall (fun item => (1 <= quantity item)%Z) (fst (updateQuantity_update i change prev)).
Proof.
  induction prev as [| item rest IH]; cbn; [tauto |].
  intros Hall. inversion Hall as [| ? ? Hitem Hrest]; subst. specialize (IH Hrest).
  unfold updateQuantity_line.
  destruct (updateQuantity_update i change rest) as [rest' alerts'].
  destruct (same_id i item); [| constructor; assumption].
  cbn zeta. destruct (quantity item + change <=? 0)%Z eqn:Hle; [exact IH |].
  apply Z.leb_gt in Hle.
  destruct (quantity item + change >? stockQuantity (cylinder item))%Z; cbn;
    constructor; try assumption. cbn. lia.
Qed.

Lemma addToCart_update_positive (c : GasCylinder) (prev : list CartItem) :
  Forall (fun item => (1 <= quantity item)%Z) prev ->
  Forall (fun item => (1 <= quantity item)%Z) (fst (addToCart_update c prev)).
Proof.
  intros Hall. unfold addToCart_update.
  destruct (find (same_id (id c)) prev) as [existing |].
  - destruct (quantity existing >=? stockQuantity c)%Z; cbn [fst]; [exact Hall |].
    apply Forall_forall. intros l Hl. apply in_map_iff in Hl.
    destruct Hl as [item [<- Hitem]].
    pose proof (proj1 (Forall_forall _ _) Hall item Hitem) as Hq. cbn in Hq.
    destruct (same_id (id c) item); cbn; lia.
  - cbn [fst]. apply Forall_app. split; [exact Hall |].
    constructor; [cbn; lia | constructor].
Qed.

(** *** Only validated coordinates *)

Lemma location_valid_position (snapshot : State) (o : PositionOutcome) (s : State) :
  location_valid s ->
  location_valid (state_after (requestLocationPermission_position snapshot o) s).
Proof.
  unfold location_valid, requestLocationPermission_position, updateMapRegion.
  destruct o as [lat lng |]; [| tauto].
  destruct (validateCoordinates lat lng) eqn:E; [| tauto].
  destruct (negb (truthy (deliveryLat snapshot)) || negb (truthy (deliveryLng snapshot)));
    destruct s; cbn; intros _; split; exact E.
Qed.

Lemma location_valid_picker_position (o : PositionOutcome) (s : State) :
  location_valid s ->
  location_valid (state_after (getCurrentLocation_position o) s).
Proof.
  unfold location_valid, getCurrentLocation_position, updateMapRegion.
  destruct o as [lat lng |]; [| tauto].
  destruct (validateCoordinates lat lng) eqn:E; [| tauto].
  destruct s; cbn; intros _; split; exact E.
Qed.

Lemma location_valid_onMapPress (coordinate : option LatLng) (s : State) :
  location_valid s ->
  location_valid (state_after (onMapPress coordinate) s).
Proof.
  unfold location_valid, onMapPress.
  destruct coordinate as [c |]; [| tauto].
  destruct (validateCoordinates (latitude c) (longitude c)) eqn:E; [| tauto].
  destruct s; cbn; intros [_ H]; split; [exact E | exact H].
Qed.

Lemma location_valid_frame (h : Handler unit) (s : State) :
  keeps selectedLocation h -> keeps mapRegion h ->
  location_valid s -> location_valid (state_after h s).
Proof.
  unfold location_valid. intros Hs Hm. rewrite Hs, Hm. tauto.
Qed.

Lemma step_location_valid (sc : Screen) (ev : event) :
  location_valid (store sc) -> location_valid (store (step toLocaleString sc ev)).
Proof.
  intros H. rewrite store_step.
  destruct (dispatch toLocaleString sc ev) as [[k h] |] eqn:Hd; [| exact H].
  destruct ev; unfold dispatch, resume in Hd;
    repeat match type of Hd with
           | context [if ?b then _ else _] => destruct b
           | context [match ?x with _ => _ end] => destruct x
           end;
    try discriminate Hd; injection Hd as <- <-;
    lazymatch goal with
    | |- location_valid (state_after (requestLocationPermission_position _ _) _) =>
        apply location_valid_position; exact H
    | |- location_valid (state_after (getCurrentLocation_position _) _) =>
        apply location_valid_picker_position; exact H
    | |- location_valid (state_after (onMapPress _) _) =>
        apply location_valid_onMapPress; exact H
    | |- _ => apply location_valid_frame; [frame | frame | exact H]
    end.
Qed.

(** X1.  Along every run from mount the cart has one line per product and every
    line a quantity of at least 1; the marker and the region hold coordinates
    that pass the validator if those of the first render do. *)
Theorem reachable_screens (user : option User) (token : option string)
  (events : list event) :
  let sc := run toLocaleString (mount user token) events in
  cart_unique (store sc) /\
  Forall (fun item => (1 <= quantity item)%Z) (cart (store sc)) /\
  (location_valid (initialState user) -> location_valid (store sc)).
Proof.
  cbn zeta.
  assert (Hcart0 : cart (store (mount user token)) = []).
  { unfold mount, exec. cbn [store].
    apply (keeps_invariant cart (fun c => c = [])); [frame | reflexivity]. }
  split; [| split].
  - apply (run_invariant cart_unique).
    + apply (step_cart_property (fun c => NoDup (cart_ids c))).
      * constructor.
      * apply addToCart_update_nodup.
      * apply updateQuantity_update_nodup.
    + unfold cart_unique. rewrite Hcart0. constructor.
  - apply (run_invariant (fun s => Forall (fun item => (1 <= quantity item)%Z) (cart s))).
    + apply (step_cart_property (Forall (fun item => (1 <= quantity item)%Z))).
      * constructor.
      * apply addToCart_update_positive.
      * apply updateQuantity_update_positive.
    + rewrite Hcart0. constructor.
  - intros Hseed.
    apply (run_invariant location_valid step_location_valid).
    unfold mount, exec. cbn [store].
    apply location_valid_frame; [frame | frame | exact Hseed].
Qed.

End Invariants.

(** ** The fix of mount, in general *)

(** Whatever the user has typed since mount: when the position awaited by
    the mount effect settles with a valid fix and a text field of the mount
    render was empty, both live text fields are replaced by the fix. *)
Lemma fix_of_mount_replaces_live_fields
  (toLocaleString : Z -> string) (sc : Screen) (n : nat) (snapshot : State)
  (lat lng : number) :
  nth_error (awaited sc) n = Some (MountPositionRequest snapshot) ->
  deliveryLat snapshot = "" \/ deliveryLng snapshot = "" ->
  validateCoordinates lat lng = true ->
  let sc' := step toLocaleString sc (Settle n (Position (PositionFix lat lng))) in
  deliveryLat (store sc') = toString lat /\
  deliveryLng (store sc') = toString lng /\
  selectedLocation (store sc') = {| latitude := lat; longitude := lng |}.
Proof.
  intros Hawaited Hempty Hvalid. cbn zeta. rewrite store_step.
  unfold dispatch. rewrite Hawaited. cbn [resume].
  pose proof (requestLocationPermission_position_valid lat lng Hvalid snapshot (store sc))
    as (Hsel & _ & Htext).
  cbn zeta in Hsel, Htext.
  assert (Hcond : truthy (deliveryLat snapshot) && truthy (deliveryLng snapshot) = false).
  { destruct Hempty as [-> | ->]; [reflexivity | apply andb_false_r]. }
  rewrite Hcond in Htext. destruct Htext as [Hlat Hlng].
  split; [exact Hlat |]. split; [exact Hlng | exact Hsel].
Qed.

(* ================================================================== *)
(** * Part III: further properties of the screens *)
(* ================================================================== *)

(** ** Trimming *)

Lemma trimEnd_first (c : ascii) (rest : string) :
  is_whitespace c = false -> exists rest', trimEnd (String c rest) = String c rest'.
Proof.
  intros Hc. cbn [trimEnd]. destruct (trimEnd rest) as [| b rest'].
  - rewrite Hc. exists EmptyString. reflexivity.
  - exists (String b rest'). reflexivity.
Qed.

Lemma trimEnd_last (s : string) :
  trimEnd s = EmptyString \/
  exists c, last_char (trimEnd s) = Some c /\ is_whitespace c = false.
Proof.
  induction s as [| a rest IH]; [left; reflexivity |].
  cbn [trimEnd]. destruct (trimEnd rest) as [| b rest'] eqn:E.
  - destruct (is_whitespace a) eqn:Ha; [left; reflexivity |].
    right. exists a. split; [reflexivity | exact Ha].
  - right. destruct IH as [IH | [c [Hc Hw]]]; [discriminate IH |].
    exists c. split; [exact Hc | exact Hw].
Qed.

Lemma trimStart_first (s : string) :
  trimStart s = EmptyString \/
  exists c rest, trimStart s = String c rest /\ is_whitespace c = false.
Proof.
  induction s as [| a rest IH]; [left; reflexivity |].
  cbn [trimStart]. destruct (is_whitespace a) eqn:Ha; [exact IH |].
  right. exists a, rest. split; [reflexivity | exact Ha].
Qed.

(** What [trim] returns is empty or has no whitespace at either end. *)
Lemma trim_result (s : string) :
  trim s = EmptyString \/ no_outer_whitespace (trim s) = true.
Proof.
  unfold trim. destruct (trimStart_first s) as [-> | [a [rest [-> Ha]]]];
    [left; reflexivity |].
  right. destruct (trimEnd_first a rest Ha) as [rest' Hrest'].
  destruct (trimEnd_last (String a rest)) as [Hempty | [c [Hc Hw]]];
    [rewrite Hrest' in Hempty; discriminate Hempty |].
  rewrite Hrest' in *. unfold no_outer_whitespace. cbn [first_char].
  rewrite Hc, Ha, Hw. reflexivity.
Qed.

Lemma trim_idempotent (s : string) : trim (trim s) = trim s.
Proof.
  destruct (trim_result s) as [-> | H]; [reflexivity |].
  apply (proj1 (trim_clean _ H)).
Qed.

Lemma truthy_trim (s : string) :
  truthy (trim s) = true -> no_outer_whitespace (trim s) = true.
Proof.
  destruct (trim_result s) as [-> | H]; [discriminate | intros _; exact H].
Qed.

(** ** What [placeOrder] sends *)

Lemma order_payload_complete (u : User) (snapshot : State) :
  ToBoolean (canPlaceOrder snapshot) = true ->
  order_complete (order_payload u snapshot) /\
  map cylinderId (items (order_payload u snapshot)) = cart_ids (cart snapshot) /\
  map item_quantity (items (order_payload u snapshot)) = map quantity (cart snapshot).
Proof.
  intros Hgate.
  assert (Htrue : canPlaceOrder snapshot = JSBool true).
  { destruct (proj2 (canPlaceOrder_cases snapshot)) as [_ Hfalse].
    destruct (proj1 (canPlaceOrder_cases snapshot)) as [_ Hall].
    apply Hall.
    destruct (cart snapshot) eqn:Ec;
      [rewrite Hfalse in Hgate by (left; reflexivity); discriminate Hgate |].
    destruct (trim (deliveryAddress snapshot)) eqn:Ea;
      [rewrite Hfalse in Hgate by (right; left; reflexivity); discriminate Hgate |].
    destruct (validateCoordinates _ _) eqn:Ev;
      [| rewrite Hfalse in Hgate by (right; right; left; reflexivity); discriminate Hgate].
    destruct (loading snapshot) eqn:El;
      [rewrite Hfalse in Hgate by (right; right; right; reflexivity); discriminate Hgate |].
    repeat split; congruence. }
  apply (proj1 (canPlaceOrder_cases snapshot)) in Htrue.
  destruct Htrue as (Hcart & Haddr & Hvalid & _).
  unfold order_complete, order_payload. cbn.
  repeat split.
  - exact Hvalid.
  - apply truthy_trim. apply truthy_true_iff. exact Haddr.
  - destruct (cart snapshot); [congruence | discriminate].
  - destruct (truthy (trim (instructions snapshot))) eqn:Hi; [| exact I].
    apply truthy_trim. exact Hi.
  - unfold cart_ids. rewrite map_map. reflexivity.
  - rewrite map_map. reflexivity.
Qed.

(** X2.  [placeOrder] calls [createOrder] exactly when a user is signed in, a
    token is present and the gate is open, and then once, with the payload
    built from the render it was started in; that payload is complete and
    lists the lines of the cart in order; the busy flag is raised. *)
Theorem placeOrder_sends_only_complete_orders
  (user : option User) (token : option string) (snapshot s : State)
  (payload : CreateOrderPayload) (t : string)
  (Hsent : In (CreateOrder payload t) (effects_of (placeOrder user token snapshot) s)) :
  (exists u, user = Some u /\ payload = order_payload u snapshot /\
             customerId payload = user_id u) /\
  usable_token token = Some t /\
  ToBoolean (canPlaceOrder snapshot) = true /\
  order_complete payload /\
  map cylinderId (items payload) = cart_ids (cart snapshot) /\
  map item_quantity (items payload) = map quantity (cart snapshot) /\
  effects_of (placeOrder user token snapshot) s = [CreateOrder payload t] /\
  loading (state_after (placeOrder user token snapshot) s) = true.
Proof.
  revert Hsent. unfold placeOrder.
  destruct user as [u |]; [| cbn; intros [H | []]; discriminate H].
  destruct (usable_token token) as [t' |]; [| cbn; intros [H | []]; discriminate H].
  destruct (ToBoolean (canPlaceOrder snapshot)) eqn:Hgate;
    [| cbn; intros [H | []]; discriminate H].
  cbn [negb].
  destruct (validateCoordinates _ _) eqn:Hvalid;
    [| cbn; intros [H | []]; discriminate H].
  cbn [negb]. intros Hin.
  assert (Heq : CreateOrder (order_payload u snapshot) t' = CreateOrder payload t).
  { destruct s; cbn in Hin. destruct Hin as [H | []]. exact H. }
  injection Heq as <- <-.
  destruct (order_payload_complete u snapshot Hgate) as (Hc & Hids & Hq).
  split; [exists u; split; [reflexivity | split; reflexivity] |].
  split; [reflexivity |]. split; [reflexivity |]. split; [exact Hc |].
  split; [exact Hids |]. split; [exact Hq |].
  destruct s; split; reflexivity.
Qed.

Lemma placeOrder_sends_only_complete_orders_witness :
  In (CreateOrder (order_payload customer (store form_filled)) "token")
     (effects_of (placeOrder (Some customer) session_token (store form_filled))
                 (store form_filled)) /\
  order_complete (order_payload customer (store form_filled)).
Proof.
  assert (Hsent : In (CreateOrder (order_payload customer (store form_filled)) "token")
                     (effects_of (placeOrder (Some customer) session_token (store form_filled))
                                 (store form_filled))).
  { vm_compute. left. reflexivity. }
  split; [exact Hsent |].
  apply (placeOrder_sends_only_complete_orders _ _ _ _ _ _ Hsent).
Defined.

(** X3.  When [placeOrder] does not call [createOrder] it writes no state and
    shows one notice: "Error" when the user or the token is missing,
    "Incomplete Order" otherwise.  The notice "Invalid Coordinates" is never
    shown: the gate has already tested the coordinates. *)
Theorem placeOrder_refusals
  (user : option User) (token : option string) (snapshot s : State) :
  (forall message buttons,
      ~ In (Alert "Invalid Coordinates" message buttons)
           (effects_of (placeOrder user token snapshot) s)) /\
  ((forall payload t, ~ In (CreateOrder payload t)
                           (effects_of (placeOrder user token snapshot) s)) ->
   state_after (placeOrder user token snapshot) s = s /\
   effects_of (placeOrder user token snapshot) s =
     [if match user, usable_token token with Some _, Some _ => true | _, _ => false end
      then Alert "Incomplete Order" "Please fill all required fields and add items" []
      else Alert "Error" "Please log in first" []]).
Proof.
  unfold placeOrder.
  destruct user as [u |];
    [| split; [intros m b [H | []]; discriminate H | intros _; split; reflexivity]].
  destruct (usable_token token) as [t' |];
    [| split; [intros m b [H | []]; discriminate H | intros _; split; reflexivity]].
  destruct (ToBoolean (canPlaceOrder snapshot)) eqn:Hgate; cbn [negb];
    [| split; [intros m b [H | []]; discriminate H | intros _; split; reflexivity]].
  assert (Hvalid : validateCoordinates (parseFloat (deliveryLat snapshot))
                     (parseFloat (deliveryLng snapshot)) = true).
  { destruct (proj2 (canPlaceOrder_cases snapshot)) as [_ Hfalse].
    destruct (validateCoordinates _ _) eqn:E; [reflexivity |].
    rewrite Hfalse in Hgate by (right; right; left; reflexivity). discriminate Hgate. }
  rewrite Hvalid. cbn [negb]. split.
  - intros m b. destruct s; cbn. intros [H | []]. discriminate H.
  - intros Hnone. exfalso. apply (Hnone (order_payload u snapshot) t').
    destruct s. cbn. left. reflexivity.
Qed.

Lemma placeOrder_refusals_witness :
  state_after (placeOrder None session_token (store form_filled)) (store form_filled)
  = store form_filled.
Proof.
  apply (proj2 (placeOrder_refusals None session_token (store form_filled)
                  (store form_filled))).
  intros payload t [H | []]. discriminate H.
Defined.

(** ** A refused order *)

(** X4.  When [createOrder] fails the form is left as it was, so the user can
    retry: cart, address, coordinates, instructions, marker and inventory
    are untouched.  The notice "Order Failed" carries the server's message,
    or "Please try again" when there is none; a reload of the inventory is
    started exactly when the message mentions "stock" and a token is
    present; the busy flag is down afterwards, also while that reload is
    awaited. *)
Theorem failed_order_keeps_form
  (toLocaleString : Z -> string) (token : option string)
  (message : option string) (s : State) :
  let h := placeOrder_resolved toLocaleString token (OrderThrows message) in
  let s' := state_after h s in
  let text := match message with
              | Some m => if truthy m then m else "Please try again"
              | None => "Please try again"
              end in
  let reload := match message, usable_token token with
                | Some m, Some t => if includes m "stock" then [GetAllGasCylinders t] else []
                | _, _ => []
                end in
  (cart s' = cart s /\ deliveryAddress s' = deliveryAddress s /\
   deliveryLat s' = deliveryLat s /\ deliveryLng s' = deliveryLng s /\
   instructions s' = instructions s /\ selectedLocation s' = selectedLocation s /\
   cylinders s' = cylinders s /\ error s' = error s) /\
  loading s' = false /\
  effects_of h s =
    ([ConsoleError "Order placement error:"; Alert "Order Failed" text []] ++ reload)%list.
Proof.
  cbn zeta. unfold placeOrder_resolved, loadCylinders.
  destruct message as [m |]; [| destruct s; cbn; repeat split; reflexivity].
  destruct (includes m "stock");
    [| destruct (usable_token token); destruct s; cbn; repeat split; reflexivity].
  destruct (usable_token token) as [t |]; destruct s; cbn; repeat split; reflexivity.
Qed.

(** ** The busy flag and the inventory *)

Lemma existsb_remove_nth {A : Type} (f : A -> bool) (l : list A) (n : nat) (x : A) :
  nth_error l n = Some x -> f x = false -> existsb f (remove_nth n l) = existsb f l.
Proof.
  revert n. induction l as [| a rest IH]; intros n Hn Hx.
  - destruct n; discriminate Hn.
  - destruct n as [| k]; cbn in *.
    + injection Hn as ->. rewrite Hx. reflexivity.
    + rewrite (IH k Hn Hx). reflexivity.
Qed.

(** X5.  Whenever an awaited inventory load settles, with the list or with an
    error, the busy flag is lowered, whether or not a submission is in
    flight; the submission stays in flight and the cart is not touched. *)
Theorem inventory_settling_lowers_busy_flag
  (toLocaleString : Z -> string) (sc : Screen) (n : nat) (o : CylindersOutcome)
  (Hawaited : nth_error (awaited sc) n = Some CylindersRequest) :
  let sc' := step toLocaleString sc (Settle n (Cylinders o)) in
  loading (store sc') = false /\
  submission_in_flight sc' = submission_in_flight sc /\
  cart (store sc') = cart (store sc) /\
  (submission_in_flight sc = true ->
   cart (store sc) <> [] -> trim (deliveryAddress (store sc)) <> "" ->
   validateCoordinates (parseFloat (deliveryLat (store sc)))
                       (parseFloat (deliveryLng (store sc))) = true ->
   canPlaceOrder (store sc') = JSBool true).
Proof.
  cbn zeta.
  assert (Hstep : step toLocaleString sc (Settle n (Cylinders o)) =
                  exec (continuation (store sc) false) (loadCylinders_resolved o)
                       (settled n sc)).
  { unfold step, dispatch. rewrite Hawaited. reflexivity. }
  rewrite Hstep.
  assert (Hkeep : forall s,
    let s' := state_after (loadCylinders_resolved o) s in
    loading s' = false /\ cart s' = cart s /\ deliveryAddress s' = deliveryAddress s /\
    deliveryLat s' = deliveryLat s /\ deliveryLng s' = deliveryLng s /\
    effects_of (loadCylinders_resolved o) s = []).
  { intros s. destruct o; destruct s; cbn; repeat split; reflexivity. }
  destruct (Hkeep (store sc)) as (Hl & Hc & Ha & Hlat & Hlng & Heff). cbn zeta in *.
  assert (Hflight : submission_in_flight
                      (exec (continuation (store sc) false) (loadCylinders_resolved o)
                         (settled n sc)) = submission_in_flight sc).
  { unfold submission_in_flight, exec, settled. cbn [awaited store].
    rewrite Heff. cbn [continuations]. rewrite app_nil_r.
    apply (existsb_remove_nth _ _ _ _ Hawaited). reflexivity. }
  unfold exec at 1 3 4. cbn [store settled].
  split; [exact Hl |]. split; [exact Hflight |]. split; [exact Hc |].
  intros _ Hcart Haddr Hvalid.
  apply (proj1 (canPlaceOrder_cases _)).
  unfold exec. cbn [store settled]. rewrite Hc, Ha, Hlat, Hlng, Hl.
  repeat split; assumption.
Qed.

Lemma inventory_settling_lowers_busy_flag_witness :
  let before := run string_of_Z form_filled (order_refused ++ [PressPlaceOrder])%list in
  nth_error (awaited before) 0 = Some CylindersRequest /\
  submission_in_flight before = true /\
  loading (store before) = true /\
  loading (store (step string_of_Z before
                    (Settle 0 (Cylinders (CylindersLoaded [cylinder_6kg]))))) = false.
Proof.
  cbn zeta.
  assert (H : nth_error (awaited (run string_of_Z form_filled
                                    (order_refused ++ [PressPlaceOrder])%list)) 0
              = Some CylindersRequest) by (vm_compute; reflexivity).
  split; [exact H |]. split; [vm_compute; reflexivity |]. split; [vm_compute; reflexivity |].
  apply (inventory_settling_lowers_busy_flag string_of_Z _ 0
           (CylindersLoaded [cylinder_6kg]) H).
Defined.

(** ** What the screen sends to the backend *)

Section Effects.

Context (P : effect -> Prop).

Lemma emits_ret {B : Type} (b : B) : emits P (ret b).
Proof. intros s. constructor. Qed.

Lemma emits_emit (e : effect) : P e -> emits P (emit e).
Proof. intros H s. constructor; [exact H | constructor]. Qed.

Lemma emits_modify (f : State -> State) : emits P (modify f).
Proof. intros s. constructor. Qed.

Lemma emits_bind {B C : Type} (m : Handler B) (k : B -> Handler C) :
  emits P m -> (forall b, emits P (k b)) -> emits P (bind m k).
Proof.
  intros Hm Hk s. unfold emits, effects_of, bind in *.
  specialize (Hm s). destruct (m s) as [[b s1] out1]. cbn in Hm.
  specialize (Hk b s1). destruct (k b s1) as [[c s2] out2]. cbn in *.
  apply Forall_app. split; assumption.
Qed.

Lemma emits_addToCart (c : GasCylinder) :
  (forall stock, P (stock_limit_alert stock)) -> emits P (addToCart c).
Proof.
  intros Halert s. unfold effects_of, addToCart, addToCart_update.
  destruct (find (same_id (id c)) (cart s)) as [existing |]; [| constructor].
  destruct (quantity existing >=? stockQuantity c)%Z; cbn; [| constructor].
  constructor; [apply Halert | constructor].
Qed.

Lemma updateQuantity_update_alerts (i : string) (change : Z) (prev : list CartItem) :
  (forall stock, P (stock_limit_alert stock)) ->
  Forall P (snd (updateQuantity_update i change prev)).
Proof.
  intros Halert. induction prev as [| item rest IH]; cbn; [constructor |].
  unfold updateQuantity_line.
  destruct (updateQuantity_update i change rest) as [rest' alerts'].
  destruct (same_id i item); cbn zeta; [| exact IH].
  destruct (quantity item + change <=? 0)%Z; [exact IH |].
  destruct (quantity item + change >? stockQuantity (cylinder item))%Z; cbn; [| exact IH].
  constructor; [apply Halert | exact IH].
Qed.

Lemma emits_updateQuantity (i : string) (change : Z) :
  (forall stock, P (stock_limit_alert stock)) -> emits P (updateQuantity i change).
Proof.
  intros Halert s. unfold effects_of, updateQuantity.
  pose proof (updateQuantity_update_alerts i change (cart s) Halert) as H.
  destruct (updateQuantity_update i change (cart s)) as [next alerts]. exact H.
Qed.

End Effects.

Ltac effects :=
  repeat match goal with
  | |- emits _ (bind _ _) => apply emits_bind; [| intros ?]
  | |- emits _ (ret _) => apply emits_ret
  | |- emits _ (emit _) => apply emits_emit
  | |- emits _ (modify _) => apply emits_modify
  | |- emits _ (addToCart _) => apply emits_addToCart; intros ?
  | |- emits _ (updateQuantity _ _) => apply emits_updateQuantity; intros ?
  | |- emits _ (if ?b then _ else _) => destruct b eqn:?
  | |- emits _ (match ?x with _ => _ end) => destruct x eqn:?
  | |- emits _ ?h => let f := handler_head h in progress unfold f
  end.

Lemma emits_loadCylinders (user : option User) (token : option string) :
  emits (call_authorised user token) (loadCylinders token).
Proof. effects; try exact I. cbn. assumption. Qed.

Lemma emits_placeOrder (user : option User) (token : option string) (snapshot : State) :
  emits (call_authorised user token) (placeOrder user token snapshot).
Proof.
  unfold placeOrder.
  destruct user as [u |]; [| effects; exact I].
  destruct (usable_token token) as [t |] eqn:Ht; [| effects; exact I].
  destruct (ToBoolean (canPlaceOrder snapshot)) eqn:Hgate; cbn [negb]; [| effects; exact I].
  destruct (negb (validateCoordinates _ _)); [effects; exact I |].
  effects. cbn. split; [exact Ht |].
  split; [apply (order_payload_complete u snapshot Hgate) |].
  exists u. split; reflexivity.
Qed.

Lemma emits_no_order_loadCylinders (token : option string) :
  emits (fun e => is_order e = false) (loadCylinders token).
Proof. effects; reflexivity. Qed.

Lemma orders_sent_none (out : list effect) :
  Forall (fun e => is_order e = false) out -> orders_sent out = 0%nat.
Proof.
  unfold orders_sent. induction 1 as [| e rest He _ IH]; [reflexivity |].
  cbn. rewrite He. exact IH.
Qed.

Lemma orders_sent_placeOrder (user : option User) (token : option string)
  (snapshot s : State) :
  (orders_sent (effects_of (placeOrder user token snapshot) s) <= 1)%nat.
Proof.
  unfold placeOrder.
  destruct user as [u |]; [| cbn; lia].
  destruct (usable_token token) as [t |]; [| cbn; lia].
  destruct (negb (ToBoolean (canPlaceOrder snapshot))); [cbn; lia |].
  destruct (negb (validateCoordinates _ _)); [cbn; lia |].
  destruct s; cbn; lia.
Qed.

Ltac by_event Hd :=
  unfold dispatch, resume in Hd;
  repeat match type of Hd with
         | context [if ?b then _ else _] => destruct b
         | context [match ?x with _ => _ end] => destruct x
         end;
  try discriminate Hd; injection Hd as <- <-.

Section Calls.

Variable toLocaleString : Z -> string.

Lemma trace_step (sc : Screen) (ev : event) :
  trace (step toLocaleString sc ev) =
  match dispatch toLocaleString sc ev with
  | Some (_, h) => (trace sc ++ effects_of h (store sc))%list
  | None => trace sc
  end.
Proof.
  unfold step. destruct (dispatch toLocaleString sc ev) as [[k h] |]; [| reflexivity].
  destruct ev; reflexivity.
Qed.

Lemma session_step (sc : Screen) (ev : event) :
  screen_user (step toLocaleString sc ev) = screen_user sc /\
  screen_token (step toLocaleString sc ev) = screen_token sc.
Proof.
  unfold step. destruct (dispatch toLocaleString sc ev) as [[k h] |]; [| split; reflexivity].
  destruct ev; split; reflexivity.
Qed.

Lemma session_run (events : list event) (sc : Screen) :
  screen_user (run toLocaleString sc events) = screen_user sc /\
  screen_token (run toLocaleString sc events) = screen_token sc.
Proof.
  revert sc. induction events as [| ev rest IH]; intros sc; [split; reflexivity |].
  change (run toLocaleString sc (ev :: rest))
    with (run toLocaleString (step toLocaleString sc ev) rest).
  destruct (IH (step toLocaleString sc ev)) as [Hu Ht].
  destruct (session_step sc ev) as [Hu' Ht']. split; congruence.
Qed.

Lemma dispatch_calls_authorised (sc : Screen) (ev : event) k h :
  dispatch toLocaleString sc ev = Some (k, h) ->
  emits (call_authorised (screen_user sc) (screen_token sc)) h.
Proof.
  intros Hd.
  destruct ev; by_event Hd;
    lazymatch goal with
    | |- emits _ (placeOrder _ _ _) => apply emits_placeOrder
    | |- emits _ (loadCylinders _) => apply emits_loadCylinders
    | |- emits _ (pressAlertButton _ ?a) =>
        destruct a; unfold pressAlertButton;
        [ effects; exact I | effects; exact I
        | apply emits_bind; [effects |]; intros ?;
          apply emits_bind; [effects |]; intros ?; apply emits_loadCylinders ]
    | |- emits _ (placeOrder_resolved _ _ ?o) =>
        destruct o as [response | [m |]]; unfold placeOrder_resolved;
        [ effects; exact I
        | apply emits_bind; [effects; exact I |]; intros ?;
          apply emits_bind; [effects; exact I |]; intros ?;
          apply emits_bind; [| intros ?; effects];
          destruct (includes m "stock"); [apply emits_loadCylinders | effects]
        | effects; exact I ]
    | |- _ => effects; exact I
    end.
Qed.

Lemma dispatch_orders (sc : Screen) (ev : event) k h :
  dispatch toLocaleString sc ev = Some (k, h) ->
  (orders_sent (effects_of h (store sc)) <= if is_place_order_press ev then 1 else 0)%nat.
Proof.
  intros Hd.
  destruct ev; by_event Hd; cbn [is_place_order_press];
    lazymatch goal with
    | |- (orders_sent (effects_of (placeOrder _ _ _) _) <= 1)%nat =>
        apply orders_sent_placeOrder
    | |- (orders_sent (effects_of ?h _) <= 0)%nat =>
        assert (Hnone : emits (fun e => is_order e = false) h);
        [ try (destruct a); effects; reflexivity
        | rewrite (orders_sent_none _ (Hnone (store sc))); apply Nat.le_refl ]
    end.
Qed.

Lemma orders_sent_app (a b : list effect) :
  orders_sent (a ++ b) = (orders_sent a + orders_sent b)%nat.
Proof. unfold orders_sent. rewrite filter_app, length_app. reflexivity. Qed.

Lemma run_orders (events : list event) (sc : Screen) :
  (orders_sent (trace (run toLocaleString sc events))
   <= orders_sent (trace sc) + place_order_presses events)%nat.
Proof.
  revert sc. induction events as [| ev rest IH]; intros sc; [cbn; lia |].
  change (run toLocaleString sc (ev :: rest))
    with (run toLocaleString (step toLocaleString sc ev) rest).
  specialize (IH (step toLocaleString sc ev)).
  rewrite trace_step in IH.
  unfold place_order_presses in *. cbn [filter].
  destruct (dispatch toLocaleString sc ev) as [[k h] |] eqn:Hd.
  - pose proof (dispatch_orders sc ev k h Hd) as Hle.
    rewrite orders_sent_app in IH.
    destruct (is_place_order_press ev); cbn [List.length]; lia.
  - destruct (is_place_order_press ev); cbn [List.length]; lia.
Qed.

Lemma run_calls_authorised (events : list event) (sc : Screen) :
  Forall (call_authorised (screen_user sc) (screen_token sc)) (trace sc) ->
  Forall (call_authorised (screen_user sc) (screen_token sc))
         (trace (run toLocaleString sc events)).
Proof.
  revert sc. induction events as [| ev rest IH]; intros sc H; [exact H |].
  change (run toLocaleString sc (ev :: rest))
    with (run toLocaleString (step toLocaleString sc ev) rest).
  destruct (session_step sc ev) as [Hu Ht].
  rewrite <- Hu, <- Ht. apply IH. rewrite Hu, Ht, trace_step.
  destruct (dispatch toLocaleString sc ev) as [[k h] |] eqn:Hd; [| exact H].
  apply Forall_app. split; [exact H |].
  apply (dispatch_calls_authorised sc ev k h Hd).
Qed.

(** X6.  Along every run from mount, whatever the user does and however the
    awaited calls settle: every call to the backend carries the token of the
    session; every order sent is complete (validated coordinates, an address
    and instructions without outer whitespace, at least one item) and is
    placed for the signed-in user; and no more orders are sent than "Place
    Order" was pressed. *)
Theorem reachable_calls (user : option User) (token : option string)
  (events : list event) :
  let sc := run toLocaleString (mount user token) events in
  Forall (call_authorised user token) (trace sc) /\
  (orders_sent (trace sc) <= place_order_presses events)%nat.
Proof.
  cbn zeta. split.
  - apply (run_calls_authorised events (mount user token)).
    unfold mount, exec. cbn [trace screen_user screen_token app].
    assert (H : emits (call_authorised user token)
                  (loadCylinders token ;; requestLocationPermission)).
    { apply emits_bind; [apply emits_loadCylinders | intros ?; effects; exact I]. }
    apply H.
  - pose proof (run_orders events (mount user token)) as H.
    assert (H0 : orders_sent (trace (mount user token)) = 0%nat).
    { unfold mount, exec. cbn [trace app]. apply orders_sent_none.
      assert (Hnone : emits (fun e => is_order e = false)
                        (loadCylinders token ;; requestLocationPermission))
        by (effects; reflexivity).
      apply Hnone. }
    lia.
Qed.

End Calls.

(** ** The inventory and the lines of the cart *)

Lemma gas_cylinder_eqb_eq (a b : GasCylinder) : gas_cylinder_eqb a b = true -> a = b.
Proof.
  unfold gas_cylinder_eqb. intros H.
  apply andb_prop in H. destruct H as [H Havail].
  apply andb_prop in H. destruct H as [H Hstock].
  apply andb_prop in H. destruct H as [H Hprice].
  apply andb_prop in H. destruct H as [Hid Hname].
  apply String.eqb_eq in Hid, Hname. apply number_eqb_eq in Hprice.
  apply Z.eqb_eq in Hstock.
  apply Bool.eqb_prop in Havail.
  destruct a, b; cbn in *; congruence.
Qed.

Lemma existsb_gas_cylinder (c : GasCylinder) (l : list GasCylinder) :
  existsb (gas_cylinder_eqb c) l = true -> In c l.
Proof.
  intros H. apply existsb_exists in H. destruct H as [x [Hin Heq]].
  apply gas_cylinder_eqb_eq in Heq. subst x. exact Hin.
Qed.

Lemma loaded_cylinders_in_stock (data : list GasCylinder) :
  Forall in_stock (filter (fun c => isAvailable c && (stockQuantity c >? 0)%Z) data).
Proof.
  apply Forall_forall. intros c Hc. apply filter_In in Hc. destruct Hc as [_ Hc].
  apply andb_prop in Hc. destruct Hc as [Ha Hs]. apply Z.gtb_lt in Hs.
  split; [exact Ha | lia].
Qed.

Section LinesOfProducts.

Context (P : GasCylinder -> Prop).

Lemma addToCart_update_products (c : GasCylinder) (prev : list CartItem) :
  P c ->
  Forall (fun item => P (cylinder item)) prev ->
  Forall (fun item => P (cylinder item)) (fst (addToCart_update c prev)).
Proof.
  intros Hc Hall. unfold addToCart_update.
  destruct (find (same_id (id c)) prev) as [existing |].
  - destruct (quantity existing >=? stockQuantity c)%Z; cbn [fst]; [exact Hall |].
    apply Forall_forall. intros l Hl. apply in_map_iff in Hl.
    destruct Hl as [item [<- Hitem]].
    pose proof (proj1 (Forall_forall _ _) Hall item Hitem) as Hp. cbn in Hp.
    destruct (same_id (id c) item); exact Hp.
  - cbn [fst]. apply Forall_app. split; [exact Hall |].
    constructor; [exact Hc | constructor].
Qed.

Lemma updateQuantity_update_products (i : string) (change : Z) (prev : list CartItem) :
  Forall (fun item => P (cylinder item)) prev ->
  Forall (fun item => P (cylinder item)) (fst (updateQuantity_update i change prev)).
Proof.
  induction prev as [| item rest IH]; cbn; [tauto |].
  intros Hall. inversion Hall as [| ? ? Hitem Hrest]; subst. specialize (IH Hrest).
  unfold updateQuantity_line.
  destruct (updateQuantity_update i change rest) as [rest' alerts'].
  destruct (same_id i item); [| constructor; assumption].
  cbn zeta. destruct (quantity item + change <=? 0)%Z; [exact IH |].
  destruct (quantity item + change >? stockQuantity (cylinder item))%Z; cbn;
    constructor; assumption.
Qed.

End LinesOfProducts.

Section Inventory.

Variable toLocaleString : Z -> string.

Lemma inventory_ok_frame (h : Handler unit) (s : State) :
  keeps cylinders h -> keeps cart h -> inventory_ok s -> inventory_ok (state_after h s).
Proof. unfold inventory_ok. intros Hc Hk. rewrite Hc, Hk. tauto. Qed.

Lemma step_inventory_ok (sc : Screen) (ev : event) :
  inventory_ok (store sc) -> inventory_ok (store (step toLocaleString sc ev)).
Proof.
  intros H. rewrite store_step.
  destruct (dispatch toLocaleString sc ev) as [[k h] |] eqn:Hd; [| exact H].
  destruct ev;
    try (by_event Hd;
         lazymatch goal with
         | |- inventory_ok (state_after (updateQuantity ?i ?change) _) =>
             destruct H as [Hcyl Hcart]; split;
             [ rewrite (keeps_updateQuantity cylinders i change)
                 by (intros next s0; destruct s0; reflexivity);
               exact Hcyl
             | rewrite (proj1 (updateQuantity_runs_update i change (store sc)));
               apply updateQuantity_update_products; exact Hcart ]
         | |- inventory_ok (state_after (pressAlertButton _ ?a) _) =>
             destruct a;
             [ exact H | exact H
             | destruct H as [Hcyl _];
               unfold pressAlertButton, loadCylinders;
               destruct (usable_token (screen_token sc)); destruct (store sc);
               split; [exact Hcyl | constructor | exact Hcyl | constructor] ]
         | |- inventory_ok (state_after (loadCylinders_resolved ?o) _) =>
             destruct H as [Hcyl Hcart]; destruct o; destruct (store sc);
             split; cbn in *;
             first [ exact Hcart | apply loaded_cylinders_in_stock | exact Hcyl ]
         | |- inventory_ok (state_after (addToCart _) _) => fail
         | |- _ => apply inventory_ok_frame; [frame | frame | exact H]
         end).
  (* PressAdd: the button is one of those rendered for the list. *)
  unfold dispatch in Hd.
  destruct (form_visible sc && negb (loading (store sc)) &&
            existsb (gas_cylinder_eqb c) (cylinders (store sc))) eqn:Hguard;
    [| discriminate Hd].
  injection Hd as <- <-.
  apply andb_prop in Hguard. destruct Hguard as [_ Hlisted].
  apply existsb_gas_cylinder in Hlisted.
  destruct H as [Hcyl Hcart]. split.
  - rewrite (keeps_addToCart cylinders c)
      by (intros next s0; destruct s0; reflexivity).
    exact Hcyl.
  - rewrite (proj1 (addToCart_runs_update c (store sc))).
    apply addToCart_update_products; [| exact Hcart].
    apply (proj1 (Forall_forall _ _) Hcyl c Hlisted).
Qed.

(** X7.  Along every run from mount the list shown holds only products that
    are available with at least one unit in stock, and every line of the
    cart was added from such a product: it has a quantity of at least 1, a
    product that is available, and a recorded stock of at least 1.  On the
    screen a first add therefore never creates a line for a product without
    stock. *)
Theorem reachable_inventory (user : option User) (token : option string)
  (events : list event) :
  let s := store (run toLocaleString (mount user token) events) in
  Forall in_stock (cylinders s) /\
  Forall (fun item => in_stock (cylinder item) /\ (1 <= quantity item)%Z) (cart s).
Proof.
  cbn zeta.
  assert (Hinv : inventory_ok (store (run toLocaleString (mount user token) events))).
  { apply (run_invariant toLocaleString inventory_ok step_inventory_ok).
    unfold mount, exec. cbn [store].
    apply inventory_ok_frame; [frame | frame |].
    split; constructor. }
  assert (Hpos : Forall (fun item => (1 <= quantity item)%Z)
                   (cart (store (run toLocaleString (mount user token) events)))).
  { apply (run_invariant toLocaleString
             (fun s => Forall (fun item => (1 <= quantity item)%Z) (cart s))).
    - apply (step_cart_property toLocaleString (Forall (fun item => (1 <= quantity item)%Z))).
      + constructor.
      + apply addToCart_update_positive.
      + apply (updateQuantity_update_positive toLocaleString).
    - unfold mount, exec. cbn [store].
      apply (keeps_invariant cart (fun c => Forall _ c)); [frame | constructor]. }
  destruct Hinv as [Hcyl Hcart]. split; [exact Hcyl |].
  apply Forall_forall. intros item Hitem. split.
  - apply (proj1 (Forall_forall _ _) Hcart item Hitem).
  - apply (proj1 (Forall_forall _ _) Hpos item Hitem).
Qed.

(** *** The map *)

Lemma map_consistent_frame (h : Handler unit) (s : State) :
  keeps mapReady h -> keeps mapError h -> map_consistent s ->
  map_consistent (state_after h s).
Proof. unfold map_consistent. intros Hr He. rewrite Hr, He. tauto. Qed.

Lemma step_map_consistent (sc : Screen) (ev : event) :
  map_consistent (store sc) -> map_consistent (store (step toLocaleString sc ev)).
Proof.
  intros H. rewrite store_step.
  destruct (dispatch toLocaleString sc ev) as [[k h] |] eqn:Hd; [| exact H].
  destruct ev;
    try (by_event Hd;
         lazymatch goal with
         | |- map_consistent (state_after openMapPicker _) =>
             destruct (store sc); cbn; intros E; discriminate E
         | |- map_consistent (state_after onMapReady _) =>
             destruct (store sc); cbn; intros _; reflexivity
         | |- map_consistent (state_after mapLoadingTimeout _) => fail
         | |- _ => apply map_consistent_frame; [frame | frame | exact H]
         end).
  (* MapTimeout: the timer is only armed while the map is not ready. *)
  unfold dispatch in Hd.
  destruct (showMap (store sc) && negb (mapError (store sc)) && negb (mapReady (store sc)))
    eqn:Hguard; [| discriminate Hd].
  injection Hd as <- <-.
  apply andb_prop in Hguard. destruct Hguard as [_ Hready].
  destruct (store sc); cbn in *. unfold map_consistent. cbn. intros E. rewrite E in Hready. discriminate Hready.
Qed.

(** X8.  Along every run from mount the map is never both ready and in error:
    the loading timeout is armed only while the map has not reported ready,
    [onMapReady] clears the error, and opening the picker resets both. *)
Theorem reachable_map (user : option User) (token : option string)
  (events : list event) :
  let s := store (run toLocaleString (mount user token) events) in
  mapReady s && mapError s = false.
Proof.
  cbn zeta.
  assert (H : map_consistent (store (run toLocaleString (mount user token) events))).
  { apply (run_invariant toLocaleString map_consistent step_map_consistent).
    unfold mount, exec. cbn [store].
    apply map_consistent_frame; [frame | frame |].
    intros E. discriminate E. }
  unfold map_consistent in H.
  destruct (mapReady _); [rewrite H by reflexivity |]; reflexivity.
Qed.

End Inventory.

(** ** Two orders in flight *)

Lemma filter_remove_nth {A : Type} (f : A -> bool) (l : list A) (n : nat) (x : A) :
  nth_error l n = Some x -> f x = false -> filter f (remove_nth n l) = filter f l.
Proof.
  revert n. induction l as [| a rest IH]; intros n Hn Hx.
  - destruct n; discriminate Hn.
  - destruct n as [| k]; cbn in *.
    + injection Hn as ->. rewrite Hx. reflexivity.
    + rewrite (IH k Hn Hx). reflexivity.
Qed.

(** X9.  The busy flag does not serialise the orders.  Whenever an inventory
    load is awaited and the form is filled, the load settling lowers the
    flag, and a press of "Place Order" then sends an order built from the
    form, also when an earlier order is still awaited: one more order is in
    flight than before. *)
Theorem order_sent_after_inventory_settles
  (toLocaleString : Z -> string) (sc : Screen) (n : nat) (o : CylindersOutcome)
  (t : string)
  (Hawaited : nth_error (awaited sc) n = Some CylindersRequest)
  (Hform : form_visible sc = true)
  (Htoken : usable_token (screen_token sc) = Some t)
  (Hcart : cart (store sc) <> [])
  (Haddress : trim (deliveryAddress (store sc)) <> "")
  (Hvalid : validateCoordinates (parseFloat (deliveryLat (store sc)))
                                (parseFloat (deliveryLng (store sc))) = true) :
  let sc' := run toLocaleString sc [Settle n (Cylinders o); PressPlaceOrder] in
  exists u,
    screen_user sc = Some u /\
    trace sc' = (trace sc ++ [CreateOrder (order_payload u (store sc)) t])%list /\
    orders_in_flight sc' = S (orders_in_flight sc).
Proof.
  cbn zeta.
  assert (Huser : exists u, screen_user sc = Some u).
  { unfold form_visible in Hform. destruct (screen_user sc) as [u |];
      [exists u; reflexivity | discriminate Hform]. }
  destruct Huser as [u Hu]. exists u. split; [exact Hu |].
  set (sc1 := step toLocaleString sc (Settle n (Cylinders o))).
  assert (Hsc1 : sc1 = exec (continuation (store sc) false) (loadCylinders_resolved o)
                            (settled n sc)).
  { unfold sc1, step, dispatch. rewrite Hawaited. reflexivity. }
  assert (Hkeep : forall s,
    let s' := state_after (loadCylinders_resolved o) s in
    loading s' = false /\ cart s' = cart s /\ deliveryAddress s' = deliveryAddress s /\
    deliveryLat s' = deliveryLat s /\ deliveryLng s' = deliveryLng s /\
    instructions s' = instructions s /\ showMap s' = showMap s /\
    effects_of (loadCylinders_resolved o) s = []).
  { intros s. destruct o; destruct s; cbn; repeat split; reflexivity. }
  destruct (Hkeep (store sc)) as (Hl & Hc & Ha & Hlat & Hlng & Hi & Hm & Heff).
  cbn zeta in *.
  assert (Hstore1 : store sc1 = state_after (loadCylinders_resolved o) (store sc))
    by (rewrite Hsc1; reflexivity).
  assert (Hgate : canPlaceOrder (store sc1) = JSBool true).
  { apply (proj1 (canPlaceOrder_cases _)). rewrite Hstore1, Hc, Ha, Hlat, Hlng, Hl.
    repeat split; assumption. }
  assert (Hform1 : form_visible sc1 = true).
  { rewrite Hsc1. unfold form_visible, exec, settled in *.
    cbn [screen_user open_alerts store]. rewrite Heff. cbn [alerts_of].
    rewrite app_nil_r, Hm. exact Hform. }
  assert (Hpayload : order_payload u (store sc1) = order_payload u (store sc)).
  { unfold order_payload. rewrite Hstore1, Hc, Ha, Hlat, Hlng, Hi. reflexivity. }
  assert (Hrun : placeOrder (screen_user sc1) (screen_token sc1) (store sc1) =
                 (setLoading true ;;
                  emit (CreateOrder (order_payload u (store sc)) t))).
  { unfold placeOrder.
    replace (screen_user sc1) with (Some u) by (rewrite Hsc1; symmetry; exact Hu).
    replace (screen_token sc1) with (screen_token sc) by (rewrite Hsc1; reflexivity).
    rewrite Htoken, Hgate, Hpayload.
    replace (validateCoordinates _ _) with true
      by (rewrite Hstore1, Hlat, Hlng; symmetry; exact Hvalid).
    reflexivity. }
  change (run toLocaleString sc [Settle n (Cylinders o); PressPlaceOrder])
    with (step toLocaleString sc1 PressPlaceOrder).
  assert (Hstep : step toLocaleString sc1 PressPlaceOrder =
                  exec (continuation (store sc1) false)
                       (setLoading true ;;
                        emit (CreateOrder (order_payload u (store sc)) t)) sc1).
  { unfold step, dispatch. rewrite Hform1, Hgate. cbn [ToBoolean andb consume].
    rewrite Hrun. reflexivity. }
  rewrite Hstep.
  assert (Hout : effects_of (setLoading true ;;
                             emit (CreateOrder (order_payload u (store sc)) t)) (store sc1)
                 = [CreateOrder (order_payload u (store sc)) t])
    by (destruct (store sc1); reflexivity).
  unfold orders_in_flight, exec. cbn [trace awaited]. rewrite Hout.
  cbn [continuations continuation].
  rewrite Hsc1. unfold exec, settled. cbn [trace awaited store]. rewrite Heff.
  cbn [continuations]. rewrite !app_nil_r. split; [reflexivity |].
  rewrite filter_app, length_app.
  rewrite (filter_remove_nth _ _ _ _ Hawaited) by reflexivity.
  cbn. lia.
Qed.

Lemma order_sent_after_inventory_settles_witness :
  let before := run string_of_Z form_filled (order_refused ++ [PressPlaceOrder])%list in
  orders_in_flight before = 1%nat /\
  orders_in_flight
    (run string_of_Z before
       [Settle 0 (Cylinders (CylindersLoaded [cylinder_6kg])); PressPlaceOrder]) = 2%nat.
Proof.
  cbn zeta.
  set (before := run string_of_Z form_filled (order_refused ++ [PressPlaceOrder])%list).
  assert (H1 : orders_in_flight before = 1%nat) by (vm_compute; reflexivity).
  split; [exact H1 |].
  assert (Hawaited : nth_error (awaited before) 0 = Some CylindersRequest)
    by (vm_compute; reflexivity).
  assert (Hform : form_visible before = true) by (vm_compute; reflexivity).
  assert (Htoken : usable_token (screen_token before) = Some "token")
    by (vm_compute; reflexivity).
  assert (Hcart : cart (store before) <> []) by (vm_compute; discriminate).
  assert (Haddress : trim (deliveryAddress (store before)) <> "")
    by (vm_compute; discriminate).
  assert (Hvalid : validateCoordinates (parseFloat (deliveryLat (store before)))
                     (parseFloat (deliveryLng (store before))) = true)
    by (vm_compute; reflexivity).
  destruct (order_sent_after_inventory_settles string_of_Z before 0
              (CylindersLoaded [cylinder_6kg]) "token"
              Hawaited Hform Htoken Hcart Haddress Hvalid) as (u & _ & _ & Hcount).
  rewrite Hcount, H1. reflexivity.
Defined.

(** ** How the cart operations move the total *)

Lemma map_other_lines (i : string) (f : CartItem -> CartItem) (c : list CartItem) :
  ~ In i (cart_ids c) ->
  map (fun item => if same_id i item then f item else item) c = c.
Proof.
  induction c as [| x rest IH]; cbn; [reflexivity |].
  intros Hnotin. destruct (same_id i x) eqn:E.
  - apply same_id_true_iff in E. exfalso. apply Hnotin. left. exact E.
  - rewrite IH; [reflexivity |]. intros H. apply Hnotin. right. exact H.
Qed.

Lemma sum_after_increment (i : string) (prev : list CartItem) (t t' : Z) :
  NoDup (cart_ids prev) ->
  sum_of_line_amounts prev = Some t ->
  sum_of_line_amounts
    (map (fun item => if same_id i item
                      then with_quantity item (quantity item + 1) else item) prev)
  = Some t' ->
  match find (same_id i) prev with
  | Some existing =>
      exists p, whole (price (cylinder existing)) = Some p /\ t' = t + p
  | None => t' = t
  end.
Proof.
  revert t t'. induction prev as [| x rest IH]; intros t t' Hnd Hsum Hsum'.
  - cbn in *. congruence.
  - inversion Hnd as [| ? ? Hnotin Hnd']; subst.
    apply sum_of_line_amounts_cons in Hsum.
    destruct Hsum as (p & t0 & Hp & Hrest & Hq & ->).
    cbn [map find] in *. destruct (same_id i x) eqn:E.
    + apply same_id_true_iff in E.
      rewrite map_other_lines in Hsum' by (rewrite <- E; exact Hnotin).
      apply sum_of_line_amounts_cons in Hsum'.
      destruct Hsum' as (p' & t0' & Hp' & Hrest' & _ & ->).
      cbn [with_quantity cylinder quantity] in *.
      exists p. split; [exact Hp |].
      assert (p' = p) by congruence. assert (t0' = t0) by congruence. subst. lia.
    + apply sum_of_line_amounts_cons in Hsum'.
      destruct Hsum' as (p' & t0' & Hp' & Hrest' & _ & ->).
      assert (p' = p) by congruence. subst p'.
      specialize (IH t0 t0' Hnd' Hrest Hrest').
      destruct (find (same_id i) rest) as [existing |].
      * destruct IH as (pe & Hpe & ->). exists pe. split; [exact Hpe | lia].
      * subst t0'. reflexivity.
Qed.

Lemma sum_after_update (i : string) (change : Z) (prev : list CartItem) (t t' : Z) :
  NoDup (cart_ids prev) ->
  sum_of_line_amounts prev = Some t ->
  sum_of_line_amounts (fst (updateQuantity_update i change prev)) = Some t' ->
  match find (same_id i) prev with
  | Some line =>
      exists p,
        whole (price (cylinder line)) = Some p /\
        t' = t + (if (quantity line + change <=? 0)%Z then - (p * quantity line)
                  else if (quantity line + change >? stockQuantity (cylinder line))%Z then 0
                  else p * change)
  | None => t' = t
  end.
Proof.
  revert t t'. induction prev as [| x rest IH]; intros t t' Hnd Hsum Hsum'.
  - cbn in *. congruence.
  - inversion Hnd as [| ? ? Hnotin Hnd']; subst.
    apply sum_of_line_amounts_cons in Hsum.
    destruct Hsum as (p & t0 & Hp & Hrest & Hq & ->).
    cbn [updateQuantity_update find] in *. unfold updateQuantity_line in Hsum'.
    destruct (same_id i x) eqn:E.
    + apply same_id_true_iff in E.
      rewrite updateQuantity_update_absent in Hsum' by (rewrite <- E; exact Hnotin).
      cbn zeta in Hsum'. exists p. split; [exact Hp |].
      destruct (quantity x + change <=? 0)%Z.
      * cbn [fst] in Hsum'. assert (t' = t0) by congruence. lia.
      * destruct (quantity x + change >? stockQuantity (cylinder x))%Z; cbn [fst] in Hsum';
          apply sum_of_line_amounts_cons in Hsum';
          destruct Hsum' as (p' & t0' & Hp' & Hrest' & _ & ->);
          cbn [with_quantity cylinder quantity] in *;
          assert (p' = p) by congruence; assert (t0' = t0) by congruence; subst; lia.
    + destruct (updateQuantity_update i change rest) as [rest' alerts'] eqn:Hupd.
      cbn [fst] in *.
      apply sum_of_line_amounts_cons in Hsum'.
      destruct Hsum' as (p' & t0' & Hp' & Hrest' & _ & ->).
      assert (p' = p) by congruence. subst p'.
      specialize (IH t0 t0' Hnd' Hrest Hrest').
      destruct (find (same_id i) rest) as [line |].
      * destruct IH as (pl & Hpl & ->). exists pl. split; [exact Hpl | lia].
      * subst t0'. reflexivity.
Qed.

(** X10.  In a cart with one line per product, whole prices and an exact total
    below [2 ^ 53], before and after the operation, the total holds the
    exact sum and moves as follows.  [addToCart] raises it by the price
    recorded on the existing line (not by the price of the cylinder passed),
    by the price of the cylinder for a first add, and by nothing when the
    stock notice is raised; [updateQuantity] moves it by the line's price
    times the change, lowers it by the whole amount of the line when the
    line is removed, and leaves it when the stock notice is raised or no
    line has the id. *)
Theorem total_after_cart_operations (prev : list CartItem) (t : Z)
  (Hunique : NoDup (cart_ids prev))
  (Hwhole : sum_of_line_amounts prev = Some t)
  (Hbound : t < 2 ^ 53) :
  total prev = number_of_Z t /\
  (forall c t',
      sum_of_line_amounts (fst (addToCart_update c prev)) = Some t' -> t' < 2 ^ 53 ->
      total (fst (addToCart_update c prev)) = number_of_Z t' /\
      match find (same_id (id c)) prev with
      | Some existing =>
          if (quantity existing >=? stockQuantity c)%Z then t' = t
          else whole (price (cylinder existing)) = Some (t' - t)
      | None => whole (price c) = Some (t' - t)
      end) /\
  (forall i change t',
      sum_of_line_amounts (fst (updateQuantity_update i change prev)) = Some t' ->
      t' < 2 ^ 53 ->
      total (fst (updateQuantity_update i change prev)) = number_of_Z t' /\
      match find (same_id i) prev with
      | Some line =>
          exists p,
            whole (price (cylinder line)) = Some p /\
            t' = t + (if (quantity line + change <=? 0)%Z then - (p * quantity line)
                      else if (quantity line + change >? stockQuantity (cylinder line))%Z
                           then 0
                           else p * change)
      | None => t' = t
      end).
Proof.
  split; [apply total_of_whole_amounts; assumption |]. split.
  - intros c t' Hsum' Hbound'.
    split; [apply total_of_whole_amounts; assumption |].
    unfold addToCart_update in *.
    pose proof (sum_after_increment (id c) prev t) as Hinc.
    destruct (find (same_id (id c)) prev) as [existing |] eqn:Hfind.
    + destruct (quantity existing >=? stockQuantity c)%Z; cbn [fst] in Hsum'.
      * congruence.
      * destruct (Hinc t' Hunique Hwhole Hsum') as (p & Hp & ->).
        replace (t + p - t) with p by lia. exact Hp.
    + cbn [fst] in Hsum'. clear Hinc.
      assert (Happ : forall l a,
                sum_of_line_amounts l = Some a ->
                forall b, sum_of_line_amounts (l ++ [{| cylinder := c; quantity := 1 |}])
                          = Some b ->
                whole (price c) = Some (b - a)).
      { induction l as [| x rest IH]; intros a Ha b Hb.
        - injection Ha as <-. cbn [app] in Hb.
          apply sum_of_line_amounts_cons in Hb.
          destruct Hb as (p & t0 & Hp & H0 & _ & ->). cbn in H0, Hp |- *.
          injection H0 as <-. replace (p * 1 + 0 - 0) with p by lia. exact Hp.
        - cbn [app] in Hb.
          apply sum_of_line_amounts_cons in Ha. apply sum_of_line_amounts_cons in Hb.
          destruct Ha as (p & t0 & Hp & Hrest & _ & ->).
          destruct Hb as (p' & t0' & Hp' & Hrest' & _ & ->).
          assert (p' = p) by congruence. subst p'.
          replace (p * quantity x + t0' - (p * quantity x + t0)) with (t0' - t0) by lia.
          apply (IH t0 Hrest t0' Hrest'). }
      apply (Happ prev t Hwhole t' Hsum').
  - intros i change t' Hsum' Hbound'.
    split; [apply total_of_whole_amounts; assumption |].
    apply (sum_after_update i change prev t t' Hunique Hwhole Hsum').
Qed.

Lemma total_after_cart_operations_witness :
  let prev := [{| cylinder := cylinder_6kg; quantity := 2 |};
               {| cylinder := cylinder_13kg; quantity := 1 |}] in
  total prev = number_of_Z 320000 /\
  total (fst (addToCart_update cylinder_6kg_repriced prev)) = number_of_Z 405000 /\
  whole (price cylinder_6kg) = Some (405000 - 320000) /\
  total (fst (updateQuantity_update "c2" (-1) prev)) = number_of_Z 170000.
Proof.
  cbn zeta.
  set (prev := [{| cylinder := cylinder_6kg; quantity := 2 |};
                {| cylinder := cylinder_13kg; quantity := 1 |}]).
  assert (Hunique : NoDup (cart_ids prev)).
  { constructor; [intros [H | []]; discriminate H |].
    constructor; [intros [] | constructor]. }
  assert (Hwhole : sum_of_line_amounts prev = Some 320000) by (vm_compute; reflexivity).
  assert (Hbound : 320000 < 2 ^ 53) by reflexivity.
  destruct (total_after_cart_operations prev 320000 Hunique Hwhole Hbound)
    as (Htotal & Hadd & Hupdate).
  assert (Hsum1 : sum_of_line_amounts (fst (addToCart_update cylinder_6kg_repriced prev))
                  = Some 405000) by (vm_compute; reflexivity).
  assert (Hsum2 : sum_of_line_amounts (fst (updateQuantity_update "c2" (-1) prev))
                  = Some 170000) by (vm_compute; reflexivity).
  destruct (Hadd cylinder_6kg_repriced 405000 Hsum1 eq_refl) as [Hnew Hrise].
  destruct (Hupdate "c2" (-1) 170000 Hsum2 eq_refl) as [Hless _].
  split; [exact Htotal |]. split; [exact Hnew |]. split; [exact Hrise | exact Hless].
Defined.

(** ** Regular expressions *)

Module JSRegExpFacts.

Import JSRegExp.

Lemma append_empty_r (s : string) : s ++ "" = s.
Proof. induction s as [| c rest IH]; cbn; [reflexivity | rewrite IH; reflexivity]. Qed.

Lemma append_eq_empty (a b : string) : a ++ b = "" -> a = "" /\ b = "".
Proof. destruct a; cbn; [intros ->; split; reflexivity | discriminate]. Qed.

Lemma append_eq_cons (a b : string) (c : ascii) (s : string) :
  a ++ b = String c s ->
  (a = "" /\ b = String c s) \/ (exists a', a = String c a' /\ s = a' ++ b).
Proof.
  destruct a as [| x a']; cbn; intros H.
  - left. split; [reflexivity | exact H].
  - injection H as -> <-. right. exists a'. split; reflexivity.
Qed.

Lemma matches_never (s : string) : ~ Matches Never s.
Proof. intros H. remember Never as r eqn:Er. destruct H; discriminate Er. Qed.

Lemma matches_empty (s : string) : Matches Empty s <-> s = "".
Proof.
  split.
  - intros H. remember Empty as r eqn:Er. destruct H; try discriminate Er. reflexivity.
  - intros ->. constructor.
Qed.

Lemma matches_class (p : ascii -> bool) (s : string) :
  Matches (Class p) s <-> exists c, s = String c "" /\ p c = true.
Proof.
  split.
  - intros H. remember (Class p) as r eqn:Er. destruct H; try discriminate Er.
    injection Er as ->. eexists. split; [reflexivity | assumption].
  - intros [c [-> H]]. constructor. exact H.
Qed.

Lemma matches_seq (r1 r2 : regex) (s : string) :
  Matches (Seq r1 r2) s <-> exists s1 s2, s = s1 ++ s2 /\ Matches r1 s1 /\ Matches r2 s2.
Proof.
  split.
  - intros H. remember (Seq r1 r2) as r eqn:Er. destruct H; try discriminate Er.
    injection Er as -> ->. exists s1, s2. split; [reflexivity |]. split; assumption.
  - intros [s1 [s2 [-> [H1 H2]]]]. constructor; assumption.
Qed.

Lemma matches_alt (r1 r2 : regex) (s : string) :
  Matches (Alt r1 r2) s <-> Matches r1 s \/ Matches r2 s.
Proof.
  split.
  - intros H. remember (Alt r1 r2) as r eqn:Er. destruct H; try discriminate Er;
      injection Er as -> ->; [left | right]; assumption.
  - intros [H | H]; [apply MAltL | apply MAltR]; exact H.
Qed.

Lemma nullable_spec (r : regex) : nullable r = true <-> Matches r "".
Proof.
  induction r as [| | p | r1 IH1 r2 IH2 | r1 IH1 r2 IH2 | r IH]; cbn.
  - split; [discriminate | intros H; destruct (matches_never _ H)].
  - split; [intros _; constructor | reflexivity].
  - split; [discriminate |]. intros H. apply matches_class in H.
    destruct H as [c [H _]]. discriminate H.
  - rewrite andb_true_iff, IH1, IH2, matches_seq. split.
    + intros [H1 H2]. exists "", "". split; [reflexivity |]. split; assumption.
    + intros [s1 [s2 [Heq [H1 H2]]]]. symmetry in Heq.
      apply append_eq_empty in Heq. destruct Heq as [-> ->]. split; assumption.
  - rewrite orb_true_iff, IH1, IH2, matches_alt. reflexivity.
  - split; [intros _; constructor | reflexivity].
Qed.

Lemma star_cons (r : regex) (c : ascii) (s : string) :
  Matches (Star r) (String c s) ->
  exists s1 s2, s = s1 ++ s2 /\ Matches r (String c s1) /\ Matches (Star r) s2.
Proof.
  intros H. remember (Star r) as r' eqn:Er. remember (String c s) as t eqn:Et.
  revert s Et.
  induction H as [| | | | | | r0 s1 s2 H1 _ H2 IH2]; intros tail Et; try discriminate.
  injection Er as ->.
  apply append_eq_cons in Et. destruct Et as [[-> ->] | [a' [-> ->]]].
  - apply (IH2 eq_refl tail eq_refl).
  - exists a', s2. split; [reflexivity |]. split; assumption.
Qed.

Lemma derive_spec (r : regex) (c : ascii) (s : string) :
  Matches (derive c r) s <-> Matches r (String c s).
Proof.
  revert s.
  induction r as [| | p | r1 IH1 r2 IH2 | r1 IH1 r2 IH2 | r IH]; intros s; cbn.
  - split; intros H; destruct (matches_never _ H).
  - split; intros H; [destruct (matches_never _ H) |].
    apply matches_empty in H. discriminate H.
  - rewrite matches_class. destruct (p c) eqn:E.
    + rewrite matches_empty. split.
      * intros ->. exists c. split; [reflexivity | exact E].
      * intros [c' [Heq _]]. injection Heq as _ ->. reflexivity.
    + split; [intros H; destruct (matches_never _ H) |].
      intros [c' [Heq Hc']]. injection Heq as -> _. congruence.
  - assert (Hseq : Matches (Seq (derive c r1) r2) s <->
                   exists s1 s2, s = s1 ++ s2 /\ Matches r1 (String c s1) /\ Matches r2 s2).
    { rewrite matches_seq. split; intros [s1 [s2 [-> [H1 H2]]]]; exists s1, s2;
        (split; [reflexivity |]); (split; [apply IH1; exact H1 | exact H2]). }
    assert (Hsplit : Matches (Seq r1 r2) (String c s) <->
                     (exists s1 s2, s = s1 ++ s2 /\ Matches r1 (String c s1) /\ Matches r2 s2)
                     \/ (Matches r1 "" /\ Matches r2 (String c s))).
    { rewrite matches_seq. split.
      - intros [s1 [s2 [Heq [H1 H2]]]]. symmetry in Heq.
        apply append_eq_cons in Heq. destruct Heq as [[-> ->] | [a' [-> ->]]].
        + right. split; assumption.
        + left. exists a', s2. split; [reflexivity |]. split; assumption.
      - intros [[s1 [s2 [-> [H1 H2]]]] | [H1 H2]].
        + exists (String c s1), s2. split; [reflexivity |]. split; assumption.
        + exists "", (String c s). split; [reflexivity |]. split; assumption. }
    rewrite Hsplit. destruct (nullable r1) eqn:En.
    + rewrite matches_alt, Hseq, IH2. apply nullable_spec in En. tauto.
    + rewrite Hseq. split; [tauto |]. intros [H | [Hn _]]; [exact H |].
      apply nullable_spec in Hn. congruence.
  - rewrite !matches_alt, IH1, IH2. reflexivity.
  - rewrite matches_seq. split.
    + intros [s1 [s2 [-> [H1 H2]]]]. apply IH in H1.
      apply (MStarMore r (String c s1) s2 H1 H2).
    + intros H. apply star_cons in H. destruct H as [s1 [s2 [-> [H1 H2]]]].
      exists s1, s2. split; [reflexivity |]. split; [apply IH; exact H1 | exact H2].
Qed.

(** [test] decides membership in the language of the pattern. *)
Lemma test_spec (r : regex) (s : string) : test r s = true <-> Matches r s.
Proof.
  revert r. induction s as [| c rest IH]; intros r; cbn.
  - apply nullable_spec.
  - rewrite IH. apply derive_spec.
Qed.

Lemma matches_star_class (p : ascii -> bool) (s : string) :
  Matches (Star (Class p)) s <-> all_chars p s = true.
Proof.
  split.
  - intros H. remember (Star (Class p)) as r eqn:Er.
    induction H as [| | | | | | r0 s1 s2 H1 _ H2 IH2]; try discriminate; [reflexivity |].
    injection Er as ->. apply matches_class in H1. destruct H1 as [c [-> Hc]]. cbn.
    rewrite (IH2 eq_refl), Hc. reflexivity.
  - induction s as [| c rest IH]; cbn; [intros _; constructor |].
    intros H. apply andb_prop in H. destruct H as [Hc Hrest].
    apply (MStarMore (Class p) (String c "") rest); [constructor; exact Hc | apply IH, Hrest].
Qed.

Lemma matches_plus_class (p : ascii -> bool) (s : string) :
  Matches (Plus (Class p)) s <-> s <> "" /\ all_chars p s = true.
Proof.
  unfold Plus. rewrite matches_seq. split.
  - intros [s1 [s2 [-> [H1 H2]]]]. apply matches_class in H1. destruct H1 as [c [-> Hc]].
    apply matches_star_class in H2. cbn. rewrite Hc, H2. split; [discriminate | reflexivity].
  - intros [Hne Hall]. destruct s as [| c rest]; [congruence |].
    cbn in Hall. apply andb_prop in Hall. destruct Hall as [Hc Hrest].
    exists (String c ""), rest. split; [reflexivity |].
    split; [constructor; exact Hc | apply matches_star_class, Hrest].
Qed.

Lemma matches_times_class (n : nat) (p : ascii -> bool) (s : string) :
  Matches (Times n (Class p)) s <-> length s = n /\ all_chars p s = true.
Proof.
  revert s. induction n as [| k IH]; intros s; cbn [Times].
  - rewrite matches_empty. split.
    + intros ->. split; reflexivity.
    + intros [Hl _]. destruct s; [reflexivity | discriminate Hl].
  - rewrite matches_seq. split.
    + intros [s1 [s2 [-> [H1 H2]]]]. apply matches_class in H1. destruct H1 as [c [-> Hc]].
      apply IH in H2. destruct H2 as [Hl Hall]. cbn. rewrite Hc, Hall, Hl.
      split; reflexivity.
    + intros [Hl Hall]. destruct s as [| c rest]; [discriminate Hl |].
      cbn in Hl, Hall. injection Hl as Hl. apply andb_prop in Hall.
      destruct Hall as [Hc Hrest].
      exists (String c ""), rest. split; [reflexivity |].
      split; [constructor; exact Hc | apply IH; split; assumption].
Qed.

Lemma matches_literally (ch : ascii) (s : string) :
  Matches (literally ch) s <-> s = String ch "".
Proof.
  unfold literally. rewrite matches_class. split.
  - intros [c [-> Hc]]. apply Ascii.eqb_eq in Hc. subst. reflexivity.
  - intros ->. exists ch. split; [reflexivity | apply Ascii.eqb_refl].
Qed.

End JSRegExpFacts.
(** ** The password reset screen *)

Lemma lower_char_whitespace (c : ascii) : is_whitespace (lower_char c) = is_whitespace c.
Proof. destruct c as [[] [] [] [] [] [] [] []]; reflexivity. Qed.

Lemma lower_char_not_space_or_at (c : ascii) :
  JSRegExp.not_space_or_at (lower_char c) = JSRegExp.not_space_or_at c.
Proof. destruct c as [[] [] [] [] [] [] [] []]; reflexivity. Qed.

Lemma lower_char_not_upper (c : ascii) : is_upper (lower_char c) = false.
Proof. destruct c as [[] [] [] [] [] [] [] []]; reflexivity. Qed.

Lemma toLowerCase_app (a b : string) :
  toLowerCase (a ++ b) = toLowerCase a ++ toLowerCase b.
Proof. induction a as [| c rest IH]; cbn; [reflexivity | rewrite IH; reflexivity]. Qed.

Lemma toLowerCase_empty (s : string) : toLowerCase s = "" <-> s = "".
Proof. destruct s; cbn; split; congruence. Qed.

Lemma trimStart_toLowerCase (s : string) :
  trimStart (toLowerCase s) = toLowerCase (trimStart s).
Proof.
  induction s as [| c rest IH]; cbn; [reflexivity |].
  rewrite lower_char_whitespace. destruct (is_whitespace c); [exact IH | reflexivity].
Qed.

Lemma trimEnd_toLowerCase (s : string) :
  trimEnd (toLowerCase s) = toLowerCase (trimEnd s).
Proof.
  induction s as [| c rest IH]; cbn; [reflexivity |].
  rewrite IH, lower_char_whitespace.
  destruct (trimEnd rest); cbn; [destruct (is_whitespace c) |]; reflexivity.
Qed.

Lemma trim_toLowerCase (s : string) : trim (toLowerCase s) = toLowerCase (trim s).
Proof. unfold trim. rewrite trimStart_toLowerCase, trimEnd_toLowerCase. reflexivity. Qed.

Lemma all_chars_toLowerCase (s : string) :
  all_chars JSRegExp.not_space_or_at (toLowerCase s) = all_chars JSRegExp.not_space_or_at s.
Proof.
  induction s as [| c rest IH]; cbn; [reflexivity |].
  rewrite IH, lower_char_not_space_or_at. reflexivity.
Qed.

Lemma toLowerCase_no_upper (s : string) :
  all_chars (fun c => negb (is_upper c)) (toLowerCase s) = true.
Proof.
  induction s as [| c rest IH]; cbn; [reflexivity |].
  rewrite IH, lower_char_not_upper. reflexivity.
Qed.

Module ForgotPasswordFacts.

Import JSRegExp JSRegExpFacts ForgotPassword.

(** X11.  [isValidEmail] accepts exactly the strings of the form
    local@domain.tld whose three parts are non-empty and hold neither
    whitespace nor "@". *)
Theorem isValidEmail_iff_well_formed (address : string) :
  isValidEmail address = true <-> well_formed_email address.
Proof.
  unfold isValidEmail, emailRegex, well_formed_email. rewrite test_spec, matches_seq.
  split.
  - intros (a & rest1 & -> & Ha & H1).
    apply matches_seq in H1. destruct H1 as (at_sign & rest2 & -> & Hat & H2).
    apply matches_seq in H2. destruct H2 as (b & rest3 & -> & Hb & H3).
    apply matches_seq in H3. destruct H3 as (dot & c & -> & Hdot & Hc).
    apply matches_literally in Hat, Hdot. subst at_sign dot.
    apply matches_plus_class in Ha, Hb, Hc.
    exists a, b, c. cbn. repeat split; tauto.
  - intros (a & b & c & -> & Ha & Hb & Hc & Haa & Hbb & Hcc).
    exists a, ("@" ++ b ++ "." ++ c). split; [reflexivity |].
    split; [apply matches_plus_class; split; assumption |].
    apply matches_seq. exists "@", (b ++ "." ++ c). split; [reflexivity |].
    split; [apply matches_literally; reflexivity |].
    apply matches_seq. exists b, ("." ++ c). split; [reflexivity |].
    split; [apply matches_plus_class; split; assumption |].
    apply matches_seq. exists ".", c. split; [reflexivity |].
    split; [apply matches_literally; reflexivity |].
    apply matches_plus_class; split; assumption.
Qed.

Lemma well_formed_toLowerCase (address : string) :
  well_formed_email address -> well_formed_email (toLowerCase address).
Proof.
  intros (a & b & c & -> & Ha & Hb & Hc & Haa & Hbb & Hcc).
  exists (toLowerCase a), (toLowerCase b), (toLowerCase c).
  rewrite !toLowerCase_app, !all_chars_toLowerCase, !toLowerCase_empty.
  repeat split; assumption.
Qed.

Lemma sent_address_ok (typed : string) :
  isValidEmail (trim typed) = true ->
  isValidEmail (trim (toLowerCase typed)) = true /\
  all_chars (fun c => negb (is_upper c)) (trim (toLowerCase typed)) = true.
Proof.
  intros H. rewrite trim_toLowerCase. split; [| apply toLowerCase_no_upper].
  apply isValidEmail_iff_well_formed, well_formed_toLowerCase,
    isValidEmail_iff_well_formed, H.
Qed.

Lemma well_formed_not_empty (address : string) : well_formed_email address -> address <> "".
Proof.
  intros (a & b & c & -> & Ha & _). destruct a; [congruence | discriminate].
Qed.

(** X12.  [handleSendResetCode] asks for a reset code exactly when the trimmed
    address is well formed, and then for the trimmed address in lower case,
    which is well formed too; otherwise it writes no state and shows one
    notice. *)
Theorem handleSendResetCode_request (snapshot s : State) :
  let typed := trim (email snapshot) in
  (well_formed_email typed ->
   handleSendResetCode snapshot s =
     (setIsLoading true s, [ForgotPasswordCall (toLowerCase typed)]) /\
   well_formed_email (toLowerCase typed) /\
   all_chars (fun c => negb (is_upper c)) (toLowerCase typed) = true) /\
  (~ well_formed_email typed ->
   exists message, handleSendResetCode snapshot s = (s, [Alert "Error" message []])).
Proof.
  cbn zeta. unfold handleSendResetCode. split.
  - intros Hwf.
    pose proof (well_formed_not_empty _ Hwf) as Hne. apply truthy_true_iff in Hne.
    rewrite Hne. apply isValidEmail_iff_well_formed in Hwf. rewrite Hwf. cbn [negb].
    rewrite trim_toLowerCase. split; [reflexivity |].
    split; [| apply toLowerCase_no_upper].
    apply well_formed_toLowerCase, isValidEmail_iff_well_formed, Hwf.
  - intros Hnot. destruct (truthy (trim (email snapshot))); cbn [negb];
      [| eexists; reflexivity].
    destruct (isValidEmail (trim (email snapshot))) eqn:E; cbn [negb];
      [| eexists; reflexivity].
    exfalso. apply Hnot, isValidEmail_iff_well_formed, E.
Qed.

Lemma handleSendResetCode_request_witness :
  well_formed_email (trim " Ada@Example.com ") /\
  handleSendResetCode (setEmail " Ada@Example.com " initialState) initialState =
    (setIsLoading true initialState, [ForgotPasswordCall "ada@example.com"]).
Proof.
  assert (Hwf : well_formed_email (trim " Ada@Example.com ")).
  { apply isValidEmail_iff_well_formed. vm_compute. reflexivity. }
  split; [exact Hwf |].
  apply (proj1 (handleSendResetCode_request (setEmail " Ada@Example.com " initialState)
                  initialState) Hwf).
Defined.

(** X13.  [handleResetPassword] sends the reset exactly when the trimmed code is
    four decimal digits, the new password has at least six characters and
    the confirmation equals it, and then with the trimmed code and the
    password as typed; otherwise it writes no state and shows one notice. *)
Theorem handleResetPassword_request (snapshot s : State) :
  let code := trim (resetCode snapshot) in
  let acceptable :=
    length code = 4%nat /\ all_chars is_digit code = true /\
    (6 <= length (newPassword snapshot))%nat /\
    newPassword snapshot = confirmPassword snapshot in
  (handleResetPassword snapshot s =
     (setIsLoading true s, [ResetPasswordCall code (newPassword snapshot)])
   <-> acceptable) /\
  (handleResetPassword snapshot s =
     (setIsLoading true s, [ResetPasswordCall code (newPassword snapshot)])
   \/ exists message, handleResetPassword snapshot s = (s, [Alert "Error" message []])).
Proof.
  cbn zeta. unfold handleResetPassword.
  destruct (truthy (trim (resetCode snapshot))) eqn:Hcode; cbn [negb].
  2:{ split; [| right; eexists; reflexivity].
      split; [intros H; discriminate H |].
      intros (Hl & _). destruct (trim (resetCode snapshot)); discriminate. }
  destruct (length (trim (resetCode snapshot)) =? 4)%nat eqn:Hlen; cbn [negb orb].
  2:{ split; [| right; eexists; reflexivity].
      split; [intros H; discriminate H |].
      intros (Hl & _). apply Nat.eqb_neq in Hlen. congruence. }
  apply Nat.eqb_eq in Hlen.
  destruct (test fourDigits (trim (resetCode snapshot))) eqn:Hdigits; cbn [negb].
  2:{ split; [| right; eexists; reflexivity].
      split; [intros H; discriminate H |].
      intros (Hl & Hd & _).
      assert (Ht : test fourDigits (trim (resetCode snapshot)) = true).
      { apply test_spec. unfold fourDigits, digit. apply matches_times_class.
        split; assumption. }
      congruence. }
  apply test_spec in Hdigits. unfold fourDigits, digit in Hdigits.
  apply matches_times_class in Hdigits. destruct Hdigits as [_ Hdigits].
  destruct (truthy (newPassword snapshot)) eqn:Hpw; cbn [negb].
  2:{ split; [| right; eexists; reflexivity].
      split; [intros H; discriminate H |].
      intros (_ & _ & Hsix & _). destruct (newPassword snapshot); [cbn in Hsix; lia |].
      discriminate Hpw. }
  destruct (length (newPassword snapshot) <? 6)%nat eqn:Hsix.
  { split; [| right; eexists; reflexivity].
    split; [intros H; discriminate H |].
    intros (_ & _ & H6 & _). apply Nat.ltb_lt in Hsix. lia. }
  apply Nat.ltb_ge in Hsix.
  destruct (String.eqb (newPassword snapshot) (confirmPassword snapshot)) eqn:Hsame;
    cbn [negb].
  2:{ split; [| right; eexists; reflexivity].
      split; [intros H; discriminate H |].
      intros (_ & _ & _ & Heq). apply String.eqb_neq in Hsame. congruence. }
  apply String.eqb_eq in Hsame.
  split; [| left; reflexivity].
  split; [intros _ | reflexivity]. repeat split; assumption.
Qed.

End ForgotPasswordFacts.
Module ForgotPasswordScreenFacts.

Import JSRegExp JSRegExpFacts ForgotPassword ForgotPasswordFacts.

Lemma enabled_idle (sc : Screen) :
  enabled sc = true -> one_call_at_a_time sc ->
  open_alerts sc = [] /\ isLoading (store sc) = false /\ awaited sc = [].
Proof.
  unfold enabled. intros He Hone.
  destruct (open_alerts sc); [| discriminate He].
  apply negb_true_iff in He.
  destruct Hone as [[Hl _] | [_ Ha]]; [congruence |].
  repeat split; assumption.
Qed.

Lemma reset_code_ok (code password confirmation : string) :
  (length code =? 4)%nat = true -> test fourDigits code = true ->
  (length password <? 6)%nat = false ->
  call_well_formed (ResetPasswordCall code password).
Proof.
  intros Hlen Hdigits Hsix. apply Nat.eqb_eq in Hlen. apply Nat.ltb_ge in Hsix.
  apply test_spec in Hdigits. unfold fourDigits, digit in Hdigits.
  apply matches_times_class in Hdigits. cbn. tauto.
Qed.

(** A handler that makes no call and leaves the busy flag alone. *)
Lemma reset_quiet_handler_ok (sc : Screen) (h : State -> State * list effect) :
  screen_ok sc ->
  isLoading (fst (h (store sc))) = isLoading (store sc) ->
  continuations (snd (h (store sc))) = [] ->
  Forall call_well_formed (snd (h (store sc))) ->
  (step (fst (h (store sc))) = 1%Z \/ step (fst (h (store sc))) = 2%Z) ->
  screen_ok (exec h sc).
Proof.
  intros (Htrace & Hone & _) Hload Hquiet Hout Hstep.
  unfold screen_ok, one_call_at_a_time, exec in *.
  destruct (h (store sc)) as [s' out]. cbn in *.
  rewrite Hquiet, app_nil_r, Hload.
  split; [apply Forall_app; split; assumption |]. split; assumption.
Qed.

(** A handler that raises the busy flag and makes one call, started while
    nothing is awaited. *)
Lemma reset_calling_handler_ok (sc : Screen) (h : State -> State * list effect) (a : awaiting) :
  screen_ok sc -> awaited sc = [] ->
  isLoading (fst (h (store sc))) = true ->
  continuations (snd (h (store sc))) = [a] ->
  Forall call_well_formed (snd (h (store sc))) ->
  step (fst (h (store sc))) = step (store sc) ->
  screen_ok (exec h sc).
Proof.
  intros (Htrace & _ & Hstep) Hidle Hload Hcall Hout Hs.
  unfold screen_ok, one_call_at_a_time, exec in *.
  destruct (h (store sc)) as [s' out]. cbn in *.
  rewrite Hcall, Hidle, Hload, Hs.
  split; [apply Forall_app; split; assumption |].
  split; [left; split; [reflexivity | exists a; reflexivity] | exact Hstep].
Qed.

Lemma reset_transition_ok (sc : Screen) (ev : event) :
  screen_ok sc -> screen_ok (transition sc ev).
Proof.
  intros Hok. unfold transition.
  destruct (dispatch sc ev) as [h |] eqn:Hd; [| exact Hok].
  pose proof Hok as (Htrace & Hone & Hstep).
  destruct ev; cbn [dispatch consume] in *;
    try (match type of Hd with
         | (if ?b then _ else _) = _ =>
             destruct b eqn:Hguard; [| discriminate Hd]
         end;
         injection Hd as <-;
         repeat match type of Hguard with
                | _ && _ = true => apply andb_prop in Hguard; destruct Hguard as [Hguard ?]
                end;
         destruct (enabled_idle sc Hguard Hone) as (Halerts & Hload & Hidle)).
  - (* ChangeEmail *)
    apply reset_quiet_handler_ok; cbn; try tauto; constructor.
  - apply reset_quiet_handler_ok; cbn; try tauto; constructor.
  - apply reset_quiet_handler_ok; cbn; try tauto; constructor.
  - apply reset_quiet_handler_ok; cbn; try tauto; constructor.
  - (* PressSendResetCode *)
    unfold handleSendResetCode.
    destruct (truthy (trim (email (store sc)))); cbn [negb];
      [| apply reset_quiet_handler_ok; cbn; try tauto; repeat constructor].
    destruct (isValidEmail (trim (email (store sc)))) eqn:Hvalid; cbn [negb];
      [| apply reset_quiet_handler_ok; cbn; try tauto; repeat constructor].
    apply (reset_calling_handler_ok sc _ ForgotPasswordRequest); cbn; try tauto; try reflexivity.
    constructor; [| constructor]. apply sent_address_ok, Hvalid.
  - (* PressResetPassword *)
    unfold handleResetPassword. cbn zeta.
    destruct (truthy (trim (resetCode (store sc)))); cbn [negb];
      [| apply reset_quiet_handler_ok; cbn; try tauto; repeat constructor].
    destruct (length (trim (resetCode (store sc))) =? 4)%nat eqn:Hlen; cbn [negb orb];
      [| apply reset_quiet_handler_ok; cbn; try tauto; repeat constructor].
    destruct (test fourDigits (trim (resetCode (store sc)))) eqn:Hdigits; cbn [negb];
      [| apply reset_quiet_handler_ok; cbn; try tauto; repeat constructor].
    destruct (truthy (newPassword (store sc))); cbn [negb];
      [| apply reset_quiet_handler_ok; cbn; try tauto; repeat constructor].
    destruct (length (newPassword (store sc)) <? 6)%nat eqn:Hsix;
      [apply reset_quiet_handler_ok; cbn; try tauto; repeat constructor |].
    destruct (String.eqb (newPassword (store sc)) (confirmPassword (store sc)));
      cbn [negb]; [| apply reset_quiet_handler_ok; cbn; try tauto; repeat constructor].
    apply (reset_calling_handler_ok sc _ ResetPasswordRequest); cbn; try tauto; try reflexivity.
    constructor; [| constructor].
    apply (reset_code_ok _ _ (confirmPassword (store sc)) Hlen Hdigits Hsix).
  - (* PressRequestNewCode *)
    apply reset_quiet_handler_ok; cbn; try tauto; constructor.
  - (* PressBack *)
    unfold handleGoBack. destruct (step (store sc) =? 2)%Z;
      apply reset_quiet_handler_ok; cbn; try tauto; repeat constructor.
  - apply reset_quiet_handler_ok; cbn; try tauto; constructor.
  - apply reset_quiet_handler_ok; cbn; try tauto; constructor.
  - (* PressAlert *)
    destruct (open_alerts sc) as [| buttons rest] eqn:Halerts; [discriminate Hd |].
    destruct (existsb _ buttons); [| discriminate Hd]. injection Hd as <-.
    assert (Hok' : screen_ok {| store := store sc; awaited := awaited sc;
                                open_alerts := tl (buttons :: rest); trace := trace sc |}).
    { split; [exact Htrace |]. split; [exact Hone | exact Hstep]. }
    destruct a; apply reset_quiet_handler_ok; cbn; try tauto; repeat constructor.
  - (* Settle *)
    destruct (nth_error (awaited sc) n) as [a |] eqn:Hnth; [| discriminate Hd].
    destruct Hone as [[Hload [a0 Ha0]] | [_ Hnone]];
      [| rewrite Hnone in Hnth; destruct n; discriminate Hnth].
    assert (Hn : n = 0%nat).
    { rewrite Ha0 in Hnth. destruct n as [| [| k]]; [reflexivity | |]; discriminate Hnth. }
    subst n.
    assert (Hresolved :
      forall h0, (h0 = handleSendResetCode_resolved o \/ h0 = handleResetPassword_resolved o) ->
      screen_ok (exec h0 {| store := store sc; awaited := remove_nth 0 (awaited sc);
                            open_alerts := open_alerts sc; trace := trace sc |})).
    { intros h0 Hh0. unfold screen_ok, one_call_at_a_time, exec. rewrite Ha0.
      destruct Hh0 as [-> | ->]; destruct o as [| message]; cbn;
        (split; [apply Forall_app; split; [exact Htrace | repeat constructor] |]);
        (split; [right; split; reflexivity | exact Hstep]). }
    destruct a; injection Hd as <-; apply Hresolved; [left | right]; reflexivity.
Qed.

Lemma reset_run_ok (events : list event) (sc : Screen) :
  screen_ok sc -> screen_ok (run sc events).
Proof.
  revert sc. induction events as [| ev rest IH]; intros sc H; [exact H |].
  cbn. apply IH, reset_transition_ok, H.
Qed.

(** X14.  Along every run of the password reset screen from mount: a reset code
    is only requested for a well-formed address without capital letters; a
    reset is only sent with a code of exactly four digits and a password of
    at least six characters; at most one call is awaited at any time, and
    the busy flag is up exactly while one is; the step is 1 or 2. *)
Theorem reachable_reset_screens (events : list event) :
  let sc := run mount events in
  Forall call_well_formed (trace sc) /\
  one_call_at_a_time sc /\
  (step (store sc) = 1%Z \/ step (store sc) = 2%Z).
Proof.
  apply reset_run_ok. split; [constructor |].
  split; [right; split; reflexivity | left; reflexivity].
Qed.

(** X15.  "Request New Code" goes back to the email form without clearing the
    reset form, unlike the back arrow: once the new code was requested and
    the notice answered, the reset form shows the old code and both
    passwords as they were typed. *)
Theorem request_new_code_keeps_reset_form (sc : Screen)
  (Henabled : enabled sc = true)
  (Hidle : awaited sc = [])
  (Hstep : step (store sc) = 2%Z)
  (Haddress : isValidEmail (trim (email (store sc))) = true) :
  let sc' := run sc [PressRequestNewCode; PressSendResetCode;
                     Settle 0 Resolved; PressAlert ToStep2] in
  step (store sc') = 2%Z /\
  resetCode (store sc') = resetCode (store sc) /\
  newPassword (store sc') = newPassword (store sc) /\
  confirmPassword (store sc') = confirmPassword (store sc) /\
  let back := store (transition sc PressBack) in
  step back = 1%Z /\ resetCode back = "" /\ newPassword back = "" /\
  confirmPassword back = "".
Proof.
  cbn zeta.
  assert (Halerts : open_alerts sc = [] /\ isLoading (store sc) = false).
  { unfold enabled in Henabled. destruct (open_alerts sc); [| discriminate Henabled].
    apply negb_true_iff in Henabled. split; [reflexivity | exact Henabled]. }
  destruct Halerts as [Halerts Hload].
  assert (Hne : truthy (trim (email (store sc))) = true).
  { apply truthy_true_iff.
    apply well_formed_not_empty, isValidEmail_iff_well_formed, Haddress. }
  destruct sc as [s aw al tr]. cbn in *. subst aw al.
  destruct s as [e c p q l sn scf st]. cbn in *. subst l st.
  unfold run, fold_left, transition, dispatch, enabled, exec, consume,
    handleSendResetCode, requestNewCode, handleGoBack.
  cbn. rewrite Hne, Haddress. cbn. repeat split; reflexivity.
Qed.

Lemma request_new_code_keeps_reset_form_witness :
  let sc' := run reset_form_filled [PressRequestNewCode; PressSendResetCode;
                                    Settle 0 Resolved; PressAlert ToStep2] in
  resetCode (store reset_form_filled) = "1234" /\
  resetCode (store sc') = "1234" /\
  newPassword (store sc') = "secret1".
Proof.
  cbn zeta.
  assert (H1 : resetCode (store reset_form_filled) = "1234") by (vm_compute; reflexivity).
  assert (H2 : newPassword (store reset_form_filled) = "secret1")
    by (vm_compute; reflexivity).
  assert (Henabled : enabled reset_form_filled = true) by (vm_compute; reflexivity).
  assert (Hidle : awaited reset_form_filled = []) by (vm_compute; reflexivity).
  assert (Hstep : step (store reset_form_filled) = 2%Z) by (vm_compute; reflexivity).
  assert (Haddress : isValidEmail (trim (email (store reset_form_filled))) = true)
    by (vm_compute; reflexivity).
  destruct (request_new_code_keeps_reset_form reset_form_filled
              Henabled Hidle Hstep Haddress) as (_ & Hc & Hp & _).
  split; [exact H1 |]. split; [rewrite Hc; exact H1 | rewrite Hp; exact H2].
Defined.

End ForgotPasswordScreenFacts.

(** ** The email verification screen *)

Lemma all_chars_app (p : ascii -> bool) (a b : string) :
  all_chars p (a ++ b) = all_chars p a && all_chars p b.
Proof.
  induction a as [| c rest IH]; cbn; [reflexivity |].
  rewrite IH, andb_assoc. reflexivity.
Qed.

Lemma all_chars_join (p : ascii -> bool) (cells : list string) :
  Forall (fun cell => all_chars p cell = true) cells ->
  all_chars p (join "" cells) = true.
Proof.
  induction 1 as [| cell rest Hcell _ IH]; [reflexivity |].
  cbn [join]. destruct rest as [| next rest']; [exact Hcell |].
  rewrite all_chars_app, Hcell. cbn [append]. exact IH.
Qed.

Lemma filter_remove_nth_counted {A : Type} (f : A -> bool) (l : list A) (n : nat) (x : A) :
  nth_error l n = Some x -> f x = true ->
  S (List.length (filter f (remove_nth n l))) = List.length (filter f l).
Proof.
  revert n. induction l as [| a rest IH]; intros n Hn Hx.
  - destruct n; discriminate Hn.
  - destruct n as [| k]; cbn in *.
    + injection Hn as ->. rewrite Hx. reflexivity.
    + destruct (f a); cbn; rewrite (IH k Hn Hx); reflexivity.
Qed.

Module EmailVerificationFacts.

Import JSRegExp JSRegExpFacts EmailVerification.

Lemma digitsOnly_spec (value : string) :
  test digitsOnly value = true <-> all_chars is_digit value = true.
Proof. unfold digitsOnly, digit. rewrite test_spec. apply matches_star_class. Qed.

Lemma array_set_in_range (P : string -> Prop) (cells : list string) (index : nat)
  (value : string) :
  (index < List.length cells)%nat -> P value -> Forall P cells ->
  List.length (array_set cells index value) = List.length cells /\
  Forall P (array_set cells index value).
Proof.
  revert index. induction cells as [| cell rest IH]; intros index Hlt Hv Hall;
    [cbn in Hlt; lia |].
  inversion Hall as [| ? ? Hcell Hrest]; subst.
  destruct index as [| k]; cbn.
  - split; [reflexivity | constructor; assumption].
  - cbn in Hlt. destruct (IH k ltac:(lia) Hv Hrest) as [Hl Hf].
    split; [rewrite Hl; reflexivity | constructor; assumption].
Qed.

Lemma blank_code_ok : cells_ok (setVerificationCode blank_code initialState).
Proof. split; [reflexivity | repeat constructor]. Qed.

(** A handler that makes no call and leaves both flags alone. *)
Lemma verification_quiet_handler_ok (sc : Screen) (h : State -> State * list effect) :
  screen_ok sc ->
  cells_ok (fst (h (store sc))) ->
  isLoading (fst (h (store sc))) = isLoading (store sc) ->
  isResending (fst (h (store sc))) = isResending (store sc) ->
  continuations (snd (h (store sc))) = [] ->
  Forall (call_ok (route_email sc)) (snd (h (store sc))) ->
  screen_ok (exec h sc).
Proof.
  intros (_ & Htrace & Hflags) Hcells Hload Hresend Hquiet Hout.
  unfold screen_ok, flags_count_calls, exec in *.
  destruct (h (store sc)) as [s' out]. cbn in *.
  rewrite Hquiet, app_nil_r, Hload, Hresend.
  split; [exact Hcells |].
  split; [apply Forall_app; split; assumption | exact Hflags].
Qed.

Lemma verification_transition_ok (sc : Screen) (ev : event) :
  screen_ok sc -> screen_ok (transition sc ev).
Proof.
  intros Hok. unfold transition.
  destruct (dispatch sc ev) as [h |] eqn:Hd; [| exact Hok].
  pose proof Hok as (Hcells & Htrace & Hverify & Hresend).
  destruct ev; cbn [dispatch consume] in *;
    try (match type of Hd with
         | (if ?b then _ else _) = _ =>
             destruct b eqn:Hguard; [| discriminate Hd]
         end;
         injection Hd as <-;
         repeat match type of Hguard with
                | _ && _ = true => apply andb_prop in Hguard; destruct Hguard as [Hguard ?]
                end).
  - (* ChangeDigit *)
    unfold handleCodeChange.
    destruct (test digitsOnly value) eqn:Hdigits; cbn [negb];
      [| apply verification_quiet_handler_ok; cbn; try tauto; constructor].
    apply digitsOnly_spec in Hdigits.
    match goal with Hlt : (_ <? _)%nat = true |- _ => apply Nat.ltb_lt in Hlt;
      destruct (array_set_in_range (fun cell => all_chars is_digit cell = true)
                  (verificationCode (store sc)) index value Hlt Hdigits (proj2 Hcells))
        as [Hlen Hall] end.
    apply verification_quiet_handler_ok; [exact Hok | | reflexivity | reflexivity | |].
    + split; [cbn [fst setVerificationCode verificationCode]; rewrite Hlen;
              exact (proj1 Hcells) | exact Hall].
    + cbn [snd]. destruct (truthy value && (index <? 3)%nat); reflexivity.
    + cbn [snd]. destruct (truthy value && (index <? 3)%nat); repeat constructor.
  - (* KeyPress *)
    unfold handleKeyPress.
    destruct (String.eqb key "Backspace" && _ && _);
      apply verification_quiet_handler_ok; cbn; try tauto; repeat constructor.
  - (* PressVerify *)
    unfold handleVerify. cbn zeta.
    destruct (length (join "" (verificationCode (store sc))) =? 4)%nat eqn:Hlen;
      cbn [negb]; [| apply verification_quiet_handler_ok; cbn; try tauto; repeat constructor].
    apply Nat.eqb_eq in Hlen.
    match goal with Hl : negb (isLoading (store sc)) = true |- _ =>
      apply negb_true_iff in Hl; rename Hl into Hload end.
    unfold screen_ok, flags_count_calls, exec. cbn.
    rewrite Hload in Hverify. rewrite !filter_app, !length_app, Hverify, Hresend. cbn.
    split; [exact Hcells |]. split; [| split; [reflexivity | lia]].
    apply Forall_app. split; [exact Htrace |]. constructor; [| constructor].
    split; [exact Hlen | apply all_chars_join; exact (proj2 Hcells)].
  - (* PressResend *)
    unfold handleResendCode.
    destruct (truthy (route_email sc)) eqn:Haddress; cbn [negb];
      [| apply verification_quiet_handler_ok; cbn; try tauto; repeat constructor].
    match goal with Hl : negb (_ || _) = true |- _ =>
      apply negb_true_iff, orb_false_iff in Hl; destruct Hl as [Hload Hidle] end.
    unfold screen_ok, flags_count_calls, exec. cbn.
    rewrite Hidle in Hresend. rewrite !filter_app, !length_app, Hverify, Hresend. cbn.
    split; [exact Hcells |]. split; [| split; [lia | reflexivity]].
    apply Forall_app. split; [exact Htrace |]. constructor; [| constructor].
    split; [reflexivity | apply truthy_true_iff; exact Haddress].
  - apply verification_quiet_handler_ok; cbn; try tauto; repeat constructor.
  - apply verification_quiet_handler_ok; cbn; try tauto; repeat constructor.
  - (* PressAlert *)
    destruct (open_alerts sc) as [| buttons rest] eqn:Halerts; [discriminate Hd |].
    destruct (existsb _ buttons); [| discriminate Hd]. injection Hd as <-.
    assert (Hok' : screen_ok {| route_email := route_email sc; store := store sc;
                                awaited := awaited sc;
                                open_alerts := tl (buttons :: rest); trace := trace sc |}).
    { split; [exact Hcells |]. split; [exact Htrace | split; assumption]. }
    destruct a; apply verification_quiet_handler_ok; cbn; try tauto; repeat constructor.
  - (* Settle *)
    destruct (nth_error (awaited sc) n) as [a |] eqn:Hnth; [| discriminate Hd].
    destruct a; injection Hd as <-.
    + pose proof (filter_remove_nth_counted is_verify _ _ _ Hnth eq_refl) as Hcount.
      pose proof (filter_remove_nth is_resend _ _ _ Hnth eq_refl) as Hother.
      unfold screen_ok, flags_count_calls, exec.
      destruct o as [| message]; cbn;
        rewrite ?app_nil_r, Hother;
        (split; [first [exact Hcells | split; [reflexivity | repeat constructor]] |]);
        (split; [apply Forall_app; split; [exact Htrace | repeat constructor] |]);
        (split; [destruct (isLoading (store sc)); lia | exact Hresend]).
    + pose proof (filter_remove_nth_counted is_resend _ _ _ Hnth eq_refl) as Hcount.
      pose proof (filter_remove_nth is_verify _ _ _ Hnth eq_refl) as Hother.
      unfold screen_ok, flags_count_calls, exec.
      destruct o as [| message]; cbn;
        rewrite ?app_nil_r, Hother;
        (split; [first [exact Hcells | split; [reflexivity | repeat constructor]] |]);
        (split; [apply Forall_app; split; [exact Htrace | repeat constructor] |]);
        (split; [exact Hverify | destruct (isResending (store sc)); lia]).
Qed.

Lemma verification_run_ok (events : list event) (sc : Screen) :
  screen_ok sc ->
  screen_ok (run sc events) /\ route_email (run sc events) = route_email sc.
Proof.
  revert sc. induction events as [| ev rest IH]; intros sc H; [split; [exact H | reflexivity] |].
  change (run sc (ev :: rest)) with (run (transition sc ev) rest).
  destruct (IH (transition sc ev) (verification_transition_ok sc ev H)) as [Hok Hemail].
  split; [exact Hok |]. rewrite Hemail. unfold transition.
  destruct (dispatch sc ev) as [h |]; [| reflexivity].
  unfold exec. destruct (h (store (consume sc ev))). destruct ev; reflexivity.
Qed.

(** X16.  Along every run of the verification screen from mount: the code keeps
    its four cells and each holds decimal digits only; [verifyEmail] is only
    called with exactly four decimal digits and [resendVerification] only
    with the non-empty address of the route; never more than one
    verification and one resend are awaited, and [isLoading] and
    [isResending] are up exactly while theirs is. *)
Theorem reachable_verification_screens (address : string) (events : list event) :
  let sc := run (mount address) events in
  cells_ok (store sc) /\
  Forall (call_ok address) (trace sc) /\
  flags_count_calls sc.
Proof.
  cbn zeta.
  assert (H0 : screen_ok (mount address)).
  { split; [split; [reflexivity | repeat constructor] |].
    split; [constructor | split; reflexivity]. }
  destruct (verification_run_ok events (mount address) H0) as [(Hcells & Htrace & Hflags) Hemail].
  rewrite Hemail in Htrace. repeat split; try assumption; apply Hcells || apply Hflags.
Qed.

End EmailVerificationFacts.

(** ** A location picked on the map *)

Lemma coordinate_label_not_blank (lat lng : number) :
  trim (coordinate_label lat lng) <> "".
Proof.
  unfold coordinate_label, trim. cbn [append trimStart].
  change (is_whitespace "L") with false. cbn iota.
  destruct (trimEnd_first "L" ("at: " ++ toFixed lat 4 ++ ", Lng: " ++ toFixed lng 4)
              eq_refl) as [rest' Hrest].
  cbn [append] in Hrest. rewrite Hrest. discriminate.
Qed.

Lemma geocoded_address_not_blank (lat lng : number) (o : GeocodeOutcome) (s : State) :
  trim (deliveryAddress (state_after (handleReverseGeocode_resolved lat lng o) s)) <> "".
Proof.
  unfold handleReverseGeocode_resolved.
  destruct o as [[[| result others] |] |];
    try (destruct s; cbn -[trim coordinate_label]; apply coordinate_label_not_blank).
  cbn zeta. rewrite truthy_length.
  destruct (truthy (trim (join ", " (filter_Boolean (address_parts result))))) eqn:E;
    [| destruct s; cbn -[trim coordinate_label]; apply coordinate_label_not_blank].
  destruct s; cbn -[trim join filter_Boolean address_parts].
  rewrite trim_idempotent. apply truthy_true_iff. exact E.
Qed.

(** X17.  A valid coordinate picked by a tap on the map or by the locate button
    becomes the marker and the text of both coordinate fields, and is the
    coordinate sent to the geocoder; the tap leaves the region of the map
    alone, the locate button centres it.  However the geocoder answers, the
    address is not blank afterwards, and marker, coordinate fields and cart
    are as they were. *)
Theorem picked_location_is_consistent
  (lat lng : number) (o : GeocodeOutcome) (s : State)
  (Hvalid : validateCoordinates lat lng = true) :
  let picked := {| latitude := lat; longitude := lng |} in
  let tap := onMapPress (Some picked) in
  let fix_ := getCurrentLocation_position (PositionFix lat lng) in
  (selectedLocation (state_after tap s) = picked /\
   deliveryLat (state_after tap s) = toString lat /\
   deliveryLng (state_after tap s) = toString lng /\
   mapRegion (state_after tap s) = mapRegion s /\
   effects_of tap s = [ReverseGeocode lat lng]) /\
  (selectedLocation (state_after fix_ s) = picked /\
   deliveryLat (state_after fix_ s) = toString lat /\
   deliveryLng (state_after fix_ s) = toString lng /\
   region_latitude (mapRegion (state_after fix_ s)) = lat /\
   region_longitude (mapRegion (state_after fix_ s)) = lng /\
   effects_of fix_ s = [ReverseGeocode lat lng]) /\
  (let s' := state_after (handleReverseGeocode_resolved lat lng o) s in
   trim (deliveryAddress s') <> "" /\
   selectedLocation s' = selectedLocation s /\
   deliveryLat s' = deliveryLat s /\
   deliveryLng s' = deliveryLng s /\
   cart s' = cart s).
Proof.
  cbn zeta. split; [| split].
  - unfold onMapPress. cbn [latitude longitude]. rewrite Hvalid.
    destruct s; cbn. repeat split; reflexivity.
  - unfold getCurrentLocation_position, updateMapRegion. rewrite Hvalid.
    destruct s; cbn. repeat split; reflexivity.
  - split; [apply geocoded_address_not_blank |].
    repeat split;
      [ apply (keeps_invariant selectedLocation (fun v => v = selectedLocation s))
      | apply (keeps_invariant deliveryLat (fun v => v = deliveryLat s))
      | apply (keeps_invariant deliveryLng (fun v => v = deliveryLng s))
      | apply (keeps_invariant cart (fun v => v = cart s)) ];
      try reflexivity; frame.
Qed.

Lemma picked_location_is_consistent_witness :
  let s := state_after (onMapPress (Some {| latitude := literal 1 0;
                                            longitude := literal 2 0 |}))
             (initialState None) in
  validateCoordinates (literal 1 0) (literal 2 0) = true /\
  deliveryLat s = "1" /\ deliveryLng s = "2".
Proof.
  cbn zeta.
  assert (Hvalid : validateCoordinates (literal 1 0) (literal 2 0) = true)
    by (vm_compute; reflexivity).
  split; [exact Hvalid |].
  destruct (picked_location_is_consistent (literal 1 0) (literal 2 0) GeocodeThrows
              (initialState None) Hvalid) as ((_ & Hlat & Hlng & _) & _).
  split; [rewrite Hlat | rewrite Hlng]; vm_compute; reflexivity.
Defined.

(** ** The first render *)

Lemma append_not_empty_r (a b : string) : b <> "" -> a ++ b <> "".
Proof. destruct a; cbn; [tauto | discriminate]. Qed.

Lemma append_not_empty_l (a b : string) : a <> "" -> a ++ b <> "".
Proof. destruct a; cbn; [tauto | discriminate]. Qed.

Lemma decimal_digits_not_empty (n : Z) : decimal_digits n <> "".
Proof.
  unfold decimal_digits. cbn [digits_fuel].
  destruct (n <? 10)%Z; [discriminate |].
  rewrite digits_fuel_app. apply append_not_empty_r. discriminate.
Qed.

Lemma notation_not_empty (s n k : Z) : notation s n k <> "".
Proof.
  unfold notation. cbn zeta.
  pose proof (decimal_digits_not_empty s) as Hd.
  destruct ((-5 <=? n)%Z && (n <=? 21)%Z).
  - destruct (k <=? n)%Z; [apply append_not_empty_l; exact Hd |].
    destruct (0 <? n)%Z; [apply append_not_empty_r; discriminate | discriminate].
  - destruct (k =? 1)%Z; [apply append_not_empty_l; exact Hd |].
    apply append_not_empty_r. discriminate.
Qed.

Lemma toString_not_empty (x : number) : toString x <> "".
Proof.
  unfold toString. destruct x as [sign | sign | | sign m e]; try discriminate.
  - destruct sign; discriminate.
  - destruct (magnitude m e) as [num den].
    destruct (shortest_digits 16 _ num den _ 1) as [[s n] k].
    apply append_not_empty_r, notation_not_empty.
Qed.


(** ** The reachable screens, for the customer without a stored location *)

Lemma reachable_screens_witness :
  cart_unique (store form_filled) /\ location_valid (store form_filled).
Proof.
  destruct (reachable_screens string_of_Z (Some customer) session_token filling_the_form)
    as (Hunique & _ & Hvalid).
  split; [exact Hunique |]. apply Hvalid. split; reflexivity.
Defined.

(** ** The earlier version of the order screen *)

Lemma usable_coordinate_cases (x : number) :
  usable_coordinate (Some x) = if number_truthy x then Some x else None.
Proof. destruct x; reflexivity. Qed.

(** X19.  The earlier version of the screen has the same validator and the
    same first render but for the two coordinate fields: they show every
    stored coordinate as text, so they differ from the current ones exactly
    for a stored coordinate that is zero or NaN, which the earlier version
    shows ("0", "NaN") while the marker is already on the Kampala default,
    and the current version leaves empty. *)
Theorem earlier_version_differs_in_coordinate_fields (user : option User) :
  let old := EarlierVersion.initialState user in
  let new := initialState user in
  let stored_latitude := match user with Some u => user_latitude u | None => None end in
  let stored_longitude := match user with Some u => user_longitude u | None => None end in
  (forall lat lng,
      EarlierVersion.validateCoordinates lat lng = validateCoordinates lat lng) /\
  (cylinders old = cylinders new /\ cart old = cart new /\
   deliveryAddress old = deliveryAddress new /\ instructions old = instructions new /\
   loading old = loading new /\ error old = error new /\ showMap old = showMap new /\
   mapRegion old = mapRegion new /\ selectedLocation old = selectedLocation new /\
   locationPermission old = locationPermission new /\
   mapError old = mapError new /\ mapReady old = mapReady new) /\
  deliveryLat old = match stored_latitude with Some x => toString x | None => "" end /\
  deliveryLng old = match stored_longitude with Some x => toString x | None => "" end /\
  (deliveryLat old = deliveryLat new <->
   forall x, stored_latitude = Some x -> number_truthy x = true) /\
  (deliveryLng old = deliveryLng new <->
   forall x, stored_longitude = Some x -> number_truthy x = true).
Proof.
  cbn zeta.
  assert (Htext : forall c,
    EarlierVersion.coordinate_text c = match c with Some x => toString x | None => "" end).
  { intros [x |]; [| reflexivity]. unfold EarlierVersion.coordinate_text.
    destruct (toString x) eqn:E; [| reflexivity]. reflexivity. }
  assert (Hfield : forall c,
    EarlierVersion.coordinate_text c =
      match usable_coordinate c with Some x => toString x | None => "" end
    <-> forall x, c = Some x -> number_truthy x = true).
  { intros [x |]; [| split; [intros _ x Hx; discriminate Hx | reflexivity]].
    rewrite Htext, usable_coordinate_cases.
    destruct (number_truthy x) eqn:E.
    - split; [intros _ y Hy; injection Hy as <-; exact E | reflexivity].
    - split.
      + intros H. exfalso. apply (toString_not_empty x H).
      + intros H. specialize (H x eq_refl). congruence. }
  split.
  - intros lat lng. unfold EarlierVersion.validateCoordinates, validateCoordinates.
    apply andb_true_r.
  - split; [repeat split; reflexivity |].
    unfold EarlierVersion.initialState, initialState. cbn [deliveryLat deliveryLng].
    split; [apply Htext |]. split; [apply Htext |].
    split; apply Hfield.
Qed.

Lemma earlier_version_differs_in_coordinate_fields_witness :
  deliveryLat (EarlierVersion.initialState (Some customer_on_equator)) = "0" /\
  deliveryLat (initialState (Some customer_on_equator)) = "" /\
  latitude (selectedLocation (initialState (Some customer_on_equator))) = kampala_latitude.
Proof.
  destruct (earlier_version_differs_in_coordinate_fields (Some customer_on_equator))
    as (_ & _ & Hold & _).
  split; [rewrite Hold; reflexivity |]. split; reflexivity.
Defined.
